(** * twobotschat: the turn orchestrator, its validator and the streaming client

    A shallow embedding of [src/twobotschat/orchestrator.py],
    [src/twobotschat/agents.py], [src/twobotschat/ollama_client.py] and
    [src/twobotschat/main.py].

    Python [str] is modelled as [string] (the UTF-8 bytes of the text), Python
    [int] as [Z], a [dict] as an association list in insertion order, an
    exception as a constructor of [exn].  The language model behind a chat
    call and the HTTP server behind a request are outside the program: they
    are scripts of replies consumed in order, and every request is logged. *)

From Stdlib Require Import ZArith NArith List String Ascii Bool Lia DecimalString.
Import ListNotations.

Local Open Scope string_scope.
Local Open Scope list_scope.
Local Open Scope Z_scope.

Local Set Warnings "-register-all".

Infix "+++" := String.append (at level 60, right associativity).

(** ** Python built-ins used by the sources *)
Module Py.

Definition nl : string := String (ascii_of_nat 10) EmptyString.

(** The double quote character. *)
Definition dquote : ascii := ascii_of_nat 34.

(** [str.isspace] on one ASCII character: 0x09-0x0D, 0x1C-0x20. *)
Definition is_space (c : ascii) : bool :=
  let n := nat_of_ascii c in
  (((9 <=? n) && (n <=? 13)) || ((28 <=? n) && (n <=? 32)))%nat.

Definition is_digit (c : ascii) : bool :=
  let n := nat_of_ascii c in ((48 <=? n) && (n <=? 57))%nat.

Definition digit_val (c : ascii) : Z := Z.of_nat (nat_of_ascii c) - 48.

Fixpoint rev_string (s acc : string) : string :=
  match s with
  | String c r => rev_string r (String c acc)
  | EmptyString => acc
  end.

(** [s[n:]] for [0 <= n] *)
Fixpoint drop (n : nat) (s : string) : string :=
  match n, s with
  | S n', String _ r => drop n' r
  | _, _ => s
  end.

(** The width in bytes of the white-space character ([str.isspace]) that
    opens [s], 0 when [s] opens with none.  Beyond ASCII these are U+0085,
    U+00A0, U+1680, U+2000 to U+200A, U+2028, U+2029, U+202F, U+205F and
    U+3000, here in UTF-8. *)
Definition space_width (s : string) : nat :=
  match s with
  | EmptyString => 0
  | String c0 r =>
      let b0 := nat_of_ascii c0 in
      if is_space c0 then 1
      else
        match r with
        | EmptyString => 0
        | String c1 r1 =>
            let b1 := nat_of_ascii c1 in
            if (b0 =? 194) && ((b1 =? 133) || (b1 =? 160)) then 2
            else
              match r1 with
              | EmptyString => 0
              | String c2 _ =>
                  let b2 := nat_of_ascii c2 in
                  if (b0 =? 225) && (b1 =? 154) && (b2 =? 128) then 3
                  else if (b0 =? 226) && (b1 =? 128)
                          && (((128 <=? b2) && (b2 <=? 138))
                              || (b2 =? 168) || (b2 =? 169) || (b2 =? 175)) then 3
                  else if (b0 =? 226) && (b1 =? 129) && (b2 =? 159) then 3
                  else if (b0 =? 227) && (b1 =? 128) && (b2 =? 128) then 3
                  else 0
              end
        end
  end%nat.

(** The same for the white-space character that closes a text, on the text
    read backwards. *)
Definition space_width_back (s : string) : nat :=
  match s with
  | EmptyString => 0
  | String c2 r =>
      if space_width (String c2 EmptyString) =? 1 then 1
      else
        match r with
        | EmptyString => 0
        | String c1 r1 =>
            if space_width (String c1 (String c2 EmptyString)) =? 2 then 2
            else
              match r1 with
              | EmptyString => 0
              | String c0 _ =>
                  if space_width (String c0 (String c1 (String c2 EmptyString))) =? 3
                  then 3 else 0
              end
        end
  end%nat.

Fixpoint strip_with (width : string -> nat) (fuel : nat) (s : string) : string :=
  match fuel with
  | O => s
  | S fuel' =>
      match width s with
      | O => s
      | w => strip_with width fuel' (drop w s)
      end
  end.

(** [s.lstrip()] *)
Definition lstrip (s : string) : string := strip_with space_width (String.length s) s.

(** [s.rstrip()] *)
Definition rstrip (s : string) : string :=
  rev_string (strip_with space_width_back (String.length s) (rev_string s EmptyString))
             EmptyString.

(** [s.strip()] *)
Definition strip (s : string) : string := rstrip (lstrip s).

(** [s.startswith(p)] *)
Definition startswith (s p : string) : bool := String.prefix p s.

(** [sep.join(l)] *)
Definition join (sep : string) (l : list string) : string := String.concat sep l.

Definition str_truthy (s : string) : bool :=
  match s with EmptyString => false | _ => true end.

(** [l[-k:]] for [0 < k]: the last [k] elements, all of them when [l] is shorter. *)
Definition last_n {A : Type} (k : Z) (l : list A) : list A :=
  skipn (List.length l - Z.to_nat k) l.

(** [l[:-k]] for [0 < k]: all but the last [k] elements. *)
Definition but_last_n {A : Type} (k : Z) (l : list A) : list A :=
  firstn (List.length l - Z.to_nat k) l.

(** *** [int] of a [str]

    [int(s)] first turns the text into ASCII: a character below 127 stays, a
    white-space character becomes a blank, a decimal digit of any script
    becomes its ASCII digit, and any other character makes the text no
    literal.  The C parser then skips the blanks it knows (0x09-0x0D and
    0x20), reads one sign, then digits with single underscores between them,
    and skips blanks to the end of the text. *)

(** The code points of a text, from its UTF-8 bytes. *)
Fixpoint code_points (s : string) : list Z :=
  match s with
  | EmptyString => []
  | String c0 r =>
      let b0 := Z.of_nat (nat_of_ascii c0) in
      if b0 <? 192 then b0 :: code_points r
      else
        match r with
        | EmptyString => [b0]
        | String c1 r1 =>
            let b1 := Z.of_nat (nat_of_ascii c1) in
            if b0 <? 224 then ((b0 - 192) * 64 + (b1 - 128)) :: code_points r1
            else
              match r1 with
              | EmptyString => [b0]
              | String c2 r2 =>
                  let b2 := Z.of_nat (nat_of_ascii c2) in
                  if b0 <? 240
                  then ((b0 - 224) * 4096 + (b1 - 128) * 64 + (b2 - 128)) :: code_points r2
                  else
                    match r2 with
                    | EmptyString => [b0]
                    | String c3 r3 =>
                        let b3 := Z.of_nat (nat_of_ascii c3) in
                        ((b0 - 240) * 262144 + (b1 - 128) * 4096
                         + (b2 - 128) * 64 + (b3 - 128)) :: code_points r3
                    end
              end
        end
  end.

(** [str.isspace] on a code point. *)
Definition is_unicode_space (cp : Z) : bool :=
  ((9 <=? cp) && (cp <=? 13)) || ((28 <=? cp) && (cp <=? 32))
  || (cp =? 133) || (cp =? 160) || (cp =? 5760)
  || ((8192 <=? cp) && (cp <=? 8202))
  || (cp =? 8232) || (cp =? 8233) || (cp =? 8239) || (cp =? 8287) || (cp =? 12288).

(** The code point of the digit zero of each run of ten decimal digits
    (general category Nd) in Unicode 14.0, the database of CPython 3.11. *)
Definition decimal_zeros : list Z :=
  [48; 1632; 1776; 1984; 2406; 2534; 2662; 2790; 2918; 3046; 3174; 3302; 3430;
   3558; 3664; 3792; 3872; 4160; 4240; 6112; 6160; 6470; 6608; 6784; 6800; 6992;
   7088; 7232; 7248; 42528; 43216; 43264; 43472; 43504; 43600; 44016; 65296;
   66720; 68912; 69734; 69872; 69942; 70096; 70384; 70736; 70864; 71248; 71360;
   71472; 71904; 72016; 72784; 73040; 73120; 92768; 92864; 93008; 120782; 120792;
   120802; 120812; 120822; 123200; 123632; 125264; 130032].

(** [unicodedata.decimal(chr(cp), None)] *)
Definition decimal (cp : Z) : option Z :=
  option_map (fun zero => cp - zero)
             (find (fun zero => (zero <=? cp) && (cp <? zero + 10)) decimal_zeros).

(** The ASCII character [int] reads for a code point, if it reads one. *)
Definition int_char (cp : Z) : option Z :=
  if cp <? 127 then Some cp
  else if is_unicode_space cp then Some 32
  else option_map (fun d => 48 + d) (decimal cp).

Fixpoint int_chars (cps : list Z) : option (list Z) :=
  match cps with
  | [] => Some []
  | cp :: r =>
      match int_char cp, int_chars r with
      | Some c, Some l => Some (c :: l)
      | _, _ => None
      end
  end.

(** The blanks of the C parser. *)
Definition c_space (c : Z) : bool := ((9 <=? c) && (c <=? 13)) || (c =? 32).

Fixpoint skip_spaces (l : list Z) : list Z :=
  match l with
  | c :: r => if c_space c then skip_spaces r else l
  | [] => []
  end.

(** The digits at the head of [l], single underscores allowed between them:
    their value, their number and what follows them. *)
Fixpoint scan_digits (l : list Z) (acc : Z) (count : nat) (after_digit : bool)
  : option (Z * nat * list Z) :=
  match l with
  | [] => if after_digit then Some (acc, count, []) else None
  | c :: r =>
      if (48 <=? c) && (c <=? 57) then scan_digits r (10 * acc + (c - 48)) (S count) true
      else if c =? 95 then
        (if after_digit then scan_digits r acc count false else None)
      else if after_digit then Some (acc, count, l) else None
  end.

(** [sys.get_int_max_str_digits()], by default. *)
Definition max_str_digits : nat := 4300.

Definition int_of_digits (sign : Z) (l : list Z) : option Z :=
  match scan_digits l 0 0 false with
  | Some (value, count, rest) =>
      if (count <=? max_str_digits)%nat && forallb c_space rest
      then Some (sign * value) else None
  | None => None
  end.

(** [int(s)] for a [str]; [None] is [ValueError]. *)
Definition int_of_str (s : string) : option Z :=
  match int_chars (code_points s) with
  | None => None
  | Some l =>
      match skip_spaces l with
      | 45 :: r => int_of_digits (-1) r
      | 43 :: r => int_of_digits 1 r
      | r => int_of_digits 1 r
      end
  end.

End Py.

(** ** The JSON values [json.loads] produces *)
Module Json.

(** A binary64 float: not-a-number, an infinity, or [(-1)^neg * m * 2^e]. *)
Inductive pyfloat : Type :=
| FNan
| FInf (neg : bool)
| FFin (neg : bool) (m : N) (e : Z).

Inductive value : Type :=
| JNull
| JBool (b : bool)
| JInt (n : Z)
| JFloat (f : pyfloat)
| JStr (s : string)
| JArr (items : list value)
| JObj (fields : list (string * value)).

Definition dict : Type := list (string * value).

(** [d.get(k)] *)
Fixpoint get (d : dict) (k : string) : option value :=
  match d with
  | [] => None
  | (k', v) :: r => if String.eqb k' k then Some v else get r k
  end.

(** [k in d] *)
Definition mem (k : string) (d : dict) : bool :=
  match get d k with Some _ => true | None => false end.

(** [d[k] = v]: an existing key keeps its place, a new one goes last. *)
Fixpoint set (d : dict) (k : string) (v : value) : dict :=
  match d with
  | [] => [(k, v)]
  | (k', v') :: r => if String.eqb k' k then (k, v) :: r else (k', v') :: set r k v
  end.

(** [d.update(o)] *)
Definition update (d o : dict) : dict :=
  fold_left (fun acc kv => set acc (fst kv) (snd kv)) o d.

(** Python truthiness of a decoded value. *)
Definition truthy (v : value) : bool :=
  match v with
  | JNull => false
  | JBool b => b
  | JInt n => negb (n =? 0)
  | JFloat (FFin _ m _) => negb (N.eqb m 0)
  | JFloat _ => true
  | JStr s => Py.str_truthy s
  | JArr l => match l with [] => false | _ => true end
  | JObj d => match d with [] => false | _ => true end
  end.

Definition is_str (v : value) : bool :=
  match v with JStr _ => true | _ => false end.

(** *** Decimal literals to binary64, round to nearest, ties to even *)

(** [num / den] with [0 < num] and [0 < den]. *)
Definition round_binary64 (neg : bool) (num den : Z) : pyfloat :=
  let l := Z.log2 num - Z.log2 den in
  let ge_pow2 := if 0 <=? l then den * 2 ^ l <=? num else den <=? num * 2 ^ (- l) in
  let L := if ge_pow2 then l else l - 1 in
  let e := Z.max (L - 52) (-1074) in
  let n' := if 0 <=? e then num else num * 2 ^ (- e) in
  let d' := if 0 <=? e then den * 2 ^ e else den in
  let q := n' / d' in
  let r := n' mod d' in
  let q' := if (d' <? 2 * r) || ((d' =? 2 * r) && Z.odd q) then q + 1 else q in
  let m := if q' =? 2 ^ 53 then 2 ^ 52 else q' in
  let e' := if q' =? 2 ^ 53 then e + 1 else e in
  if 971 <? e' then FInf neg else FFin neg (Z.to_N m) e'.

(** [float] of the literal [(-1)^neg * M * 10^e10]. *)
Definition float_of_decimal (neg : bool) (M e10 : Z) : pyfloat :=
  if M =? 0 then FFin neg 0 0
  else if 400 <? e10 then FInf neg
  else if e10 + Z.log2 M + 1 <? -400 then FFin neg 0 0
  else if 0 <=? e10 then round_binary64 neg (M * 10 ^ e10) 1
  else round_binary64 neg M (10 ^ (- e10)).

(** [int(f)] for a finite float: truncation towards zero. *)
Definition trunc (neg : bool) (m : N) (e : Z) : Z :=
  let a := if 0 <=? e then Z.of_N m * 2 ^ e else Z.of_N m / 2 ^ (- e) in
  if neg then - a else a.

(** *** The scanner *)

Inductive token : Type :=
| TLBrace | TRBrace | TLBracket | TRBracket | TColon | TComma
| TScalar (v : value).

Fixpoint span_digits (s : string) : string * string :=
  match s with
  | String c r =>
      if Py.is_digit c then let '(d, r') := span_digits r in (String c d, r')
      else (EmptyString, s)
  | EmptyString => (EmptyString, EmptyString)
  end.

Fixpoint digits_Z (s : string) (acc : Z) : Z :=
  match s with
  | String c r => digits_Z r (10 * acc + Py.digit_val c)
  | EmptyString => acc
  end.

Definition hex_val (c : ascii) : option Z :=
  let n := Z.of_nat (nat_of_ascii c) in
  if (48 <=? n) && (n <=? 57) then Some (n - 48)
  else if (65 <=? n) && (n <=? 70) then Some (n - 55)
  else if (97 <=? n) && (n <=? 102) then Some (n - 87)
  else None.

Definition hex4 (a b c d : ascii) : option Z :=
  match hex_val a, hex_val b, hex_val c, hex_val d with
  | Some x, Some y, Some z, Some w => Some (((x * 16 + y) * 16 + z) * 16 + w)
  | _, _, _, _ => None
  end.

Definition byte (n : Z) : ascii := ascii_of_nat (Z.to_nat n).

(** The UTF-8 bytes of a code point (a lone surrogate gets the three-byte form). *)
Definition utf8 (cp : Z) (rest : string) : string :=
  if cp <? 128 then String (byte cp) rest
  else if cp <? 2048 then
    String (byte (192 + cp / 64)) (String (byte (128 + cp mod 64)) rest)
  else if cp <? 65536 then
    String (byte (224 + cp / 4096))
      (String (byte (128 + (cp / 64) mod 64)) (String (byte (128 + cp mod 64)) rest))
  else
    String (byte (240 + cp / 262144))
      (String (byte (128 + (cp / 4096) mod 64))
         (String (byte (128 + (cp / 64) mod 64)) (String (byte (128 + cp mod 64)) rest))).

Definition is_high (cp : Z) : bool := (55296 <=? cp) && (cp <=? 56319).
Definition is_low (cp : Z) : bool := (56320 <=? cp) && (cp <=? 57343).

(** The body of a string literal, after its opening quote: the decoded text
    and what follows the closing quote. *)
Fixpoint scan_string (s : string) : option (string * string) :=
  match s with
  | EmptyString => None
  | String c r =>
      if Ascii.eqb c Py.dquote then Some (EmptyString, r)
      else if (nat_of_ascii c <? 32)%nat then None
      else if Ascii.eqb c "\"%char then
        match r with
        | String "u"%char (String h1 (String h2 (String h3 (String h4 r1)))) =>
            match hex4 h1 h2 h3 h4 with
            | None => None
            | Some cp =>
                match r1 with
                | String "\"%char (String "u"%char
                    (String l1 (String l2 (String l3 (String l4 r2))))) =>
                    match hex4 l1 l2 l3 l4 with
                    | Some lo =>
                        if is_high cp && is_low lo then
                          match scan_string r2 with
                          | Some (t, r') =>
                              Some (utf8 (65536 + (cp - 55296) * 1024 + (lo - 56320)) t, r')
                          | None => None
                          end
                        else
                          match scan_string r1 with
                          | Some (t, r') => Some (utf8 cp t, r')
                          | None => None
                          end
                    | None => None
                    end
                | _ =>
                    match scan_string r1 with
                    | Some (t, r') => Some (utf8 cp t, r')
                    | None => None
                    end
                end
            end
        | String e r1 =>
            let plain (b : Z) :=
              match scan_string r1 with
              | Some (t, r') => Some (String (byte b) t, r')
              | None => None
              end in
            if Ascii.eqb e Py.dquote then plain 34
            else if Ascii.eqb e "\"%char then plain 92
            else if Ascii.eqb e "/"%char then plain 47
            else if Ascii.eqb e "b"%char then plain 8
            else if Ascii.eqb e "f"%char then plain 12
            else if Ascii.eqb e "n"%char then plain 10
            else if Ascii.eqb e "r"%char then plain 13
            else if Ascii.eqb e "t"%char then plain 9
            else None
        | EmptyString => None
        end
      else
        match scan_string r with
        | Some (t, r') => Some (String c t, r')
        | None => None
        end
  end.

(** A number at the head of [s], which starts with a digit or a minus sign:
    an [int] when it has neither fraction nor exponent, a [float] otherwise. *)
Definition scan_number (s : string) : option (value * string) :=
  let neg := match s with String "-"%char _ => true | _ => false end in
  let s1 := if neg then Py.drop 1 s else s in
  if neg && Py.startswith s1 "Infinity" then Some (JFloat (FInf true), Py.drop 8 s1)
  else
    let '(ip, s2) := span_digits s1 in
    match ip with
    | EmptyString => None
    | String c0 more =>
        if Ascii.eqb c0 "0"%char && Py.str_truthy more then None
        else
          let '(fr, s3) :=
            match s2 with
            | String "."%char r =>
                let '(f, r') := span_digits r in
                if Py.str_truthy f then (f, r') else (EmptyString, s2)
            | _ => (EmptyString, s2)
            end in
          let exp_of (r : string) (eneg : bool) (r0 : string) :=
            let '(d, r') := span_digits r in
            if Py.str_truthy d
            then (Some (if eneg then - digits_Z d 0 else digits_Z d 0), r')
            else (None, r0) in
          let '(ex, s4) :=
            match s3 with
            | String c r =>
                if Ascii.eqb c "e"%char || Ascii.eqb c "E"%char then
                  match r with
                  | String "-"%char r1 => exp_of r1 true s3
                  | String "+"%char r1 => exp_of r1 false s3
                  | _ => exp_of r false s3
                  end
                else (None, s3)
            | EmptyString => (None, s3)
            end in
          match fr, ex with
          | EmptyString, None =>
              Some (JInt (if neg then - digits_Z ip 0 else digits_Z ip 0), s4)
          | _, _ =>
              let e10 := match ex with Some e => e | None => 0 end in
              Some (JFloat (float_of_decimal neg (digits_Z (ip +++ fr) 0)
                              (e10 - Z.of_nat (String.length fr))), s4)
          end
    end.

Fixpoint scan (fuel : nat) (s : string) : option (list token) :=
  match fuel with
  | O => None
  | S fuel' =>
      match s with
      | EmptyString => Some []
      | String c r =>
          let push (t : token) (rest : string) :=
            option_map (cons t) (scan fuel' rest) in
          let word (w : string) (v : value) :=
            if Py.startswith s w
            then push (TScalar v) (Py.drop (String.length w) s) else None in
          if Ascii.eqb c " "%char || Ascii.eqb c (ascii_of_nat 9)
             || Ascii.eqb c (ascii_of_nat 10) || Ascii.eqb c (ascii_of_nat 13)
          then scan fuel' r
          else if Ascii.eqb c "{"%char then push TLBrace r
          else if Ascii.eqb c "}"%char then push TRBrace r
          else if Ascii.eqb c "["%char then push TLBracket r
          else if Ascii.eqb c "]"%char then push TRBracket r
          else if Ascii.eqb c ":"%char then push TColon r
          else if Ascii.eqb c ","%char then push TComma r
          else if Ascii.eqb c Py.dquote then
            match scan_string r with
            | Some (t, rest) => push (TScalar (JStr t)) rest
            | None => None
            end
          else if Ascii.eqb c "-"%char || Py.is_digit c then
            match scan_number s with
            | Some (v, rest) => push (TScalar v) rest
            | None => None
            end
          else if Ascii.eqb c "t"%char then word "true" (JBool true)
          else if Ascii.eqb c "f"%char then word "false" (JBool false)
          else if Ascii.eqb c "n"%char then word "null" JNull
          else if Ascii.eqb c "N"%char then word "NaN" (JFloat FNan)
          else if Ascii.eqb c "I"%char then word "Infinity" (JFloat (FInf false))
          else None
      end
  end.

(** *** The grammar *)

Fixpoint parse_value (fuel : nat) (ts : list token) : option (value * list token) :=
  match fuel with
  | O => None
  | S fuel' =>
      match ts with
      | TScalar v :: r => Some (v, r)
      | TLBracket :: TRBracket :: r => Some (JArr [], r)
      | TLBracket :: r => parse_items fuel' r []
      | TLBrace :: TRBrace :: r => Some (JObj [], r)
      | TLBrace :: r => parse_fields fuel' r []
      | _ => None
      end
  end
with parse_items (fuel : nat) (ts : list token) (acc : list value)
  : option (value * list token) :=
  match fuel with
  | O => None
  | S fuel' =>
      match parse_value fuel' ts with
      | Some (v, TComma :: r) => parse_items fuel' r (v :: acc)
      | Some (v, TRBracket :: r) => Some (JArr (rev (v :: acc)), r)
      | _ => None
      end
  end
with parse_fields (fuel : nat) (ts : list token) (acc : dict)
  : option (value * list token) :=
  match fuel with
  | O => None
  | S fuel' =>
      match ts with
      | TScalar (JStr k) :: TColon :: r =>
          match parse_value fuel' r with
          | Some (v, TComma :: r') => parse_fields fuel' r' (set acc k v)
          | Some (v, TRBrace :: r') => Some (JObj (set acc k v), r')
          | _ => None
          end
      | _ => None
      end
  end.

(** [json.loads(text)]; [None] is [json.JSONDecodeError].  The texts meant
    are those the decoder takes to the end: an integer literal of more than
    4300 digits, or nesting deeper than the interpreter's recursion limit,
    makes [json.loads] raise another exception, which is not modelled. *)
Definition loads (text : string) : option value :=
  match scan (S (String.length text)) text with
  | None => None
  | Some ts =>
      match parse_value (2 * List.length ts + 2) ts with
      | Some (v, []) => Some v
      | _ => None
      end
  end.

End Json.

(** ** Exceptions and effects *)
Module Eff.

(** Exceptions the modelled code can raise or let through. *)
Inductive exn : Type :=
| TypeError
| ValueError
| OverflowError
| AttributeError
| KeyError
| IndexError
| HTTPError (status : Z)
| RuntimeError (payload : Json.value)
| TransportError.

(** A pure computation that returns or raises. *)
Inductive result (A : Type) : Type :=
| Returns (a : A)
| Raises (e : exn).
Arguments Returns {A} a.
Arguments Raises {A} e.

(** A computation over a mutable state [S] that returns or raises; the state
    reached is kept in both cases, as the mutations made before a [raise]
    stay made. *)
Inductive outcome (S A : Type) : Type :=
| Ok (a : A) (s : S)
| Err (e : exn) (s : S).
Arguments Ok {S A} a s.
Arguments Err {S A} e s.

Definition M (S A : Type) : Type := S -> outcome S A.

Definition ret {S A : Type} (a : A) : M S A := fun s => Ok a s.

Definition raise {S A : Type} (e : exn) : M S A := fun s => Err e s.

Definition bind {S A B : Type} (c : M S A) (k : A -> M S B) : M S B :=
  fun s => match c s with
           | Ok a s' => k a s'
           | Err e s' => Err e s'
           end.

Definition lift {S A : Type} (r : result A) : M S A :=
  match r with
  | Returns a => ret a
  | Raises e => raise e
  end.

Definition modify {S : Type} (f : S -> S) : M S unit := fun s => Ok tt (f s).

Definition read {S A : Type} (f : S -> A) : M S A := fun s => Ok (f s) s.

Definition final_state {S A : Type} (o : outcome S A) : S :=
  match o with Ok _ s => s | Err _ s => s end.

End Eff.

Notation "x <- c ;; k" := (Eff.bind c (fun x => k))
  (at level 61, c at next level, right associativity).
Notation "' pat <- c ;; k" := (Eff.bind c (fun x => match x with pat => k end))
  (at level 61, pat pattern, c at next level, right associativity).
Notation "c ;;; k" := (Eff.bind c (fun _ => k))
  (at level 61, right associativity).

(** ** Conversation entries and prompt messages *)
Module Data.

(** One recorded attempt, the dict built in [_run_agent_turn].  The fields
    [satisfaction], [key_points] and [needs_from_other] are read off the
    validated payload, where they are an [int], a [list] of [str] and a
    [str]; the [timestamp] field, which nothing reads, is left out. *)
Record Entry : Type := {
  turn : Z;
  agent : string;
  attempt : Z;
  raw_output : string;
  raw_lines : list string;
  parse_error : option string;
  parsed : option Json.dict;
  satisfaction : option Z;
  key_points : option (list string);
  needs_from_other : option string
}.

(** A role-tagged prompt message, [{"role": ..., "content": ...}]. *)
Record Message : Type := { role : string; content : string }.

(** Truthiness of an [Optional[str]]. *)
Definition opt_truthy (o : option string) : bool :=
  match o with Some s => Py.str_truthy s | None => false end.

(** [d.get(k)] where the payload holds an [int]. *)
Definition int_at (d : Json.dict) (k : string) : option Z :=
  match Json.get d k with Some (Json.JInt n) => Some n | _ => None end.

(** [d.get(k)] where the payload holds a [str]. *)
Definition str_at (d : Json.dict) (k : string) : option string :=
  match Json.get d k with Some (Json.JStr s) => Some s | _ => None end.

Fixpoint strs (l : list Json.value) : list string :=
  match l with
  | Json.JStr s :: r => s :: strs r
  | _ :: r => strs r
  | [] => []
  end.

(** [d.get(k)] where the payload holds a [list] of [str]. *)
Definition strs_at (d : Json.dict) (k : string) : option (list string) :=
  match Json.get d k with Some (Json.JArr l) => Some (strs l) | _ => None end.

End Data.

(** ** agents.py *)
Module Agents.
Import Data.

Record AgentConfig : Type := { name : string; system_prompt : string }.

Definition strict_directive : string :=
  "重要：只能輸出嚴格 JSON，不能有任何額外字元。".
Definition topic_prefix : string := "主題：".
Definition summary_prefix : string := "對話摘要：" +++ Py.nl.
Definition said : string := " 說：" +++ Py.nl.
Definition malformed_warning : string :=
  "（注意：對方上一輪輸出格式錯誤，以下是原始輸出）" +++ Py.nl.

(** The loop of [build_messages] over the transcript it is given. *)
Definition render (agent : AgentConfig) (entry : Entry) : Message :=
  if String.eqb (Data.agent entry) (name agent) then
    {| role := "assistant"; content := raw_output entry |}
  else
    let other_name := Data.agent entry in
    let content :=
      if opt_truthy (parse_error entry)
      then malformed_warning +++ raw_output entry
      else raw_output entry in
    {| role := "user"; content := other_name +++ said +++ content |}.

Definition build_messages (agent : AgentConfig) (transcript : list Entry)
    (initial_user_prompt : string) (strict_json : bool)
    (summary : option string) (topic : option string) : list Message :=
  let messages := [ {| role := "system"; content := system_prompt agent |} ] in
  let messages :=
    if strict_json
    then messages ++ [ {| role := "system"; content := strict_directive |} ]
    else messages in
  let messages :=
    match topic with
    | Some t =>
        if Py.str_truthy t
        then messages ++ [ {| role := "system"; content := topic_prefix +++ t |} ]
        else messages
    | None => messages
    end in
  let messages :=
    match summary with
    | Some s =>
        if Py.str_truthy s
        then messages ++ [ {| role := "system"; content := summary_prefix +++ s |} ]
        else messages
    | None => messages
    end in
  match transcript with
  | [] => messages ++ [ {| role := "user"; content := initial_user_prompt |} ]
  | _ => messages ++ map (render agent) transcript
  end.

End Agents.

(** ** ollama_client.py *)
Module Client.
Import Eff Data.
Import Json.

Record Request : Type := { url : string; payload : Json.dict }.

(** A response: its status, and the lines [iter_lines(decode_unicode=True)]
    hands out as text, which it does when the response names its encoding. *)
Record Response : Type := { status_code : Z; lines : list string }.

(** What [requests.post] does with one request: a response, or a connection
    failure or timeout. *)
Inductive Reply : Type :=
| Answer (r : Response)
| Broken.

(** The network as the client sees it: the replies still to come, the
    requests sent so far, and the fragments handed to [on_chunk] so far. *)
Record Net : Type := {
  replies : list Reply;
  sent : list Request;
  chunks : list string
}.

Record OllamaClient : Type := { base_url : string; model : string; timeout_s : Z }.

Fixpoint lstrip_slash (s : string) : string :=
  match s with
  | String c r => if Ascii.eqb c "/"%char then lstrip_slash r else s
  | EmptyString => EmptyString
  end.

(** [OllamaClient.__init__]: [base_url.rstrip("/")]. *)
Definition init (base_url model : string) (timeout_s : Z) : OllamaClient :=
  {| base_url :=
       Py.rev_string (lstrip_slash (Py.rev_string base_url EmptyString)) EmptyString;
     model := model;
     timeout_s := timeout_s |}.

(** [requests.post(url, json=payload, stream=True, timeout=...)] *)
Definition post (url : string) (payload : Json.dict) : M Net Response :=
  fun n =>
    let log := sent n ++ [ {| url := url; payload := payload |} ] in
    match replies n with
    | Answer r :: rest =>
        Ok r {| replies := rest; sent := log; chunks := chunks n |}
    | Broken :: rest =>
        Err TransportError {| replies := rest; sent := log; chunks := chunks n |}
    | [] =>
        Err TransportError {| replies := []; sent := log; chunks := chunks n |}
    end.

(** [response.raise_for_status()] of [requests]: client and server error
    statuses raise, every other status passes. *)
Definition is_error_status (status : Z) : bool :=
  (400 <=? status) && (status <? 600).

Definition raise_for_status (r : Response) : M Net unit :=
  if is_error_status (status_code r) then raise (HTTPError (status_code r))
  else ret tt.

(** [on_chunk(chunk)] for a callback that returns: the call is recorded.
    (A callback that raises ends [chat] with its exception, as any other
    failure of the call does for the orchestrator.) *)
Definition on_chunk_call (chunk : string) : M Net unit :=
  modify (fun n => {| replies := replies n; sent := sent n;
                      chunks := chunks n ++ [chunk] |}).

Definition message_json (m : Message) : Json.value :=
  JObj [("role", JStr (role m)); ("content", JStr (content m))].

(** [v.get(k, default)] on a decoded value: only a dict has [get]. *)
Definition py_get (v : Json.value) (k : string) (default : Json.value)
  : result Json.value :=
  match v with
  | JObj d => Returns (match Json.get d k with Some x => x | None => default end)
  | _ => Raises AttributeError
  end.

(** [v[0]] on a decoded value. *)
Definition py_first (v : Json.value) : result Json.value :=
  match v with
  | JArr (x :: _) => Returns x
  | JArr [] => Raises IndexError
  | JStr (String c _) => Returns (JStr (String c EmptyString))
  | JStr EmptyString => Raises IndexError
  | JObj _ => Raises KeyError
  | _ => Raises TypeError
  end.

Definition contains (needle hay : string) : bool :=
  match String.index 0 needle hay with Some _ => true | None => false end.

Fixpoint has_str (s : string) (l : list Json.value) : bool :=
  match l with
  | JStr t :: r => String.eqb t s || has_str s r
  | _ :: r => has_str s r
  | [] => false
  end.

(** ["error" in data] *)
Definition has_error (data : Json.value) : result bool :=
  match data with
  | JObj d => Returns (Json.mem "error" d)
  | JArr l => Returns (has_str "error" l)
  | JStr s => Returns (contains "error" s)
  | _ => Raises TypeError
  end.

(** [raise RuntimeError(data["error"])] *)
Definition raise_error_field (data : Json.value) : exn :=
  match data with
  | JObj d =>
      match Json.get d "error" with
      | Some v => RuntimeError v
      | None => KeyError
      end
  | _ => TypeError
  end.

(** The fragment of one decoded record, lines 63-67. *)
Definition extract_chunk (using_openai : bool) (data : Json.value)
  : result Json.value :=
  if using_openai then
    match py_get data "choices" (JArr [JObj []]) with
    | Raises e => Raises e
    | Returns choices =>
        match py_first choices with
        | Raises e => Raises e
        | Returns choice =>
            match py_get choice "delta" (JObj []) with
            | Raises e => Raises e
            | Returns delta => py_get delta "content" (JStr "")
            end
        end
    end
  else
    match py_get data "message" (JObj []) with
    | Raises e => Raises e
    | Returns message => py_get message "content" (JStr "")
    end.

(** The [for line in response.iter_lines(...)] loop. *)
Fixpoint consume (using_openai on_chunk : bool) (ls : list string)
    (full_text : string) (raw_lines : list string) : M Net (string * list string) :=
  match ls with
  | [] => ret (full_text, raw_lines)
  | line0 :: rest =>
      if negb (Py.str_truthy line0) then
        consume using_openai on_chunk rest full_text raw_lines
      else
        let prefixed := using_openai && Py.startswith line0 "data:" in
        let line := if prefixed then Py.strip (Py.drop 5 line0) else line0 in
        if prefixed && String.eqb line "[DONE]" then ret (full_text, raw_lines)
        else
          let raw_lines := raw_lines ++ [line] in
          match Json.loads line with
          | None => consume using_openai on_chunk rest full_text raw_lines
          | Some data =>
              err <- lift (has_error data) ;;
              if (err : bool) then raise (raise_error_field data)
              else
                chunk <- lift (extract_chunk using_openai data) ;;
                full_text' <-
                  (if Json.truthy chunk then
                     match chunk with
                     | JStr c =>
                         (if on_chunk then on_chunk_call c else ret tt) ;;;
                         ret (full_text +++ c)
                     | _ => raise TypeError
                     end
                   else ret full_text) ;;
                if negb using_openai then
                  done <- lift (py_get data "done" JNull) ;;
                  if Json.truthy done then ret (full_text', raw_lines)
                  else consume using_openai on_chunk rest full_text' raw_lines
                else consume using_openai on_chunk rest full_text' raw_lines
          end
  end.

Definition options_truthy (options : option Json.dict) : bool :=
  match options with Some (_ :: _) => true | _ => false end.

Definition primary_payload (self : OllamaClient) (messages : list Message)
    (options : option Json.dict) : Json.dict :=
  let payload := [("model", JStr (model self));
                  ("messages", JArr (map message_json messages));
                  ("stream", JBool true)] in
  match options with
  | Some ((_ :: _) as o) => Json.set payload "options" (JObj o)
  | _ => payload
  end.

Definition openai_payload (self : OllamaClient) (messages : list Message)
    (options : option Json.dict) : Json.dict :=
  let payload := [("model", JStr (model self));
                  ("messages", JArr (map message_json messages));
                  ("stream", JBool true)] in
  match options with
  | Some ((_ :: _) as o) => Json.update payload o
  | _ => payload
  end.

(** [OllamaClient.chat]; [on_chunk] tells whether a callback was supplied. *)
Definition chat (self : OllamaClient) (messages : list Message)
    (on_chunk : bool) (options : option Json.dict) : M Net (string * list string) :=
  response <- post (base_url self +++ "/api/chat")
                   (primary_payload self messages options) ;;
  '(response, using_openai) <-
    (if status_code response =? 404 then
       response <- post (base_url self +++ "/v1/chat/completions")
                        (openai_payload self messages options) ;;
       ret (response, true)
     else ret (response, false)) ;;
  raise_for_status response ;;;
  consume using_openai on_chunk (lines response) "" [].

End Client.

(** ** orchestrator.py *)
Module Orchestrator.
Import Eff Data.
Import Json.

Record ParseResult : Type := { data : option Json.dict; error : option string }.

(** [str(exc)] of a [json.JSONDecodeError]: the library's text, never empty. *)
Definition decode_error_text : string := "Expecting value".

Definition required : list string :=
  ["reply_zh_tw"; "satisfaction"; "key_points"; "needs_from_other"].

(** The first required key that [data] lacks. *)
Fixpoint missing_key (keys : list string) (d : Json.dict) : option string :=
  match keys with
  | [] => None
  | key :: rest => if Json.mem key d then missing_key rest d else Some key
  end.

(** [isinstance(v, str)] for a value that may be absent. *)
Definition is_str_at (d : Json.dict) (k : string) : bool :=
  match Json.get d k with Some (JStr _) => true | _ => false end.

(** [isinstance(v, list) and all(isinstance(item, str) for item in v)] *)
Definition is_str_list_at (d : Json.dict) (k : string) : bool :=
  match Json.get d k with
  | Some (JArr l) => forallb Json.is_str l
  | _ => false
  end.

(** [int(v)] for a decoded value. *)
Definition py_int (v : Json.value) : result Z :=
  match v with
  | JNull => Raises TypeError
  | JBool b => Returns (if b then 1 else 0)
  | JInt n => Returns n
  | JFloat FNan => Raises ValueError
  | JFloat (FInf _) => Raises OverflowError
  | JFloat (FFin neg m e) => Returns (Json.trunc neg m e)
  | JStr s =>
      match Py.int_of_str s with
      | Some n => Returns n
      | None => Raises ValueError
      end
  | JArr _ => Raises TypeError
  | JObj _ => Raises TypeError
  end.

Definition fail (msg : string) : result ParseResult :=
  Returns {| data := None; error := Some msg |}.

(** [Orchestrator._parse_output] *)
Definition _parse_output (text : string) : result ParseResult :=
  match Json.loads text with
  | None => fail decode_error_text
  | Some (JObj d) =>
      match missing_key required d with
      | Some key => fail ("Missing key: " +++ key)
      | None =>
          if negb (is_str_at d "reply_zh_tw") then fail "reply_zh_tw must be string."
          else if negb (is_str_at d "needs_from_other")
          then fail "needs_from_other must be string."
          else if negb (is_str_list_at d "key_points")
          then fail "key_points must be list[str]."
          else
            match Json.get d "satisfaction" with
            | None => Raises KeyError
            | Some v =>
                match py_int v with
                | Raises TypeError | Raises ValueError =>
                    fail "satisfaction must be int 0-100."
                | Raises e => Raises e
                | Returns satisfaction =>
                    if (satisfaction <? 0) || (100 <? satisfaction)
                    then fail "satisfaction out of range."
                    else Returns {| data := Some (Json.set d "satisfaction"
                                                    (JInt satisfaction));
                                    error := None |}
                end
            end
      end
  | Some _ => fail "JSON is not an object."
  end.

(** The constructor arguments the run reads.  [agents] is the dict
    [build_agent_configs] returns: each key is the name of its agent. *)
Record Config : Type := {
  system_prompts : string -> string;
  max_turns : Z;
  min_satisfaction : Z;
  stable_rounds : Z;
  summary_keep_last : Z;
  summary_max_points : Z;
  initial_user_prompt : string;
  topic : string
}.

Definition agents (cfg : Config) (agent_name : string) : Agents.AgentConfig :=
  {| Agents.name := agent_name; Agents.system_prompt := system_prompts cfg agent_name |}.

(** What one [client.chat] call does: it returns the aggregated text and the
    raw lines, or it raises. *)
Inductive ChatReply : Type :=
| Replied (output : string) (raw : list string)
| Failed (e : exn).

(** What a call of [Client.chat] leaves to its caller. *)
Definition reply_of (o : outcome Client.Net (string * list string)) : ChatReply :=
  match o with
  | Ok (output, raw) _ => Replied output raw
  | Err e _ => Failed e
  end.

(** The orchestrator's mutable state, with the model servers' replies still
    to come and the prompts sent so far. *)
Record State : Type := {
  transcript : list Entry;
  context : list Entry;
  script : list ChatReply;
  prompts : list (list Message)
}.

Definition append_transcript (entry : Entry) : M State unit :=
  modify (fun s => {| transcript := transcript s ++ [entry]; context := context s;
                      script := script s; prompts := prompts s |}).

Definition append_context (entry : Entry) : M State unit :=
  modify (fun s => {| transcript := transcript s; context := context s ++ [entry];
                      script := script s; prompts := prompts s |}).

(** [client.chat(messages=messages, on_chunk=...)] *)
Definition chat (messages : list Message) : M State (string * list string) :=
  fun s =>
    let log := prompts s ++ [messages] in
    match script s with
    | Replied output raw :: rest =>
        Ok (output, raw) {| transcript := transcript s; context := context s;
                            script := rest; prompts := log |}
    | Failed e :: rest =>
        Err e {| transcript := transcript s; context := context s;
                 script := rest; prompts := log |}
    | [] =>
        Err TransportError {| transcript := transcript s; context := context s;
                              script := []; prompts := log |}
    end.

(** The points of one older entry, the body of the loop at lines 164-174. *)
Definition entry_points (entry : Entry) : list string :=
  if opt_truthy (parse_error entry) then []
  else
    let parsed := match parsed entry with Some d => d | None => [] end in
    let key_points :=
      match strs_at parsed "key_points" with
      | Some ((_ :: _) as l) => l
      | _ => match key_points entry with Some l => l | None => [] end
      end in
    match key_points with
    | _ :: _ => key_points
    | [] =>
        match str_at parsed "reply_zh_tw" with
        | Some reply => if Py.str_truthy reply then [reply] else []
        | None => []
        end
    end.

(** [Orchestrator._summarize_and_trim_context] *)
Definition _summarize_and_trim_context (cfg : Config) (context : list Entry)
  : option string * list Entry :=
  match context with
  | [] => (None, [])
  | _ =>
      let keep := Z.max 0 (summary_keep_last cfg) in
      let recent := if keep =? 0 then [] else Py.last_n keep context in
      let older := if keep =? 0 then context else Py.but_last_n keep context in
      match older with
      | [] => (None, recent)
      | _ =>
          let points := fold_left (fun points entry => points ++ entry_points entry)
                                  older [] in
          match points with
          | [] => (None, recent)
          | _ =>
              let points :=
                if 0 <? summary_max_points cfg
                then Py.last_n (summary_max_points cfg) points else points in
              (Some (Py.join Py.nl (map (fun p => "- " +++ p) points)), recent)
          end
      end
  end.

(** The entry dict of lines 119-137. *)
Definition make_entry (turn : Z) (agent : Agents.AgentConfig) (attempt : Z)
    (output : string) (raw : list string) (parse_result : ParseResult) : Entry :=
  {| turn := turn;
     agent := Agents.name agent;
     attempt := attempt;
     raw_output := output;
     raw_lines := raw;
     parse_error := error parse_result;
     parsed := data parse_result;
     satisfaction :=
       match data parse_result with Some d => int_at d "satisfaction" | None => None end;
     key_points :=
       match data parse_result with Some d => strs_at d "key_points" | None => None end;
     needs_from_other :=
       match data parse_result with
       | Some d => str_at d "needs_from_other" | None => None
       end |}.

(** One pass of the [for attempt in [1, 2]] loop: the entry it builds, after
    appending it where lines 138-147 do. *)
Definition attempt_once (cfg : Config) (turn : Z) (agent : Agents.AgentConfig)
    (attempt : Z) : M State Entry :=
  let strict_json := attempt =? 2 in
  ctx <- read context ;;
  let '(summary, recent) := _summarize_and_trim_context cfg ctx in
  let messages :=
    Agents.build_messages agent recent (initial_user_prompt cfg) strict_json
                          summary (Some (topic cfg)) in
  '(output, raw) <- chat messages ;;
  parse_result <- lift (_parse_output output) ;;
  let entry := make_entry turn agent attempt output raw parse_result in
  if opt_truthy (error parse_result) then
    append_transcript entry ;;;
    (if attempt =? 2 then append_context entry else ret tt) ;;;
    ret entry
  else
    append_transcript entry ;;;
    append_context entry ;;;
    ret entry.

(** The loop itself: a pass that parsed returns at once, a pass that did not
    goes on to the next attempt, and after the last one line 149 returns the
    entry of the last pass. *)
Fixpoint attempts (cfg : Config) (turn : Z) (agent : Agents.AgentConfig)
    (todo : list Z) (last : option Entry) : M State (option Entry) :=
  match todo with
  | [] => ret last
  | attempt :: rest =>
      entry <- attempt_once cfg turn agent attempt ;;
      if opt_truthy (parse_error entry)
      then attempts cfg turn agent rest (Some entry)
      else ret (Some entry)
  end.

(** [Orchestrator._run_agent_turn] *)
Definition _run_agent_turn (cfg : Config) (turn : Z) (agent : Agents.AgentConfig)
  : M State (option Entry) :=
  attempts cfg turn agent [1; 2] None.

(** [Orchestrator._latest_entry] *)
Definition _latest_entry (transcript : list Entry) (agent_name : string)
  : option Entry :=
  find (fun entry => String.eqb (agent entry) agent_name) (rev transcript).

(** [Orchestrator._get_satisfaction] *)
Definition _get_satisfaction (entry : option Entry) : option Z :=
  match entry with
  | None => None
  | Some e => if opt_truthy (parse_error e) then None else satisfaction e
  end.

Inductive StopReason : Type :=
| StabilityReached (stable_rounds min_satisfaction : Z)
| BudgetExhausted (max_turns : Z).

(** [last_valid[agent_name] = entry] *)
Fixpoint set_entry (d : list (string * Entry)) (k : string) (e : Entry)
  : list (string * Entry) :=
  match d with
  | [] => [(k, e)]
  | (k', e') :: r =>
      if String.eqb k' k then (k, e) :: r else (k', e') :: set_entry r k e
  end.

(** [last_valid.get(agent_name)] *)
Fixpoint get_entry (d : list (string * Entry)) (k : string) : option Entry :=
  match d with
  | [] => None
  | (k', e) :: r => if String.eqb k' k then Some e else get_entry r k
  end.

(** The inner [for agent_name in ["Agent A", "Agent B"]] loop. *)
Fixpoint agent_turns (cfg : Config) (turn : Z) (names : list string)
    (last_valid : list (string * Entry)) : M State (list (string * Entry)) :=
  match names with
  | [] => ret last_valid
  | agent_name :: rest =>
      parsed_entry <- _run_agent_turn cfg turn (agents cfg agent_name) ;;
      let last_valid :=
        match parsed_entry with
        | Some e =>
            if negb (opt_truthy (parse_error e))
            then set_entry last_valid agent_name e
            else last_valid
        | None => last_valid
        end in
      agent_turns cfg turn rest last_valid
  end.

(** Lines 60-71: the counter after a round, from the transcript it left. *)
Definition next_stable_count (cfg : Config) (transcript : list Entry)
    (stable_count : Z) : Z :=
  let latest_a := _latest_entry transcript "Agent A" in
  let latest_b := _latest_entry transcript "Agent B" in
  let sat_a := _get_satisfaction latest_a in
  let sat_b := _get_satisfaction latest_b in
  match sat_a, sat_b with
  | Some a, Some b =>
      if (min_satisfaction cfg <=? a) && (min_satisfaction cfg <=? b)
      then stable_count + 1 else 0
  | _, _ => 0
  end.

(** What the loop of [run] leaves in its local variables. *)
Record Locals : Type := {
  stable_count : Z;
  stop_reason : option StopReason;
  last_valid : list (string * Entry)
}.

(** The [for turn in range(1, max_turns + 1)] loop. *)
Fixpoint rounds (cfg : Config) (turns : list Z) (loc : Locals) : M State Locals :=
  match turns with
  | [] => ret loc
  | turn :: rest =>
      last_valid <- agent_turns cfg turn ["Agent A"; "Agent B"] (last_valid loc) ;;
      tr <- read transcript ;;
      let stable_count := next_stable_count cfg tr (stable_count loc) in
      if stable_rounds cfg <=? stable_count then
        ret {| stable_count := stable_count;
               stop_reason := Some (StabilityReached (stable_rounds cfg)
                                                     (min_satisfaction cfg));
               last_valid := last_valid |}
      else
        rounds cfg rest {| stable_count := stable_count;
                           stop_reason := stop_reason loc;
                           last_valid := last_valid |}
  end.

(** [range(1, n + 1)] *)
Definition range1 (n : Z) : list Z := map Z.of_nat (seq 1 (Z.to_nat n)).

(** What [run] hands to the final report. *)
Record Report : Type := {
  final_stable_count : Z;
  final_stop_reason : StopReason;
  final_last_valid : list (string * Entry);
  reached_target : bool
}.

(** [Orchestrator.run], up to the writing of the transcript and the printing
    of the report. *)
Definition run (cfg : Config) : M State Report :=
  loc <- rounds cfg (range1 (max_turns cfg))
                {| stable_count := 0; stop_reason := None; last_valid := [] |} ;;
  let stop_reason :=
    match stop_reason loc with
    | Some r => r
    | None => BudgetExhausted (max_turns cfg)
    end in
  ret {| final_stable_count := stable_count loc;
         final_stop_reason := stop_reason;
         final_last_valid := last_valid loc;
         reached_target := stable_rounds cfg <=? stable_count loc |}.

(** A run starts with an empty transcript and an empty context. *)
Definition initial (script : list ChatReply) : State :=
  {| transcript := []; context := []; script := script; prompts := [] |}.

End Orchestrator.

(** ** Sample texts, scripts and configurations *)
Module Samples.
Import Eff Data Orchestrator.

(** JSON text written with single quotes, turned into the real text. *)
Fixpoint q (s : string) : string :=
  match s with
  | String c r => String (if Ascii.eqb c "'"%char then Py.dquote else c) (q r)
  | EmptyString => EmptyString
  end.

(** A well-formed answer with the given satisfaction literal and key points. *)
Definition answer (sat : string) (points : string) : string :=
  q ("{'reply_zh_tw':'r','satisfaction':" +++ sat +++ ",'key_points':["
     +++ points +++ "],'needs_from_other':'n'}").

Definition spec_text : string :=
  q "{'reply_zh_tw':'r','satisfaction':'95','key_points':['a','b'],'needs_from_other':'n'}".

Definition ok (sat : string) : ChatReply := Replied (answer sat "'a','b'") [].

Definition bad : ChatReply := Replied "not json" [].

Definition config (max_turns min_satisfaction stable_rounds keep_last max_points : Z)
  : Config :=
  {| system_prompts := fun agent_name => "You are " +++ agent_name;
     max_turns := max_turns;
     min_satisfaction := min_satisfaction;
     stable_rounds := stable_rounds;
     summary_keep_last := keep_last;
     summary_max_points := max_points;
     initial_user_prompt := "begin";
     topic := "life" |}.

(** An answer with twenty key points. *)
Definition twenty_points : ChatReply :=
  Replied (answer "95" ("'p1','p2','p3','p4','p5','p6','p7','p8','p9','p10',"
                        +++ "'p11','p12','p13','p14','p15','p16','p17','p18','p19','p20'"))
          [].

End Samples.

(** ** Statements shared by the theorems *)
Module Props.
Import Eff Data Orchestrator.
Import Json.

(** A payload whose reply, key-point list and needs-from-other fields are
    present and well typed; nothing is asked of its satisfaction field. *)
Record well_typed (d : Json.dict) : Prop := {
  wt_reply : exists r, Json.get d "reply_zh_tw" = Some (JStr r);
  wt_points : exists l, Json.get d "key_points" = Some (JArr l)
                        /\ forallb Json.is_str l = true;
  wt_needs : exists n, Json.get d "needs_from_other" = Some (JStr n)
}.

(** The validator's success on [d] with the satisfaction normalised to [n]. *)
Definition accepted (d : Json.dict) (n : Z) : result ParseResult :=
  Returns {| data := Some (Json.set d "satisfaction" (JInt n)); error := None |}.

(** The double nearest to 95.7, which is what the literal decodes to. *)
Definition f95_7 : Json.pyfloat := FFin false 6734288817802445 (-46).

(** *** What Python's [int] converts, as the language states it

    [int] of an [int] is that integer, of a [bool] 0 or 1, of a finite
    [float] its value cut off towards zero, and of a [str] the value of the
    decimal literal the text spells: blanks, one optional sign, groups of
    decimal digits (of any script) joined by single underscores, blanks; at
    most 4300 digits.  It converts nothing else. *)

(** [n] is the finite float [(-1)^neg * m * 2^e] cut off towards zero. *)
Definition truncates (neg : bool) (m : N) (e : Z) (n : Z) : Prop :=
  exists a,
    0 <= a
    /\ n = (if neg then - a else a)
    /\ (if 0 <=? e then a = Z.of_N m * 2 ^ e
        else a * 2 ^ (- e) <= Z.of_N m < (a + 1) * 2 ^ (- e)).

(** A blank [int] allows around a literal: a C blank, or a white-space
    character beyond ASCII. *)
Definition int_blank (cp : Z) : Prop :=
  9 <= cp <= 13 \/ cp = 32 \/ (127 <= cp /\ Py.is_unicode_space cp = true).

(** A decimal digit and its value. *)
Definition digit_of (cp d : Z) : Prop :=
  (48 <= cp <= 57 /\ d = cp - 48) \/ (127 <= cp /\ Py.decimal cp = Some d).

(** Groups joined by single underscores. *)
Fixpoint joined (groups : list (list Z)) : list Z :=
  match groups with
  | [] => []
  | [g] => g
  | g :: rest => g ++ 95 :: joined rest
  end.

(** The value of a list of digit values, most significant first. *)
Definition decimal_value (values : list Z) : Z :=
  fold_left (fun acc d => 10 * acc + d) values 0.

(** The code points [cps] spell the decimal literal of [n]. *)
Definition int_literal (cps : list Z) (n : Z) : Prop :=
  exists lead sign groups values trail,
    cps = lead ++ sign ++ joined groups ++ trail
    /\ Forall int_blank lead
    /\ Forall int_blank trail
    /\ (sign = [] \/ sign = [43] \/ sign = [45])
    /\ groups <> []
    /\ Forall2 (fun g vs => g <> [] /\ Forall2 digit_of g vs) groups values
    /\ (List.length (List.concat values) <= 4300)%nat
    /\ n = (match sign with [45] => -1 | _ => 1 end) * decimal_value (List.concat values).

(** [int(v)] converts the decoded value [v] to [n]. *)
Inductive converts : Json.value -> Z -> Prop :=
| converts_int (n : Z) : converts (JInt n) n
| converts_bool (b : bool) : converts (JBool b) (if b then 1 else 0)
| converts_float (neg : bool) (m : N) (e : Z) (n : Z) :
    truncates neg m e n -> converts (JFloat (FFin neg m e)) n
| converts_str (s : string) (n : Z) :
    int_literal (Py.code_points s) n -> converts (JStr s) n.

(** [l1] is [l2] with some elements left out, order kept. *)
Inductive Subseq {A : Type} : list A -> list A -> Prop :=
| Subseq_nil : Subseq [] []
| Subseq_skip : forall x l1 l2, Subseq l1 l2 -> Subseq l1 (x :: l2)
| Subseq_keep : forall x l1 l2, Subseq l1 l2 -> Subseq (x :: l1) (x :: l2).

(** An entry whose parse succeeded. *)
Definition valid (e : Entry) : bool := negb (opt_truthy (parse_error e)).

(** The entries that lines 138-147 put into the context. *)
Definition goes_to_context (e : Entry) : bool := valid e || (attempt e =? 2).

(** Whether the primary endpoint answers the next request with 404. *)
Definition answered_404 (n : Client.Net) : bool :=
  match Client.replies n with
  | Client.Answer r :: _ => Client.status_code r =? 404
  | _ => false
  end.

(** The text of a list of fragments put end to end. *)
Definition concat_all (l : list string) : string :=
  fold_right String.append EmptyString l.

(** The non-empty text fragment a received line carries under a dialect, if
    it carries one. *)
Definition fragment (using_openai : bool) (line : string) : option string :=
  match Json.loads line with
  | Some data =>
      match Client.extract_chunk using_openai data with
      | Returns (JStr c) => if Py.str_truthy c then Some c else None
      | _ => None
      end
  | None => None
  end.

(** The fragments of the received lines, in the order of the lines. *)
Definition fragments (using_openai : bool) (received : list string) : list string :=
  flat_map (fun line => match fragment using_openai line with
                        | Some c => [c]
                        | None => []
                        end) received.

(** The prompt envelope an attempt builds from the context it finds,
    lines 100-108. *)
Definition envelope (cfg : Config) (agent : Agents.AgentConfig) (attempt : Z)
    (ctx : list Entry) : list Message :=
  Agents.build_messages agent (snd (_summarize_and_trim_context cfg ctx))
    (initial_user_prompt cfg) (attempt =? 2)
    (fst (_summarize_and_trim_context cfg ctx)) (Some (topic cfg)).

(** The state right after the chat call of an attempt. *)
Definition after_chat (cfg : Config) (agent : Agents.AgentConfig) (attempt : Z)
    (st : State) : State :=
  {| transcript := transcript st;
     context := context st;
     script := tl (script st);
     prompts := prompts st ++ [envelope cfg agent attempt (context st)] |}.

(** A round that runs to its end: agent A's turn returns [ea], then agent
    B's turn returns [eb]. *)
Definition round_of (cfg : Config) (turn : Z) (st : State) (ea eb : Entry)
    (st' : State) : Prop :=
  exists sa,
    _run_agent_turn cfg turn (agents cfg "Agent A") st = Ok (Some ea) sa
    /\ _run_agent_turn cfg turn (agents cfg "Agent B") sa = Ok (Some eb) st'.

(** A valid entry whose satisfaction meets the configured minimum. *)
Definition meets (cfg : Config) (e : Entry) : bool :=
  valid e && match satisfaction e with
             | Some n => min_satisfaction cfg <=? n
             | None => false
             end.

(** How a turn can go, with the entries it records: the first attempt
    raises; the first attempt parses; the first attempt does not parse and
    the second raises; the first attempt does not parse and the second
    returns, parsed or not. *)
Inductive turn_shape (cfg : Config) (turn : Z) (agent : Agents.AgentConfig)
    (st : State) : outcome State (option Entry) -> list Entry -> Prop :=
| first_raised : forall x,
    attempt_once cfg turn agent 1 st = Err x (after_chat cfg agent 1 st) ->
    turn_shape cfg turn agent st (Err x (after_chat cfg agent 1 st)) []
| first_parsed : forall e1 s1,
    attempt_once cfg turn agent 1 st = Ok e1 s1 ->
    valid e1 = true ->
    turn_shape cfg turn agent st (Ok (Some e1) s1) [e1]
| second_raised : forall e1 s1 x,
    attempt_once cfg turn agent 1 st = Ok e1 s1 ->
    valid e1 = false ->
    attempt_once cfg turn agent 2 s1 = Err x (after_chat cfg agent 2 s1) ->
    turn_shape cfg turn agent st (Err x (after_chat cfg agent 2 s1)) [e1]
| second_returned : forall e1 s1 e2 s2,
    attempt_once cfg turn agent 1 st = Ok e1 s1 ->
    valid e1 = false ->
    attempt_once cfg turn agent 2 s1 = Ok e2 s2 ->
    turn_shape cfg turn agent st (Ok (Some e2) s2) [e1; e2].

(** Lines 57-58: a returned entry that parsed becomes the agent's last
    valid entry. *)
Definition record_valid (last_valid : list (string * Entry)) (agent_name : string)
    (e : Entry) : list (string * Entry) :=
  if valid e then set_entry last_valid agent_name e else last_valid.

(** The report of a run that returned. *)
Definition report_of (o : outcome State Report) : option Report :=
  match o with Ok r _ => Some r | Err _ _ => None end.

(** Round, agent, attempt and validity of an entry. *)
Definition digest (e : Entry) : Z * string * Z * bool :=
  (turn e, agent e, attempt e, valid e).

(** The entry a turn returned, for reading it off a computed outcome. *)
Definition blank : Entry :=
  {| turn := 0; agent := ""; attempt := 0; raw_output := ""; raw_lines := [];
     parse_error := None; parsed := None; satisfaction := None;
     key_points := None; needs_from_other := None |}.

Definition entry_of (o : outcome State (option Entry)) : Entry :=
  match o with Ok (Some e) _ => e | _ => blank end.

(** *** The compaction summary, as described *)

(** One bulleted line per point. *)
Definition bulleted (points : list string) : string :=
  Py.join Py.nl (map (fun p => "- " +++ p) points).

(** The last [m] elements of a list, in order: none of them when [m <= 0],
    all of them when the list is shorter. *)
Definition keep_last {A : Type} (m : Z) (l : list A) : list A :=
  skipn (List.length l - Z.to_nat m) l.

(** The split of a context: the [keep] most recent entries and the older ones. *)
Definition older_part (keep : Z) (ctx : list Entry) : list Entry :=
  firstn (List.length ctx - Z.to_nat keep) ctx.

Definition recent_part (keep : Z) (ctx : list Entry) : list Entry :=
  skipn (List.length ctx - Z.to_nat keep) ctx.

(** The points an entry contributes: none for a parse-error entry, its key
    points when it has any, else its reply text when it has one. *)
Definition described_points (e : Entry) : list string :=
  if opt_truthy (parse_error e) then []
  else
    match key_points e with
    | Some ((_ :: _) as kp) => kp
    | _ =>
        match parsed e with
        | Some d =>
            match str_at d "reply_zh_tw" with
            | Some r => if Py.str_truthy r then [r] else []
            | None => []
            end
        | None => []
        end
    end.

(** The points collected by walking the older entries in order. *)
Definition collected (older : list Entry) : list string :=
  flat_map described_points older.

(** The summary as the specification words it: the last [m] collected points. *)
Definition described_summary (m : Z) (older : list Entry) : option string :=
  match collected older with
  | [] => None
  | pts => Some (bulleted (keep_last m pts))
  end.

(** The summary with the limit applied only when it is positive. *)
Definition limited_summary (m : Z) (older : list Entry) : option string :=
  match collected older with
  | [] => None
  | pts => Some (bulleted (if 0 <? m then keep_last m pts else pts))
  end.

(** An entry as [_run_agent_turn] builds it: its [key_points] field is the
    key-point list of its parsed payload. *)
Definition built (e : Entry) : Prop :=
  key_points e = match parsed e with
                 | Some d => strs_at d "key_points"
                 | None => None
                 end.

(** *** Prompt envelopes *)

(** The system messages that open every envelope, lines 68-79 of agents.py. *)
Definition system_part (agent : Agents.AgentConfig) (strict_json : bool)
    (summary topic : option string) : list Message :=
  [ {| role := "system"; content := Agents.system_prompt agent |} ]
  ++ (if strict_json
      then [ {| role := "system"; content := Agents.strict_directive |} ] else [])
  ++ (if opt_truthy topic
      then [ {| role := "system";
                content := Agents.topic_prefix +++ match topic with Some t => t | None => "" end |} ]
      else [])
  ++ (if opt_truthy summary
      then [ {| role := "system";
                content := Agents.summary_prefix
                           +++ match summary with Some t => t | None => "" end |} ]
      else []).

(** An envelope built while the Context is empty. *)
Definition from_empty (cfg : Config) (msgs : list Message) : Prop :=
  exists agent attempt, msgs = envelope cfg agent attempt [].

(** An envelope built from a Context that holds entries. *)
Definition from_context (cfg : Config) (msgs : list Message) : Prop :=
  exists agent attempt ctx, ctx <> [] /\ msgs = envelope cfg agent attempt ctx.

End Props.

(** ** agents.py: the two personas *)
Module Personas.
Import Agents.

(** Prompt text written with single quotes where the source has double ones. *)
Fixpoint quoted (s : string) : string :=
  match s with
  | String c r => String (if Ascii.eqb c "'"%char then Py.dquote else c) (quoted r)
  | EmptyString => EmptyString
  end.

Definition common_rules : string :=
  "你必須只輸出嚴格 JSON，不能有多餘文字或標點。" +++ Py.nl
  +++ "輸出 JSON schema：" +++ Py.nl
  +++ "{" +++ Py.nl
  +++ quoted "  'reply_zh_tw': '請先用「理由摘要：...」再用「結論：...」格式回答'," +++ Py.nl
  +++ quoted "  'satisfaction': 0-100 的整數," +++ Py.nl
  +++ quoted "  'key_points': ['本輪要點1','本輪要點2']," +++ Py.nl
  +++ quoted "  'needs_from_other': '希望對方下一輪回答/澄清什麼'" +++ Py.nl
  +++ "}" +++ Py.nl
  +++ "reply_zh_tw 內需要包含「理由摘要」與「結論」兩段，避免展開完整思考過程。" +++ Py.nl
  +++ "安全守則：避免鼓勵自我傷害或危險指引；若觸及低潮與絕望，請以一般性建議引導求助資源。".

Definition agent_a_prompt : string :=
  "你是 Agent A，偏存在主義，重視主觀經驗與自由選擇，但要避免空話，"
  +++ "必須提出可操作的生活準則。"
  +++ "主題由系統提示提供。"
  +++ "回覆必須是繁體中文。"
  +++ "每輪只輸出 JSON，不得有多餘字元。" +++ Py.nl
  +++ common_rules.

Definition agent_b_prompt : string :=
  "你是 Agent B，偏務實主義/系統思維，要求可驗證、可落地的方法，"
  +++ "同時保持同理心。"
  +++ "主題由系統提示提供。"
  +++ "回覆必須是繁體中文。"
  +++ "每輪只輸出 JSON，不得有多餘字元。" +++ Py.nl
  +++ common_rules.

Definition role_prefix : string := Py.nl +++ "角色補充：".

(** [if role: prompt += f"\n角色補充：{role}"] *)
Definition with_role (prompt : string) (role : option string) : string :=
  match role with
  | Some r => if Py.str_truthy r then prompt +++ role_prefix +++ r else prompt
  | None => prompt
  end.

(** [build_agent_configs]: the dict from agent name to agent. *)
Definition build_agent_configs (agent_a_role agent_b_role : option string)
  : list (string * AgentConfig) :=
  let agent_a := {| name := "Agent A";
                    system_prompt := with_role agent_a_prompt agent_a_role |} in
  let agent_b := {| name := "Agent B";
                    system_prompt := with_role agent_b_prompt agent_b_role |} in
  [(name agent_a, agent_a); (name agent_b, agent_b)].

(** [agents[key]] *)
Fixpoint lookup (d : list (string * AgentConfig)) (key : string) : option AgentConfig :=
  match d with
  | [] => None
  | (k, a) :: r => if String.eqb k key then Some a else lookup r key
  end.

End Personas.

(** ** orchestrator.py: the final report *)
Module Report.
Import Eff Data Orchestrator.


(** The console: the text of each [print] call so far, in order. *)
Definition print (text : string) : M (list string) unit :=
  modify (fun out => out ++ [text]).

Fixpoint print_all (texts : list string) : M (list string) unit :=
  match texts with
  | [] => ret tt
  | t :: r => print t ;;; print_all r
  end.


Definition no_consensus : string := "- 尚無有效共識摘要。".
Definition not_raised : string := "近期多輪對話未能同時提升雙方滿意度。".
Definition open_needs : string := "近期仍有未解答的需求或澄清點：".
Definition open_points : string := "最後數輪重點仍未形成一致方向：".
Definition semicolon : string := "；".


(** The key points of the last valid entries, agent A's first. *)
Fixpoint consensus_points (names : list string) (last_valid : list (string * Entry))
  : list string :=
  match names with
  | [] => []
  | agent_name :: rest =>
      match get_entry last_valid agent_name with
      | Some e =>
          if negb (opt_truthy (parse_error e))
          then match key_points e with Some points => points | None => [] end
               ++ consensus_points rest last_valid
          else consensus_points rest last_valid
      | None => consensus_points rest last_valid
      end
  end.

(** [item in seen] *)
Definition seen_has (seen : list string) (item : string) : bool :=
  existsb (String.eqb item) seen.

(** The loop of lines 281-286: the items not seen before, in order. *)
Fixpoint first_seen (items seen : list string) : list string :=
  match items with
  | [] => []
  | item :: rest =>
      if seen_has seen item then first_seen rest seen
      else item :: first_seen rest (item :: seen)
  end.

(** [Orchestrator._print_consensus_summary] *)
Definition _print_consensus_summary (last_valid : list (string * Entry))
  : M (list string) unit :=
  print (Py.nl +++ "系統整合共識摘要：") ;;;
  match consensus_points ["Agent A"; "Agent B"] last_valid with
  | [] => print no_consensus
  | summaries => print_all (map (fun item => "- " +++ item) (first_seen summaries []))
  end.

(** The [needs] and [points] lists of lines 292-300. *)
Definition recent_valid (transcript : list Entry) : list Entry :=
  Py.last_n 10 (filter (fun e => negb (opt_truthy (parse_error e))) transcript).

Definition recent_needs (recent : list Entry) : list string :=
  flat_map (fun entry => match needs_from_other entry with
                         | Some need => if Py.str_truthy need then [need] else []
                         | None => []
                         end) recent.

Definition recent_points (recent : list Entry) : list string :=
  flat_map (fun entry => match key_points entry with
                         | Some points => points
                         | None => []
                         end) recent.

(** [Orchestrator._infer_unmet_reasons] *)
Definition _infer_unmet_reasons (transcript : list Entry) : list string :=
  let recent := recent_valid transcript in
  let needs := recent_needs recent in
  let points := recent_points recent in
  let reasons := [] in
  let reasons :=
    match needs with
    | [] => reasons
    | _ => reasons ++ [open_needs +++ Py.join semicolon (Py.last_n 5 needs)]
    end in
  let reasons :=
    match points with
    | [] => reasons
    | _ => reasons ++ [open_points +++ Py.join semicolon (Py.last_n 5 points)]
    end in
  match reasons with
  | [] => [not_raised]
  | _ => reasons
  end.



End Report.

(** ** orchestrator.py: making a value writable *)
Module Persist.

(** The Python values [_json_safe] tells apart. *)
Inductive pyval : Type :=
| VNone
| VBool (b : bool)
| VInt (n : Z)
| VFloat (f : Json.pyfloat)
| VStr (s : string)
| VBytes (b : string)
| VList (items : list pyval)
| VTuple (items : list pyval)
| VDict (fields : list (string * pyval)).

(** [str(i)] for an index. *)
Definition str_of_index (i : nat) : string := NilZero.string_of_uint (Nat.to_uint i).

Definition warning (path : string) : string :=
  "[warn] bytes detected at " +++ path +++ "; decoding with utf-8 replacement.".

(** The two comprehensions of [_json_safe], over the function they call and
    the path they extend. *)
Section Comprehensions.

Variable f : pyval -> string -> pyval * list string.
Variable path : string.

(** [{k: f(v, f"{path}.{k}") for k, v in value.items()}] *)
Fixpoint over_items (fields : list (string * pyval))
  : list (string * pyval) * list string :=
  match fields with
  | [] => ([], [])
  | (k, v) :: r =>
      let '(v', w) := f v (path +++ "." +++ k) in
      let '(r', w') := over_items r in
      ((k, v') :: r', w ++ w')
  end.

(** [[f(v, f"{path}[{i}]") for i, v in enumerate(value)]], from index [i] on. *)
Fixpoint over_enumerate (items : list pyval) (i : nat) : list pyval * list string :=
  match items with
  | [] => ([], [])
  | v :: r =>
      let '(v', w) := f v (path +++ "[" +++ str_of_index i +++ "]") in
      let '(r', w') := over_enumerate r (S i) in
      (v' :: r', w ++ w')
  end.

End Comprehensions.

Section JsonSafe.

(** [bytes.decode("utf-8", errors="replace")] *)
Variable decode : string -> string.

(** [Orchestrator._json_safe]: the value, and the warnings printed on the way. *)
Fixpoint _json_safe (value : pyval) (path : string) : pyval * list string :=
  match value with
  | VBytes b => (VStr (decode b), [warning path])
  | VDict fields =>
      let '(fields', w) := over_items _json_safe path fields in (VDict fields', w)
  | VList items =>
      let '(items', w) := over_enumerate _json_safe path items 0%nat in (VList items', w)
  | VTuple items =>
      let '(items', w) := over_enumerate _json_safe path items 0%nat in (VList items', w)
  | _ => (value, [])
  end.

End JsonSafe.

(** A value with no bytes and no tuple anywhere in it. *)
Fixpoint writable (v : pyval) : bool :=
  match v with
  | VBytes _ => false
  | VTuple _ => false
  | VList items => forallb writable items
  | VDict fields => forallb (fun kv => writable (snd kv)) fields
  | _ => true
  end.

(** The number of bytes values in a value. *)
Fixpoint bytes_count (v : pyval) : nat :=
  match v with
  | VBytes _ => 1
  | VList items => list_sum (map bytes_count items)
  | VTuple items => list_sum (map bytes_count items)
  | VDict fields => list_sum (map (fun kv => bytes_count (snd kv)) fields)
  | _ => 0
  end.

(** A decoded JSON value as a Python value. *)
Fixpoint of_json (v : Json.value) : pyval :=
  match v with
  | Json.JNull => VNone
  | Json.JBool b => VBool b
  | Json.JInt n => VInt n
  | Json.JFloat f => VFloat f
  | Json.JStr s => VStr s
  | Json.JArr items => VList (map of_json items)
  | Json.JObj fields => VDict (map (fun kv => (fst kv, of_json (snd kv))) fields)
  end.

Definition of_option {A : Type} (f : A -> pyval) (o : option A) : pyval :=
  match o with Some a => f a | None => VNone end.

(** The entry dict of lines 119-137 as a Python value, over its timestamp and
    the received lines: [iter_lines] hands out [str] lines, or [bytes] ones
    when the response names no encoding. *)
Definition entry_value (timestamp : string) (e : Data.Entry) (lines : list pyval)
  : pyval :=
  VDict [("timestamp", VStr timestamp);
         ("turn", VInt (Data.turn e));
         ("agent", VStr (Data.agent e));
         ("attempt", VInt (Data.attempt e));
         ("raw_output", VStr (Data.raw_output e));
         ("raw_lines", VList lines);
         ("parse_error", of_option VStr (Data.parse_error e));
         ("parsed", of_option (fun d => of_json (Json.JObj d)) (Data.parsed e));
         ("satisfaction", of_option VInt (Data.satisfaction e));
         ("key_points", of_option (fun l => VList (map VStr l)) (Data.key_points e));
         ("needs_from_other", of_option VStr (Data.needs_from_other e))].

(** The entry dict when every received line is a [str]. *)
Definition of_entry (timestamp : string) (e : Data.Entry) : pyval :=
  entry_value timestamp e (map VStr (Data.raw_lines e)).

End Persist.

(** ** main.py *)
Module Main.
Import Data.

(** The namespace [parse_args] returns. *)
Record Args : Type := {
  model : string;
  base_url : string;
  agent_a_model : option string;
  agent_b_model : option string;
  agent_a_base_url : option string;
  agent_b_base_url : option string;
  topic : option string;
  agent_a_role : option string;
  agent_b_role : option string;
  max_turns : Z;
  min_sat : Z;
  stable_rounds : Z;
  summary_keep_last : Z;
  summary_max_points : Z;
  transcript_path : option string;
  timeout_s : Z
}.

Definition default_topic : string := "人生的意義".

(** [o or fallback] for an optional string. *)
Definition or_else (o : option string) (fallback : string) : string :=
  match o with
  | Some s => if Py.str_truthy s then s else fallback
  | None => fallback
  end.

(** [s or None] *)
Definition or_none (s : string) : option string :=
  if Py.str_truthy s then Some s else None.

(** Lines 88-95: the topic, and the lines of standard input left.  [input]
    takes the next line, and raises [EOFError] when there is none. *)
Definition read_topic (args : Args) (stdin : list string) : string * list string :=
  let '(topic, stdin) :=
    if opt_truthy (topic args) then (or_else (topic args) "", stdin)
    else
      match stdin with
      | line :: rest => (Py.strip line, rest)
      | [] => (or_else (topic args) default_topic, [])
      end in
  (if Py.str_truthy topic then topic else default_topic, stdin).

(** [read_role], lines 97-102. *)
Definition read_role (stdin : list string) : string * list string :=
  match stdin with
  | line :: rest => (Py.strip line, rest)
  | [] => ("", [])
  end.

(** [args.role or read_role(...)] *)
Definition role_of (given : option string) (stdin : list string)
  : string * list string :=
  if opt_truthy given then (or_else given "", stdin) else read_role stdin.

(** What [parse_args] returns for an empty command line. *)
Definition defaults : Args :=
  {| model := "qwen3:14b";
     base_url := "http://127.0.0.1:11434";
     agent_a_model := None;
     agent_b_model := None;
     agent_a_base_url := None;
     agent_b_base_url := None;
     topic := None;
     agent_a_role := None;
     agent_b_role := None;
     max_turns := 40;
     min_sat := 95;
     stable_rounds := 2;
     summary_keep_last := 6;
     summary_max_points := 12;
     transcript_path := None;
     timeout_s := 120 |}.

(** The namespace for [--agent-a-role a --agent-b-role b] and nothing else. *)
Definition with_roles (a b : string) : Args :=
  {| model := model defaults;
     base_url := base_url defaults;
     agent_a_model := None;
     agent_b_model := None;
     agent_a_base_url := None;
     agent_b_base_url := None;
     topic := None;
     agent_a_role := Some a;
     agent_b_role := Some b;
     max_turns := max_turns defaults;
     min_sat := min_sat defaults;
     stable_rounds := stable_rounds defaults;
     summary_keep_last := summary_keep_last defaults;
     summary_max_points := summary_max_points defaults;
     transcript_path := None;
     timeout_s := timeout_s defaults |}.

(** What [main] builds before it calls [run]. *)
Record Setup : Type := {
  agents : list (string * Agents.AgentConfig);
  client_a : Client.OllamaClient;
  client_b : Client.OllamaClient;
  config : Orchestrator.Config;
  path : option string
}.

(** [main], up to the call of [orchestrator.run()]. *)
Definition main (args : Args) (stdin : list string) : Setup * list string :=
  let '(topic, stdin) := read_topic args stdin in
  let '(agent_a_role, stdin) := role_of (agent_a_role args) stdin in
  let '(agent_b_role, stdin) := role_of (agent_b_role args) stdin in
  let agents := Personas.build_agent_configs (or_none agent_a_role)
                                             (or_none agent_b_role) in
  let agent_a_model := or_else (agent_a_model args) (model args) in
  let agent_b_model := or_else (agent_b_model args) (model args) in
  let agent_a_base_url := or_else (agent_a_base_url args) (base_url args) in
  let agent_b_base_url := or_else (agent_b_base_url args) (base_url args) in
  ({| agents := agents;
      client_a := Client.init agent_a_base_url agent_a_model (timeout_s args);
      client_b := Client.init agent_b_base_url agent_b_model (timeout_s args);
      config :=
        {| Orchestrator.system_prompts :=
             fun agent_name =>
               match Personas.lookup agents agent_name with
               | Some a => Agents.system_prompt a
               | None => EmptyString
               end;
           Orchestrator.max_turns := max_turns args;
           Orchestrator.min_satisfaction := min_sat args;
           Orchestrator.stable_rounds := stable_rounds args;
           Orchestrator.summary_keep_last := summary_keep_last args;
           Orchestrator.summary_max_points := summary_max_points args;
           Orchestrator.initial_user_prompt := "請開始對話，主題：" +++ topic +++ "。";
           Orchestrator.topic := topic |};
      path := transcript_path args |}, stdin).

End Main.

(** ** Further statements *)
Module MoreProps.
Import Eff Data Orchestrator Props.

(** What a computation hands to its caller, the state left aside. *)
Definition result_of {S A : Type} (o : outcome S A) : result A :=
  match o with
  | Ok a _ => Returns a
  | Err e _ => Raises e
  end.

(** A received line as the stream loop reads it: under the fallback dialect
    a [data:] prefix is cut off and the rest stripped. *)
Definition normal (using_openai : bool) (line : string) : string :=
  if using_openai && Py.startswith line "data:" then Py.strip (Py.drop 5 line)
  else line.

(** *** The stream as the two dialects define it

    These follow the wire formats, not the client's code: a primary record is
    [{"message": {"content": text}, "done": flag}], a fallback record is
    [data: {"choices": [{"delta": {"content": text}}]}], and the fallback
    stream ends with the line [data: [DONE]]. *)

(** The text a record carries, when it carries one. *)
Definition record_text (using_openai : bool) (data : Json.value) : option string :=
  match data with
  | Json.JObj d =>
      if using_openai then
        match Json.get d "choices" with
        | Some (Json.JArr (Json.JObj choice :: _)) =>
            match Json.get choice "delta" with
            | Some (Json.JObj delta) =>
                match Json.get delta "content" with
                | Some (Json.JStr c) => Some c
                | _ => None
                end
            | _ => None
            end
        | _ => None
        end
      else
        match Json.get d "message" with
        | Some (Json.JObj message) =>
            match Json.get message "content" with
            | Some (Json.JStr c) => Some c
            | _ => None
            end
        | _ => None
        end
  | _ => None
  end.

(** The non-empty text fragment of a received line: none for a line that is
    no record, or whose record carries no text or an empty one. *)
Definition line_fragment (using_openai : bool) (line : string) : list string :=
  match Json.loads (normal using_openai line) with
  | Some data =>
      match record_text using_openai data with
      | Some c => if Py.str_truthy c then [c] else []
      | None => []
      end
  | None => []
  end.

(** Whether a line ends the stream: the [data: [DONE]] line of the fallback
    dialect, a record whose [done] flag is set in the primary one. *)
Definition ends_stream (using_openai : bool) (line : string) : bool :=
  if using_openai then
    Py.startswith line "data:" && String.eqb (Py.strip (Py.drop 5 line)) "[DONE]"
  else
    match Json.loads line with
    | Some (Json.JObj d) =>
        match Json.get d "done" with
        | Some flag => Json.truthy flag
        | None => false
        end
    | _ => false
    end.

(** The lines that arrive before the stream ends: the closing record of the
    primary dialect is one of them, the [data: [DONE]] line is not. *)
Fixpoint arrived (using_openai : bool) (received : list string) : list string :=
  match received with
  | [] => []
  | line :: rest =>
      if ends_stream using_openai line
      then (if using_openai then [] else [line])
      else line :: arrived using_openai rest
  end.

(** The non-empty fragments of a stream, in the order of arrival. *)
Definition spoken (using_openai : bool) (received : list string) : list string :=
  flat_map (line_fragment using_openai) (arrived using_openai received).

(** The response whose lines a call reads: the fallback's after a 404 from
    the primary endpoint, else the primary's. *)
Definition streamed (n : Client.Net) : option Client.Response :=
  match Client.replies n with
  | Client.Answer r1 :: rest =>
      if Client.status_code r1 =? 404 then
        match rest with
        | Client.Answer r2 :: _ => Some r2
        | _ => None
        end
      else Some r1
  | _ => None
  end.

(** [n] slashes. *)
Fixpoint slashes (n : nat) : string :=
  match n with
  | O => EmptyString
  | S n' => String "/"%char (slashes n')
  end.

(** The latest valid entry of an agent in a transcript. *)
Definition latest_valid (transcript : list Entry) (agent_name : string) : option Entry :=
  find (fun e => String.eqb (agent e) agent_name && valid e) (rev transcript).

(** One context entry per turn of the given rounds: agent A's, then agent B's. *)
Definition one_per_turn (turns : list Z) : list (Z * string) :=
  flat_map (fun t => [(t, "Agent A"); (t, "Agent B")]) turns.

(** The options among topic and the two roles that [main] has to ask for. *)
Definition asked (args : Main.Args) : nat :=
  ((if opt_truthy (Main.topic args) then 0 else 1)
   + (if opt_truthy (Main.agent_a_role args) then 0 else 1)
   + (if opt_truthy (Main.agent_b_role args) then 0 else 1))%nat.

(** [last_valid] holds, for every agent, its latest valid transcript entry. *)
Definition agrees (last_valid : list (string * Entry)) (transcript : list Entry) : Prop :=
  forall agent_name, get_entry last_valid agent_name = latest_valid transcript agent_name.

(** An entry that, when valid, carries the record it was parsed into. *)
Definition carries_record (e : Entry) : Prop :=
  valid e = true -> exists d, parsed e = Some d.

(** The growth of the state over a computation: what is appended to the
    transcript, the context and the prompts, at most [bound] prompts. *)
Definition grows (bound : nat) (st st' : State) : Prop :=
  exists t c p,
    transcript st' = transcript st ++ t
    /\ context st' = context st ++ c
    /\ prompts st' = prompts st ++ p
    /\ script st' = skipn (List.length p) (script st)
    /\ Subseq c t
    /\ (List.length t <= List.length p)%nat
    /\ (List.length p <= bound)%nat
    /\ Forall carries_record t.

(** What [_json_safe] does to one value, whatever the path: the result has no
    bytes, one warning is printed for each bytes value, and a value without
    bytes or tuples comes back as it is. *)
Definition safe_at (f : Persist.pyval -> string -> Persist.pyval * list string)
    (v : Persist.pyval) : Prop :=
  forall p,
    Persist.writable (fst (f v p)) = true
    /\ List.length (snd (f v p)) = Persist.bytes_count v
    /\ (Persist.writable v = true -> f v p = (v, [])).

End MoreProps.

(** ** The validator *)
Module ValidatorFacts.
Import Eff Data Orchestrator Props.
Import Json.

Lemma get_mem (d : Json.dict) (k : string) (v : Json.value) :
  Json.get d k = Some v -> Json.mem k d = true.
Proof. unfold Json.mem. intros ->. reflexivity. Qed.

(** On a payload with the three other fields well typed, the outcome of the
    validator is decided by [int] of the satisfaction value alone. *)
Lemma parse_output_by_int (text : string) (d : Json.dict) (v : Json.value) :
  Json.loads text = Some (JObj d) ->
  well_typed d ->
  Json.get d "satisfaction" = Some v ->
  _parse_output text =
    match py_int v with
    | Raises TypeError | Raises ValueError => fail "satisfaction must be int 0-100."
    | Raises e => Raises e
    | Returns n =>
        if (n <? 0) || (100 <? n) then fail "satisfaction out of range."
        else accepted d n
    end.
Proof.
  intros Hl [[r Hr] [l [Hp Hall]] [n Hn]] Hs.
  unfold _parse_output. rewrite Hl.
  unfold required, missing_key.
  rewrite (get_mem _ _ _ Hr), (get_mem _ _ _ Hs), (get_mem _ _ _ Hp), (get_mem _ _ _ Hn).
  unfold is_str_at, is_str_list_at. rewrite Hr, Hn, Hp, Hall, Hs. simpl.
  reflexivity.
Qed.

Lemma parse_output_in_range (text : string) (d : Json.dict) (v : Json.value) (n : Z) :
  Json.loads text = Some (JObj d) -> well_typed d ->
  Json.get d "satisfaction" = Some v -> py_int v = Returns n ->
  0 <= n <= 100 -> _parse_output text = accepted d n.
Proof.
  intros Hl Hw Hs Hi Hn. rewrite (parse_output_by_int _ _ _ Hl Hw Hs), Hi.
  replace ((n <? 0) || (100 <? n)) with false; [reflexivity|].
  symmetry. apply orb_false_iff. split; apply Z.ltb_ge; lia.
Qed.

Lemma parse_output_out_of_range (text : string) (d : Json.dict) (v : Json.value) (n : Z) :
  Json.loads text = Some (JObj d) -> well_typed d ->
  Json.get d "satisfaction" = Some v -> py_int v = Returns n ->
  n < 0 \/ 100 < n -> _parse_output text = fail "satisfaction out of range.".
Proof.
  intros Hl Hw Hs Hi Hn. rewrite (parse_output_by_int _ _ _ Hl Hw Hs), Hi.
  replace ((n <? 0) || (100 <? n)) with true; [reflexivity|].
  symmetry. apply orb_true_iff. destruct Hn; [left|right]; apply Z.ltb_lt; lia.
Qed.

(** C5. On every payload that has the four required fields with a well-typed
    reply, key-point list and needs-from-other, a satisfaction that [int]
    turns into 0 or 100 is accepted with that value, and one that [int] turns
    into -1 or 101 is rejected as out of range, with no record returned; the
    text of the specification validates with its satisfaction made the
    integer 95. *)
Theorem validator_accepts_0_100_rejects_m1_101
    (text : string) (d : Json.dict) (v : Json.value) (n : Z) :
  Json.loads text = Some (JObj d) ->
  well_typed d ->
  Json.get d "satisfaction" = Some v ->
  py_int v = Returns n ->
  (n = 0 \/ n = 100 -> _parse_output text = accepted d n)
  /\ (n = -1 \/ n = 101 ->
      _parse_output text =
        Returns {| data := None; error := Some "satisfaction out of range." |})
  /\ _parse_output Samples.spec_text =
       Returns {| data := Some [("reply_zh_tw", JStr "r"); ("satisfaction", JInt 95);
                                ("key_points", JArr [JStr "a"; JStr "b"]);
                                ("needs_from_other", JStr "n")];
                  error := None |}.
Proof.
  intros Hl Hw Hs Hi. split; [|split].
  - intros Hn. apply (parse_output_in_range _ _ _ _ Hl Hw Hs Hi). lia.
  - intros Hn. apply (parse_output_out_of_range _ _ _ _ Hl Hw Hs Hi). lia.
  - vm_compute. reflexivity.
Qed.

Lemma sample_well_typed (sat : Json.value) :
  well_typed [("reply_zh_tw", JStr "r"); ("satisfaction", sat);
              ("key_points", JArr [JStr "a"; JStr "b"]);
              ("needs_from_other", JStr "n")].
Proof.
  constructor.
  - exists "r". reflexivity.
  - exists [JStr "a"; JStr "b"]. split; reflexivity.
  - exists "n". reflexivity.
Defined.

Lemma validator_accepts_0_100_rejects_m1_101_witness :
  _parse_output (Samples.answer "100" "'a','b'") =
    accepted [("reply_zh_tw", JStr "r"); ("satisfaction", JInt 100);
              ("key_points", JArr [JStr "a"; JStr "b"]);
              ("needs_from_other", JStr "n")] 100
  /\ _parse_output (Samples.answer "-1" "'a','b'") =
       Returns {| data := None; error := Some "satisfaction out of range." |}.
Proof.
  split.
  - apply (proj1 (validator_accepts_0_100_rejects_m1_101
                    (Samples.answer "100" "'a','b'") _ (JInt 100) 100
                    eq_refl (sample_well_typed _) eq_refl eq_refl)).
    right. reflexivity.
  - apply (proj1 (proj2 (validator_accepts_0_100_rejects_m1_101
                    (Samples.answer "-1" "'a','b'") _ (JInt (-1)) (-1)
                    eq_refl (sample_well_typed _) eq_refl eq_refl))).
    left. reflexivity.
Defined.

(** *** [int] of a text reads every literal *)

Lemma int_chars_app (a b : list Z) :
  Py.int_chars (a ++ b) =
    match Py.int_chars a, Py.int_chars b with
    | Some x, Some y => Some (x ++ y)
    | _, _ => None
    end.
Proof.
  induction a as [|cp a IH]; simpl.
  - now destruct (Py.int_chars b).
  - rewrite IH. destruct (Py.int_char cp); [|reflexivity].
    destruct (Py.int_chars a); [|reflexivity].
    now destruct (Py.int_chars b).
Qed.

Lemma int_chars_blanks (l : list Z) :
  Forall int_blank l ->
  exists l', Py.int_chars l = Some l' /\ forallb Py.c_space l' = true.
Proof.
  induction 1 as [|cp l Hcp _ [l' [Hl Hs]]]; [now exists []|].
  assert (Hc : exists c, Py.int_char cp = Some c /\ Py.c_space c = true).
  { unfold Py.int_char. destruct Hcp as [H | [H | [H Hu]]].
    - exists cp. replace (cp <? 127) with true by (symmetry; apply Z.ltb_lt; lia).
      split; [reflexivity|]. unfold Py.c_space. apply orb_true_iff. left.
      apply andb_true_iff. split; apply Z.leb_le; lia.
    - subst cp. now exists 32.
    - exists 32. replace (cp <? 127) with false by (symmetry; apply Z.ltb_ge; lia).
      now rewrite Hu. }
  destruct Hc as [c [Hc Hsp]]. exists (c :: l'). simpl.
  now rewrite Hc, Hl, Hsp.
Qed.

(** No white-space character is a decimal digit. *)
Lemma decimal_is_no_space (cp d : Z) :
  Py.decimal cp = Some d -> Py.is_unicode_space cp = false /\ 0 <= d <= 9.
Proof.
  unfold Py.decimal. intros H.
  destruct (find _ Py.decimal_zeros) as [zero|] eqn:Hf; [|discriminate].
  inversion H; subst d; clear H.
  apply find_some in Hf. destruct Hf as [Hin Hr].
  apply andb_true_iff in Hr. destruct Hr as [Hlo Hhi].
  apply Z.leb_le in Hlo. apply Z.ltb_lt in Hhi.
  split; [|lia].
  assert (Hall : forallb (fun zero =>
                   forallb (fun i => negb (Py.is_unicode_space (zero + i)))
                           [0; 1; 2; 3; 4; 5; 6; 7; 8; 9]) Py.decimal_zeros = true)
    by (vm_compute; reflexivity).
  rewrite forallb_forall in Hall. specialize (Hall zero Hin).
  rewrite forallb_forall in Hall.
  assert (Hi : In (cp - zero) [0; 1; 2; 3; 4; 5; 6; 7; 8; 9]).
  { simpl. assert (cp - zero = 0 \/ cp - zero = 1 \/ cp - zero = 2 \/ cp - zero = 3
                   \/ cp - zero = 4 \/ cp - zero = 5 \/ cp - zero = 6 \/ cp - zero = 7
                   \/ cp - zero = 8 \/ cp - zero = 9) by lia.
    intuition auto. }
  specialize (Hall _ Hi). replace (zero + (cp - zero)) with cp in Hall by lia.
  now apply negb_true_iff in Hall.
Qed.

Lemma int_char_digit (cp d : Z) :
  digit_of cp d -> Py.int_char cp = Some (48 + d) /\ 0 <= d <= 9.
Proof.
  unfold Py.int_char. intros [[H ->] | [H Hd]].
  - replace (cp <? 127) with true by (symmetry; apply Z.ltb_lt; lia).
    split; [f_equal; lia|lia].
  - replace (cp <? 127) with false by (symmetry; apply Z.ltb_ge; lia).
    destruct (decimal_is_no_space _ _ Hd) as [-> Hr]. rewrite Hd.
    split; [reflexivity|exact Hr].
Qed.

Lemma int_chars_digits (g vs : list Z) :
  Forall2 digit_of g vs ->
  Py.int_chars g = Some (map (Z.add 48) vs) /\ Forall (fun d => 0 <= d <= 9) vs.
Proof.
  induction 1 as [|cp d g vs Hd _ [IH1 IH2]]; [split; [reflexivity|constructor]|].
  destruct (int_char_digit _ _ Hd) as [Hc Hr]. simpl. rewrite Hc, IH1.
  split; [reflexivity|now constructor].
Qed.

Lemma int_chars_joined (groups values : list (list Z)) :
  Forall2 (fun g vs => g <> [] /\ Forall2 digit_of g vs) groups values ->
  Py.int_chars (joined groups) = Some (joined (map (map (Z.add 48)) values))
  /\ Forall (fun vs => vs <> [] /\ Forall (fun d => 0 <= d <= 9) vs) values.
Proof.
  induction 1 as [|g vs groups values [Hne Hg] Hrest [IH1 IH2]];
    [split; [reflexivity|constructor]|].
  destruct (int_chars_digits _ _ Hg) as [Hc Hr].
  assert (Hvs : vs <> []) by (inversion Hg; subst; [contradiction|discriminate]).
  split; [|constructor; [split; assumption|exact IH2]].
  destruct Hrest as [|g' vs' groups' values' Hg' Hrest'].
  - simpl. exact Hc.
  - change (joined (g :: g' :: groups')) with (g ++ 95 :: joined (g' :: groups')).
    change (joined (map (map (Z.add 48)) (vs :: vs' :: values')))
      with (map (Z.add 48) vs ++ 95 :: joined (map (map (Z.add 48)) (vs' :: values'))).
    rewrite int_chars_app, Hc.
    change (Py.int_chars (95 :: joined (g' :: groups')))
      with (match Py.int_chars (joined (g' :: groups')) with
            | Some l => Some (95 :: l)
            | None => None
            end).
    now rewrite IH1.
Qed.

Lemma scan_group (vs : list Z) :
  Forall (fun d => 0 <= d <= 9) vs ->
  forall d rest acc count after,
    0 <= d <= 9 ->
    Py.scan_digits (map (Z.add 48) (d :: vs) ++ rest) acc count after =
      Py.scan_digits rest (fold_left (fun a x => 10 * a + x) (d :: vs) acc)
                     (count + List.length (d :: vs)) true.
Proof.
  induction 1 as [|d' vs Hd' _ IH]; intros d rest acc count after Hd.
  - change (map (Z.add 48) [d] ++ rest) with ((48 + d) :: rest).
    cbn [Py.scan_digits fold_left List.length].
    replace ((48 <=? 48 + d) && (48 + d <=? 57)) with true
      by (symmetry; apply andb_true_iff; split; apply Z.leb_le; lia).
    replace (48 + d - 48) with d by lia.
    replace (count + 1)%nat with (S count) by lia. reflexivity.
  - change (map (Z.add 48) (d :: d' :: vs) ++ rest)
      with ((48 + d) :: (map (Z.add 48) (d' :: vs) ++ rest)).
    cbn [Py.scan_digits].
    replace ((48 <=? 48 + d) && (48 + d <=? 57)) with true
      by (symmetry; apply andb_true_iff; split; apply Z.leb_le; lia).
    rewrite (IH d' rest _ _ true Hd').
    replace (48 + d - 48) with d by lia.
    cbn [fold_left List.length].
    replace (S count + S (List.length vs))%nat
      with (count + S (S (List.length vs)))%nat by lia.
    reflexivity.
Qed.

Lemma scan_joined (values : list (list Z)) :
  Forall (fun vs => vs <> [] /\ Forall (fun d => 0 <= d <= 9) vs) values ->
  values <> [] ->
  forall rest acc count,
    forallb Py.c_space rest = true ->
    Py.scan_digits (joined (map (map (Z.add 48)) values) ++ rest) acc count false =
      Some (fold_left (fun a x => 10 * a + x) (List.concat values) acc,
            (count + List.length (List.concat values))%nat, rest).
Proof.
  induction 1 as [|vs values [Hne Hvs] Hrest IH]; [contradiction|].
  intros _ rest acc count Hsp.
  destruct vs as [|d vs]; [contradiction|].
  inversion Hvs as [|? ? Hd Hvs']; subst.
  destruct values as [|vs' values].
  - change (joined (map (map (Z.add 48)) [d :: vs])) with (map (Z.add 48) (d :: vs)).
    rewrite (scan_group vs Hvs' d rest acc count false Hd).
    cbn [List.concat]. rewrite app_nil_r.
    destruct rest as [|c rest']; [reflexivity|].
    cbn [forallb] in Hsp. apply andb_true_iff in Hsp. destruct Hsp as [Hc _].
    cbn [Py.scan_digits].
    assert (Hnd : (48 <=? c) && (c <=? 57) = false).
    { unfold Py.c_space in Hc. apply andb_false_iff.
      destruct (Z.leb_spec 48 c); [|now left]. right. apply Z.leb_gt.
      apply orb_true_iff in Hc. destruct Hc as [Hc | Hc].
      - apply andb_true_iff in Hc. destruct Hc as [_ Hc]. apply Z.leb_le in Hc. lia.
      - apply Z.eqb_eq in Hc. lia. }
    assert (Hnu : (c =? 95) = false).
    { unfold Py.c_space in Hc. apply Z.eqb_neq.
      apply orb_true_iff in Hc. destruct Hc as [Hc | Hc].
      - apply andb_true_iff in Hc. destruct Hc as [_ Hc]. apply Z.leb_le in Hc. lia.
      - apply Z.eqb_eq in Hc. lia. }
    now rewrite Hnd, Hnu.
  - change (joined (map (map (Z.add 48)) ((d :: vs) :: vs' :: values)))
      with (map (Z.add 48) (d :: vs)
            ++ 95 :: joined (map (map (Z.add 48)) (vs' :: values))).
    rewrite <- app_assoc.
    rewrite (scan_group vs Hvs' d _ acc count false Hd).
    change ((95 :: joined (map (map (Z.add 48)) (vs' :: values))) ++ rest)
      with (95 :: (joined (map (map (Z.add 48)) (vs' :: values)) ++ rest)).
    cbn [Py.scan_digits]. change ((48 <=? 95) && (95 <=? 57)) with false.
    change (95 =? 95) with true. cbn iota.
    rewrite (IH ltac:(discriminate) rest _ _ Hsp).
    cbn [List.concat]. rewrite !fold_left_app, !length_app, !Nat.add_assoc. reflexivity.
Qed.

Lemma skip_spaces_app (a b : list Z) :
  forallb Py.c_space a = true -> Py.skip_spaces (a ++ b) = Py.skip_spaces b.
Proof.
  induction a as [|c a IH]; intros H; [reflexivity|].
  cbn [forallb] in H. apply andb_true_iff in H. destruct H as [Hc Ha].
  simpl. rewrite Hc. now apply IH.
Qed.

(** Every literal is read as the integer it spells. *)
Lemma int_of_str_reads (s : string) (n : Z) :
  int_literal (Py.code_points s) n -> Py.int_of_str s = Some n.
Proof.
  intros [lead [sign [groups [values [trail
            [Hs [Hlead [Htrail [Hsign [Hne [Hg [Hlen Hn]]]]]]]]]]]].
  destruct (int_chars_blanks _ Hlead) as [lead' [Hl1 Hl2]].
  destruct (int_chars_blanks _ Htrail) as [trail' [Ht1 Ht2]].
  destruct (int_chars_joined _ _ Hg) as [Hj Hv].
  assert (Hvne : values <> []).
  { intros ->. inversion Hg; subst. contradiction. }
  assert (Hsg : Py.int_chars sign = Some sign)
    by (destruct Hsign as [-> | [-> | ->]]; reflexivity).
  unfold Py.int_of_str.
  rewrite Hs, !int_chars_app, Hl1, Hsg, Hj, Ht1.
  rewrite (skip_spaces_app _ _ Hl2).
  pose proof (scan_joined values Hv Hvne trail' 0 0%nat Ht2) as Hscan.
  assert (Hdig : forall sg, Py.int_of_digits sg
                   (joined (map (map (Z.add 48)) values) ++ trail')
                 = Some (sg * decimal_value (List.concat values))).
  { intros sg. unfold Py.int_of_digits. rewrite Hscan, Ht2.
    replace (0 + List.length (List.concat values) <=? Py.max_str_digits)%nat with true
      by (symmetry; apply Nat.leb_le; unfold Py.max_str_digits; lia).
    reflexivity. }
  destruct Hsign as [-> | [-> | ->]]; subst n.
  - (* no sign: the literal opens with a digit *)
    cbn [app].
    destruct values as [|[|d vs] values]; [contradiction| |].
    { inversion Hv as [|? ? [Hbad _]]; subst. contradiction. }
    inversion Hv as [|? ? [_ Hd] _]; subst. inversion Hd as [|? ? Hd0 _]; subst.
    rewrite <- (Hdig 1).
    assert (Hopen : exists tl, joined (map (map (Z.add 48)) ((d :: vs) :: values)) ++ trail'
                               = (48 + d) :: tl).
    { destruct values; simpl; eexists; reflexivity. }
    destruct Hopen as [tl Ho]. rewrite Ho.
    assert (Hc : Py.c_space (48 + d) = false).
    { unfold Py.c_space. apply orb_false_iff. split.
      - apply andb_false_iff. right. apply Z.leb_gt. lia.
      - apply Z.eqb_neq. lia. }
    cbn [Py.skip_spaces]. rewrite Hc.
    assert (Hd' : 48 + d = 48 \/ 48 + d = 49 \/ 48 + d = 50 \/ 48 + d = 51
                  \/ 48 + d = 52 \/ 48 + d = 53 \/ 48 + d = 54 \/ 48 + d = 55
                  \/ 48 + d = 56 \/ 48 + d = 57) by lia.
    destruct Hd' as [-> | [-> | [-> | [-> | [-> | [-> | [-> | [-> | [-> | ->]]]]]]]]];
      reflexivity.
  - cbn [app Py.skip_spaces]. change (Py.c_space 43) with false. cbn iota.
    exact (Hdig 1).
  - cbn [app Py.skip_spaces]. change (Py.c_space 45) with false. cbn iota.
    exact (Hdig (-1)).
Qed.

(** *** [int] of a text reads nothing but literals *)

Lemma int_chars_each (cps l : list Z) :
  Py.int_chars cps = Some l ->
  Forall2 (fun cp c => Py.int_char cp = Some c) cps l.
Proof.
  revert l. induction cps as [|cp cps IH]; intros l H; simpl in H.
  - inversion H. constructor.
  - destruct (Py.int_char cp) as [c|] eqn:Hc; [|discriminate].
    destruct (Py.int_chars cps) as [l'|]; [|discriminate].
    inversion H; subst. constructor; [exact Hc|now apply IH].
Qed.

Lemma int_char_blank (cp c : Z) :
  Py.int_char cp = Some c -> Py.c_space c = true -> int_blank cp.
Proof.
  unfold Py.int_char, int_blank, Py.c_space. intros H Hs.
  destruct (Z.ltb_spec cp 127) as [Hlt|Hge].
  - inversion H; subst c.
    apply orb_true_iff in Hs. destruct Hs as [Hs|Hs].
    + apply andb_true_iff in Hs. destruct Hs as [H1 H2].
      apply Z.leb_le in H1. apply Z.leb_le in H2. left. lia.
    + apply Z.eqb_eq in Hs. right. left. exact Hs.
  - destruct (Py.is_unicode_space cp) eqn:Hu; [right; right; split; [lia|reflexivity]|].
    destruct (Py.decimal cp) as [d|] eqn:Hd; [|discriminate].
    destruct (decimal_is_no_space _ _ Hd) as [_ Hr].
    cbn [option_map] in H. assert (Hc : c = 48 + d) by congruence.
    subst c. clear H. exfalso.
    apply orb_true_iff in Hs. destruct Hs as [Hs|Hs].
    + apply andb_true_iff in Hs. destruct Hs as [_ H2]. apply Z.leb_le in H2. lia.
    + apply Z.eqb_eq in Hs. lia.
Qed.

Lemma int_char_blanks (cps l : list Z) :
  Forall2 (fun cp c => Py.int_char cp = Some c) cps l ->
  forallb Py.c_space l = true -> Forall int_blank cps.
Proof.
  induction 1 as [|cp c cps l Hc _ IH]; intros Hs; [constructor|].
  cbn [forallb] in Hs. apply andb_true_iff in Hs. destruct Hs as [H1 H2].
  constructor; [exact (int_char_blank _ _ Hc H1)|exact (IH H2)].
Qed.

(** A character read as an ASCII character below 127 other than a blank or a
    digit is that character. *)
Lemma int_char_plain (cp c : Z) :
  Py.int_char cp = Some c -> c <> 32 -> ~ 48 <= c <= 57 -> cp = c.
Proof.
  unfold Py.int_char. intros H H32 Hd.
  destruct (cp <? 127); [congruence|].
  destruct (Py.is_unicode_space cp); [congruence|].
  destruct (Py.decimal cp) as [d|] eqn:E; [|discriminate].
  destruct (decimal_is_no_space _ _ E) as [_ Hr].
  cbn [option_map] in H. assert (Hc : c = 48 + d) by congruence. lia.
Qed.

Lemma int_char_is_digit (cp d : Z) :
  Py.int_char cp = Some (48 + d) -> 0 <= d <= 9 -> digit_of cp d.
Proof.
  unfold Py.int_char, digit_of. intros H Hd.
  destruct (Z.ltb_spec cp 127) as [Hlt|Hge].
  - assert (Hc : cp = 48 + d) by congruence. left. lia.
  - destruct (Py.is_unicode_space cp);
      [assert (Hc : 32 = 48 + d) by congruence; lia|].
    destruct (Py.decimal cp) as [d'|] eqn:E; [|discriminate].
    cbn [option_map] in H. assert (Hc : 48 + d' = 48 + d) by congruence.
    right. split; [lia|]. f_equal. lia.
Qed.

Lemma int_char_digits (cps vs : list Z) :
  Forall2 (fun cp c => Py.int_char cp = Some c) cps (map (Z.add 48) vs) ->
  Forall (fun d => 0 <= d <= 9) vs -> Forall2 digit_of cps vs.
Proof.
  revert cps. induction vs as [|d vs IH]; intros cps H Hd; inversion H; subst.
  - constructor.
  - inversion Hd; subst. constructor; [now apply int_char_is_digit|now apply IH].
Qed.

Lemma skip_spaces_split (l : list Z) :
  exists lead,
    l = lead ++ Py.skip_spaces l /\ forallb Py.c_space lead = true.
Proof.
  induction l as [|c l [lead [Hl Hs]]]; [now exists []|].
  cbn [Py.skip_spaces]. destruct (Py.c_space c) eqn:Hc.
  - exists (c :: lead). cbn [app forallb]. rewrite Hc, Hs. split; [now f_equal|reflexivity].
  - now exists [].
Qed.

(** What [scan_digits] has read when it returns: the rest of a group of
    digits, then further groups, each after one underscore. *)
Lemma scan_digits_shape (l : list Z) :
  forall acc count after value count' rest,
    Py.scan_digits l acc count after = Some (value, count', rest) ->
    exists cur groups,
      Forall (fun d => 0 <= d <= 9) cur
      /\ Forall (fun vs => vs <> [] /\ Forall (fun d => 0 <= d <= 9) vs) groups
      /\ (after = false -> cur <> [])
      /\ l = map (Z.add 48) cur
             ++ flat_map (fun vs => 95 :: map (Z.add 48) vs) groups ++ rest
      /\ value = fold_left (fun a x => 10 * a + x) (cur ++ List.concat groups) acc
      /\ count' = (count + List.length (cur ++ List.concat groups))%nat.
Proof.
  induction l as [|c l IH]; intros acc count after value count' rest H.
  - cbn [Py.scan_digits] in H. destruct after; [|discriminate].
    inversion H; subst. exists [], [].
    repeat split; try constructor; try discriminate. simpl. lia.
  - cbn [Py.scan_digits] in H.
    destruct ((48 <=? c) && (c <=? 57)) eqn:Hd.
    + apply andb_true_iff in Hd. destruct Hd as [H1 H2].
      apply Z.leb_le in H1. apply Z.leb_le in H2.
      destruct (IH _ _ _ _ _ _ H) as [cur [groups [Hc [Hg [_ [Hl [Hv Hn]]]]]]].
      exists ((c - 48) :: cur), groups.
      split; [constructor; [lia|exact Hc]|]. split; [exact Hg|].
      split; [discriminate|].
      split; [cbn [map app]; rewrite Hl; f_equal; lia|].
      split; [exact Hv|]. cbn [app List.length]. rewrite Hn. cbn [app List.length]. lia.
    + destruct (c =? 95) eqn:Hu.
      * apply Z.eqb_eq in Hu. subst c.
        destruct after; [|discriminate].
        destruct (IH _ _ _ _ _ _ H) as [cur [groups [Hc [Hg [Hne [Hl [Hv Hn]]]]]]].
        exists [], (cur :: groups).
        split; [constructor|].
        split; [constructor; [split; [now apply Hne|exact Hc]|exact Hg]|].
        split; [discriminate|].
        split; [cbn [map app flat_map]; rewrite Hl, <- app_assoc; reflexivity|].
        split; [exact Hv|exact Hn].
      * destruct after; [|discriminate].
        inversion H; subst. exists [], [].
        repeat split; try constructor; try discriminate. simpl. lia.
Qed.

Lemma joined_flat_map (g : list Z) (groups : list (list Z)) :
  joined (g :: groups) = g ++ flat_map (fun vs => 95 :: vs) groups.
Proof.
  revert g. induction groups as [|g' groups IH]; intros g.
  - simpl. now rewrite app_nil_r.
  - change (joined (g :: g' :: groups)) with (g ++ 95 :: joined (g' :: groups)).
    now rewrite IH.
Qed.

(** The code points behind the groups that were read. *)
Lemma int_char_groups (groups : list (list Z)) :
  Forall (fun vs => vs <> [] /\ Forall (fun d => 0 <= d <= 9) vs) groups ->
  forall cps,
    Forall2 (fun cp c => Py.int_char cp = Some c) cps
            (flat_map (fun vs => 95 :: map (Z.add 48) vs) groups) ->
    exists gs,
      cps = flat_map (fun g => 95 :: g) gs
      /\ Forall2 (fun g vs => g <> [] /\ Forall2 digit_of g vs) gs groups.
Proof.
  induction 1 as [|vs groups [Hne Hvs] _ IH]; intros cps H.
  - inversion H; subst. exists []. split; [reflexivity|constructor].
  - cbn [flat_map] in H. change ((95 :: map (Z.add 48) vs) ++ ?x)
      with (95 :: (map (Z.add 48) vs ++ x)) in H.
    inversion H as [|cp c cps' l' Hc Hrest]; subst.
    apply Forall2_app_inv_r in Hrest.
    destruct Hrest as [g [tl [Hg [Htl ->]]]].
    destruct (IH _ Htl) as [gs [-> Hgs]].
    assert (cp = 95) by (apply (int_char_plain _ _ Hc); lia). subst cp.
    exists (g :: gs). split; [reflexivity|].
    constructor; [|exact Hgs].
    pose proof (int_char_digits _ _ Hg Hvs) as Hd.
    split; [|exact Hd]. intros ->. inversion Hd; subst. contradiction.
Qed.

(** Whatever [int] reads as an integer spells the literal of that integer. *)
Lemma int_of_str_spells (s : string) (n : Z) :
  Py.int_of_str s = Some n -> int_literal (Py.code_points s) n.
Proof.
  unfold Py.int_of_str. intros H.
  destruct (Py.int_chars (Py.code_points s)) as [l|] eqn:Hl; [|discriminate].
  apply int_chars_each in Hl.
  destruct (skip_spaces_split l) as [lead' [Hsplit Hlead]].
  assert (Hbody : exists sign' body,
             Py.skip_spaces l = sign' ++ body
             /\ (sign' = [] \/ sign' = [43] \/ sign' = [45])
             /\ Py.int_of_digits (match sign' with [45] => -1 | _ => 1 end) body = Some n).
  { destruct (Py.skip_spaces l) as [|c r] eqn:E.
    - exists [], []. split; [reflexivity|]. split; [now left|exact H].
    - destruct (Z.eq_dec c 45) as [->|H45].
      + exists [45], r. split; [reflexivity|]. split; [now right; right|exact H].
      + destruct (Z.eq_dec c 43) as [->|H43].
        * exists [43], r. split; [reflexivity|]. split; [now right; left|exact H].
        * exists [], (c :: r). split; [reflexivity|]. split; [now left|].
          cbn iota beta.
          destruct c as [|p|p]; try exact H;
            repeat (destruct p as [p|p|]; try exact H; try contradiction). }
  destruct Hbody as [sign' [body [Hskip [Hsign Hdig]]]].
  unfold Py.int_of_digits in Hdig.
  destruct (Py.scan_digits body 0 0 false) as [[[value count] trail']|] eqn:Hscan;
    [|discriminate].
  destruct ((count <=? Py.max_str_digits)%nat && forallb Py.c_space trail') eqn:Hok;
    [|discriminate].
  apply andb_true_iff in Hok. destruct Hok as [Hcount Htrail].
  apply Nat.leb_le in Hcount. inversion Hdig; subst n; clear Hdig.
  destruct (scan_digits_shape _ _ _ _ _ _ _ Hscan)
    as [cur [groups [Hcur [Hgroups [Hne [Hb [Hv Hn]]]]]]].
  specialize (Hne eq_refl).
  rewrite Hsplit, Hskip, Hb in Hl.
  apply Forall2_app_inv_r in Hl. destruct Hl as [lead [r1 [Hl1 [Hl2 Hcps]]]].
  apply Forall2_app_inv_r in Hl2. destruct Hl2 as [sign [r2 [Hs1 [Hs2 ->]]]].
  apply Forall2_app_inv_r in Hs2. destruct Hs2 as [g [r3 [Hg [Hr3 ->]]]].
  apply Forall2_app_inv_r in Hr3. destruct Hr3 as [gs [trail [Hgs [Ht ->]]]].
  destruct (int_char_groups _ Hgroups _ Hgs) as [gs' [-> Hgs']].
  pose proof (int_char_digits _ _ Hg Hcur) as Hgd.
  assert (Hsg : sign = sign').
  { destruct Hsign as [-> | [-> | ->]]; inversion Hs1 as [|cp c ? ? Hc Hnil]; subst;
      try reflexivity; inversion Hnil; subst;
      rewrite (int_char_plain _ _ Hc); try reflexivity; lia. }
  subst sign'.
  exists lead, sign, (g :: gs'), (cur :: groups), trail.
  split; [rewrite Hcps, joined_flat_map, <- !app_assoc; reflexivity|].
  split; [exact (int_char_blanks _ _ Hl1 Hlead)|].
  split; [exact (int_char_blanks _ _ Ht Htrail)|].
  split; [exact Hsign|]. split; [discriminate|].
  split.
  { constructor; [|exact Hgs']. split; [|exact Hgd].
    intros ->. inversion Hgd; subst. contradiction. }
  cbn [List.concat]. unfold Py.max_str_digits in Hcount.
  split; [lia|]. unfold decimal_value. now rewrite Hv.
Qed.

Lemma trunc_truncates (neg : bool) (m : N) (e : Z) :
  truncates neg m e (Json.trunc neg m e).
Proof.
  unfold truncates, Json.trunc.
  destruct (0 <=? e) eqn:He.
  - exists (Z.of_N m * 2 ^ e). apply Z.leb_le in He.
    split; [apply Z.mul_nonneg_nonneg; [lia|apply Z.pow_nonneg; lia]|].
    split; reflexivity.
  - apply Z.leb_gt in He.
    assert (Hp : 0 < 2 ^ (- e)) by (apply Z.pow_pos_nonneg; lia).
    exists (Z.of_N m / 2 ^ (- e)).
    split; [apply Z.div_pos; lia|]. split; [reflexivity|].
    pose proof (Z.mul_div_le (Z.of_N m) _ Hp).
    pose proof (Z.mul_succ_div_gt (Z.of_N m) _ Hp).
    lia.
Qed.

Lemma trunc_unique (neg : bool) (m : N) (e : Z) (n : Z) :
  truncates neg m e n -> Json.trunc neg m e = n.
Proof.
  intros [a [Ha [-> Hb]]]. unfold Json.trunc.
  destruct (0 <=? e) eqn:He.
  - now rewrite Hb.
  - apply Z.leb_gt in He.
    assert (Hp : 0 < 2 ^ (- e)) by (apply Z.pow_pos_nonneg; lia).
    replace (Z.of_N m / 2 ^ (- e)) with a; [reflexivity|].
    apply (Z.div_unique_pos _ _ a (Z.of_N m - a * 2 ^ (- e))); lia.
Qed.

(** The model's [int] returns exactly what [int] converts. *)
Lemma converts_py_int (v : Json.value) (n : Z) :
  converts v n -> py_int v = Returns n.
Proof.
  intros [n0 | b | neg m e n0 Ht | s n0 Hl]; simpl; try reflexivity.
  - now rewrite (trunc_unique _ _ _ _ Ht).
  - now rewrite (int_of_str_reads _ _ Hl).
Qed.

Lemma py_int_converts (v : Json.value) (n : Z) :
  py_int v = Returns n -> converts v n.
Proof.
  destruct v as [|b|n0|[| |neg m e]|s|l|d]; simpl; intros H; try discriminate.
  - inversion H. constructor.
  - inversion H. constructor.
  - inversion H. constructor. apply trunc_truncates.
  - destruct (Py.int_of_str s) as [n0|] eqn:E; [|discriminate].
    inversion H; subst. constructor. now apply int_of_str_spells.
Qed.

Lemma get_set_here (d : Json.dict) (k : string) (v : Json.value) :
  Json.get (Json.set d k v) k = Some v.
Proof.
  induction d as [|[k0 v0] d IH]; simpl; [now rewrite String.eqb_refl|].
  destruct (String.eqb k0 k) eqn:E; simpl.
  - now rewrite String.eqb_refl.
  - now rewrite E.
Qed.

(** C10. The coercion is Python's [int].  On every payload that is otherwise
    valid, a satisfaction that [int] converts to a value in 0..100 is
    accepted with that value, whatever its type: an integer, a boolean, a
    finite float (cut off towards zero) or the text of a decimal literal.  A
    payload is not accepted only when [int] converts its satisfaction to no
    value in 0..100.  So the float 95.7 is accepted as 95 and the boolean
    true as 1, while the string "95.5", null and a list, which [int] does
    not convert, are rejected with the coercion error.  And a payload is
    accepted with no other value than the one [int] converts. *)
Theorem validator_coercion_is_python_int
    (text : string) (d : Json.dict) (v : Json.value) :
  Json.loads text = Some (JObj d) ->
  well_typed d ->
  Json.get d "satisfaction" = Some v ->
  (forall n, converts v n -> 0 <= n <= 100 -> _parse_output text = accepted d n)
  /\ ((forall d', _parse_output text <> Returns {| data := Some d'; error := None |}) ->
      forall n, converts v n -> n < 0 \/ 100 < n)
  /\ (v = JFloat f95_7 -> converts v 95 /\ _parse_output text = accepted d 95)
  /\ (v = JBool true -> converts v 1 /\ _parse_output text = accepted d 1)
  /\ (v = JStr "95.5" \/ v = JNull \/ (exists l, v = JArr l) ->
      (forall n, ~ converts v n)
      /\ _parse_output text =
           Returns {| data := None; error := Some "satisfaction must be int 0-100." |})
  /\ Json.loads "95.7" = Some (JFloat f95_7)
  /\ (forall n, _parse_output text = accepted d n -> converts v n /\ 0 <= n <= 100).
Proof.
  intros Hl Hw Hs.
  assert (Hacc : forall n, converts v n -> 0 <= n <= 100 ->
                           _parse_output text = accepted d n).
  { intros n Hc Hn.
    exact (parse_output_in_range _ _ _ _ Hl Hw Hs (converts_py_int _ _ Hc) Hn). }
  split; [exact Hacc|split; [|split; [|split; [|split; [|split]]]]].
  6:{ intros n H. rewrite (parse_output_by_int _ _ _ Hl Hw Hs) in H.
      destruct (py_int v) as [n0|e] eqn:Hi; [|destruct e; discriminate].
      destruct ((n0 <? 0) || (100 <? n0)) eqn:Hr; [discriminate|].
      apply orb_false_iff in Hr. destruct Hr as [H1 H2].
      apply Z.ltb_ge in H1. apply Z.ltb_ge in H2.
      assert (Hn : n0 = n).
      { unfold accepted in H. injection H as H.
        apply (f_equal (fun x => Json.get x "satisfaction")) in H.
        rewrite !get_set_here in H. congruence. }
      subst n0. split; [now apply py_int_converts|lia]. }
  - intros Hno n Hc.
    destruct (Z_lt_dec n 0) as [|Hlo]; [left; assumption|].
    destruct (Z_lt_dec 100 n) as [|Hhi]; [right; assumption|].
    exfalso. apply (Hno (Json.set d "satisfaction" (JInt n))).
    apply (Hacc n Hc). lia.
  - intros ->.
    assert (Hc : converts (JFloat f95_7) 95).
    { constructor. exists 95. split; [lia|]. split; [reflexivity|].
      vm_compute. split; [discriminate|reflexivity]. }
    split; [exact Hc|]. apply (Hacc 95 Hc). lia.
  - intros ->. split; [exact (converts_bool true)|].
    apply (Hacc 1 (converts_bool true)). lia.
  - intros Hv. split.
    + intros n Hc. apply converts_py_int in Hc.
      destruct Hv as [-> | [-> | [l ->]]]; vm_compute in Hc; discriminate.
    + rewrite (parse_output_by_int _ _ _ Hl Hw Hs).
      destruct Hv as [-> | [-> | [l ->]]]; reflexivity.
  - vm_compute. reflexivity.
Qed.

Lemma validator_coercion_is_python_int_witness :
  _parse_output (Samples.answer "95.7" "'a','b'") =
    accepted [("reply_zh_tw", JStr "r"); ("satisfaction", JFloat f95_7);
              ("key_points", JArr [JStr "a"; JStr "b"]);
              ("needs_from_other", JStr "n")] 95
  /\ _parse_output (Samples.answer "true" "'a','b'") =
       accepted [("reply_zh_tw", JStr "r"); ("satisfaction", JBool true);
                 ("key_points", JArr [JStr "a"; JStr "b"]);
                 ("needs_from_other", JStr "n")] 1
  /\ _parse_output (Samples.answer "'95.5'" "'a','b'") =
       Returns {| data := None; error := Some "satisfaction must be int 0-100." |}.
Proof.
  split; [|split].
  - apply (proj1 (proj2 (proj2 (validator_coercion_is_python_int
             (Samples.answer "95.7" "'a','b'") _ (JFloat f95_7)
             eq_refl (sample_well_typed _) eq_refl)))).
    reflexivity.
  - apply (proj1 (proj2 (proj2 (proj2 (validator_coercion_is_python_int
             (Samples.answer "true" "'a','b'") _ (JBool true)
             eq_refl (sample_well_typed _) eq_refl))))).
    reflexivity.
  - apply (proj1 (proj2 (proj2 (proj2 (proj2 (validator_coercion_is_python_int
             (Samples.answer "'95.5'" "'a','b'") _ (JStr "95.5")
             eq_refl (sample_well_typed _) eq_refl)))))).
    left. reflexivity.
Defined.

End ValidatorFacts.

(** ** The streaming client *)
Module ClientFacts.
Import Eff Data Client Props MoreProps.
Import Json.

Lemma append_assoc (a b c : string) : (a +++ b) +++ c = a +++ (b +++ c).
Proof. induction a as [|x a IH]; simpl; [reflexivity|]. now rewrite IH. Qed.

Lemma append_empty (a : string) : a +++ "" = a.
Proof. induction a as [|x a IH]; simpl; [reflexivity|]. now rewrite IH. Qed.

Lemma fragments_app (u : bool) (l1 l2 : list string) :
  fragments u (l1 ++ l2) = fragments u l1 ++ fragments u l2.
Proof. unfold fragments. apply flat_map_app. Qed.

Lemma fragments_nonempty (u : bool) (received : list string) :
  Forall (fun c => c <> "") (fragments u received).
Proof.
  unfold fragments. induction received as [|line rest IH]; simpl; [constructor|].
  apply Forall_app. split; [|exact IH].
  unfold fragment. destruct (Json.loads line) as [data|]; [|constructor].
  destruct (extract_chunk u data) as [[| | | |c| |]|]; try constructor.
  destruct c; simpl; constructor; [discriminate|constructor].
Qed.

Lemma concat_all_app (l1 l2 : list string) :
  concat_all (l1 ++ l2) = concat_all l1 +++ concat_all l2.
Proof.
  induction l1 as [|x l1 IH]; simpl; [reflexivity|].
  rewrite IH. symmetry. apply append_assoc.
Qed.

(** Unfolds one step of a monadic computation applied to a state. *)
Ltac step :=
  unfold bind, lift, ret, raise, on_chunk_call, modify in *; simpl in *.


(** What a stream loop that ends without error has done: the lines it kept
    are appended to the raw lines, their fragments are appended to the text
    and, one call each, handed to the callback. *)
Lemma consume_mirrors (u : bool) (ls : list string) :
  forall full_text raw n full_text' raw' n',
    consume u true ls full_text raw n = Ok (full_text', raw') n' ->
    exists kept,
      raw' = raw ++ kept
      /\ chunks n' = chunks n ++ fragments u kept
      /\ full_text' = full_text +++ concat_all (fragments u kept).
Proof.
  induction ls as [|line0 rest IH]; intros full_text raw n full_text' raw' n' H.
  - inversion H; subst. exists []. simpl.
    now rewrite !app_nil_r, append_empty.
  - cbn [consume] in H.
    destruct (negb (Py.str_truthy line0)); [exact (IH _ _ _ _ _ _ H)|].
    match type of H with
    | context [Json.loads ?l] => set (line := l) in *
    end.
    destruct (_ && String.eqb line "[DONE]").
    { inversion H; subst. exists []. simpl. now rewrite !app_nil_r, append_empty. }
    assert (Hcons : forall ft m frag,
               fragment u line = frag ->
               chunks m = chunks n ++ match frag with Some c => [c] | None => [] end ->
               ft = full_text +++ match frag with Some c => c | None => "" end ->
               consume u true rest ft (raw ++ [line]) m = Ok (full_text', raw') n' ->
               exists kept,
                 raw' = raw ++ kept
                 /\ chunks n' = chunks n ++ fragments u kept
                 /\ full_text' = full_text +++ concat_all (fragments u kept)).
    { intros ft m frag Hf Hc Hft Hrun.
      destruct (IH _ _ _ _ _ _ Hrun) as [kept [-> [Hch ->]]].
      exists (line :: kept). split; [now rewrite <- app_assoc|].
      change (fragments u (line :: kept))
        with (match fragment u line with Some c => [c] | None => [] end
              ++ fragments u kept).
      rewrite Hf. rewrite Hch, Hc, Hft, <- app_assoc. split; [reflexivity|].
      destruct frag; simpl; [now rewrite append_assoc|now rewrite append_empty]. }
    assert (Hstop : forall ft m frag,
               fragment u line = frag ->
               chunks m = chunks n ++ match frag with Some c => [c] | None => [] end ->
               ft = full_text +++ match frag with Some c => c | None => "" end ->
               Ok (ft, raw ++ [line]) m = Ok (full_text', raw') n' ->
               exists kept,
                 raw' = raw ++ kept
                 /\ chunks n' = chunks n ++ fragments u kept
                 /\ full_text' = full_text +++ concat_all (fragments u kept)).
    { intros ft m frag Hf Hc Hft Hrun. inversion Hrun; subst.
      exists [line]. split; [reflexivity|].
      unfold fragments; simpl. rewrite app_nil_r. split; [assumption|].
      destruct (fragment u line); simpl; now rewrite ?append_empty. }
    unfold fragment in Hcons, Hstop.
    destruct (Json.loads line) as [data|].
    2:{ apply (Hcons _ _ None eq_refl) in H; [exact H| now rewrite app_nil_r
                                              | now rewrite append_empty]. }
    step.
    destruct (has_error data) as [[|]|]; try discriminate.
    destruct (extract_chunk u data) as [chunk|]; try discriminate.
    destruct (Json.truthy chunk) eqn:Ht.
    + destruct chunk as [| | | |c| |]; try discriminate.
      simpl in Ht. rewrite Ht in Hcons, Hstop.
      destruct (negb u); simpl in H.
      * destruct (py_get data "done" JNull) as [done|]; simpl in H; [|discriminate].
        destruct (Json.truthy done).
        -- apply (Hstop _ _ (Some c) eq_refl) in H; [exact H|reflexivity|reflexivity].
        -- apply (Hcons _ _ (Some c) eq_refl) in H; [exact H|reflexivity|reflexivity].
      * apply (Hcons _ _ (Some c) eq_refl) in H; [exact H|reflexivity|reflexivity].
    + assert (Hnone : match chunk with
                      | JStr c => if Py.str_truthy c then Some c else None
                      | _ => None
                      end = None).
      { destruct chunk; try reflexivity. simpl in Ht. now rewrite Ht. }
      rewrite Hnone in Hcons, Hstop.
      destruct (negb u); simpl in H.
      * destruct (py_get data "done" JNull) as [done|]; simpl in H; [|discriminate].
        destruct (Json.truthy done).
        -- apply (Hstop _ _ None eq_refl) in H; [exact H| now rewrite app_nil_r
                                                  | now rewrite append_empty].
        -- apply (Hcons _ _ None eq_refl) in H; [exact H| now rewrite app_nil_r
                                                  | now rewrite append_empty].
      * apply (Hcons _ _ None eq_refl) in H; [exact H| now rewrite app_nil_r
                                                | now rewrite append_empty].
Qed.

(** [d.update(o)] leaves a key that [o] lacks as it was. *)
Lemma get_set_other (d : Json.dict) (k k' : string) (v : Json.value) :
  String.eqb k' k = false -> Json.get (Json.set d k' v) k = Json.get d k.
Proof.
  intros Hk. induction d as [|[k0 v0] d IH]; simpl.
  - now rewrite Hk.
  - destruct (String.eqb k0 k') eqn:E; simpl.
    + apply String.eqb_eq in E. subst k0. now rewrite Hk.
    + destruct (String.eqb k0 k); [reflexivity|exact IH].
Qed.

Lemma get_update_lacking (o d : Json.dict) (k : string) :
  Json.mem k o = false -> Json.get (Json.update d o) k = Json.get d k.
Proof.
  unfold Json.update. revert d.
  induction o as [|[k' v'] o IH]; intros d Hk; simpl; [reflexivity|].
  unfold Json.mem in Hk. simpl in Hk.
  destruct (String.eqb k' k) eqn:E; [discriminate|].
  rewrite IH; [|exact Hk]. now apply get_set_other.
Qed.






Lemma extract_chunk_text (u : bool) (data chunk : Json.value) :
  extract_chunk u data = Returns chunk ->
  match record_text u data with
  | Some c => if Py.str_truthy c then [c] else []
  | None => []
  end = match chunk with
        | JStr c => if Py.str_truthy c then [c] else []
        | _ => []
        end.
Proof.
  unfold extract_chunk, record_text, py_get, py_first.
  destruct u, data as [| | | | |items|d]; try discriminate.
  - destruct (Json.get d "choices") as [[| | | |[|c0 s0]|[|[| | | | | |choice] xs]|]|];
      try discriminate.
    + destruct (Json.get choice "delta") as [[| | | | | |delta]|]; try discriminate.
      * destruct (Json.get delta "content") as [w|];
          intros H; inversion H; subst; [now destruct chunk|reflexivity].
      * intros H; inversion H; subst. reflexivity.
    + simpl. intros H; inversion H; subst. reflexivity.
  - destruct (Json.get d "message") as [[| | | | | |message]|]; try discriminate.
    + destruct (Json.get message "content") as [w|];
        intros H; inversion H; subst; [now destruct chunk|reflexivity].
    + simpl. intros H; inversion H; subst. reflexivity.
Qed.

Lemma spoken_cons (u : bool) (line : string) (rest : list string) :
  spoken u (line :: rest) =
    if ends_stream u line
    then (if u then [] else line_fragment u line)
    else line_fragment u line ++ spoken u rest.
Proof.
  unfold spoken. cbn [arrived].
  destruct (ends_stream u line); [|reflexivity].
  destruct u; simpl; [reflexivity|apply app_nil_r].
Qed.

Lemma spoken_nonempty (u : bool) (received : list string) :
  Forall (fun c => c <> "") (spoken u received).
Proof.
  unfold spoken. induction (arrived u received) as [|line rest IH]; simpl; [constructor|].
  apply Forall_app. split; [|exact IH].
  unfold line_fragment. destruct (Json.loads _) as [data|]; [|constructor].
  destruct (record_text u data) as [[|c0 c]|]; simpl; repeat constructor. discriminate.
Qed.

(** The stream loop hands the callback the fragments of the lines that
    arrive, and returns them put end to end. *)
Lemma consume_reads (u : bool) (ls : list string) :
  forall full_text raw n full_text' raw' n',
    consume u true ls full_text raw n = Ok (full_text', raw') n' ->
    chunks n' = chunks n ++ spoken u ls
    /\ full_text' = full_text +++ concat_all (spoken u ls).
Proof.
  induction ls as [|line0 rest IH]; intros full_text raw n full_text' raw' n' H.
  - inversion H; subst. simpl. now rewrite app_nil_r, append_empty.
  - cbn [consume] in H. rewrite spoken_cons.
    destruct (Py.str_truthy line0) eqn:Hl; cbn [negb] in H.
    2:{ destruct line0; [|discriminate].
        replace (ends_stream u "") with false by (destruct u; reflexivity).
        replace (line_fragment u "") with (@nil string) by (destruct u; reflexivity).
        exact (IH _ _ _ _ _ _ H). }
    assert (Hline : (if u && Py.startswith line0 "data:"
                     then Py.strip (Py.drop 5 line0) else line0) = normal u line0)
      by reflexivity.
    assert (Hsent : u && Py.startswith line0 "data:"
                    && String.eqb (normal u line0) "[DONE]" = false ->
                    u = true -> ends_stream u line0 = false).
    { intros Hs ->. unfold ends_stream, normal in *. cbn [andb] in *.
      destruct (Py.startswith line0 "data:"); [exact Hs|reflexivity]. }
    rewrite Hline in H.
    destruct (u && Py.startswith line0 "data:" && String.eqb (normal u line0) "[DONE]")
      eqn:Hdone.
    { assert (Hu : u = true) by (destruct u; [reflexivity|discriminate]).
      assert (He : ends_stream u line0 = true).
      { subst u. unfold ends_stream. cbn [andb] in Hdone.
        apply andb_true_iff in Hdone. destruct Hdone as [Hp Hd].
        unfold normal in Hd. cbn [andb] in Hd. rewrite Hp in Hd. now rewrite Hp, Hd. }
      rewrite He, Hu. inversion H; subst. simpl.
      now rewrite app_nil_r, append_empty. }
    unfold line_fragment.
    destruct (Json.loads (normal u line0)) as [data|] eqn:Hj.
    2:{ assert (He : ends_stream u line0 = false).
        { destruct u; [now apply Hsent|].
          unfold ends_stream. unfold normal in Hj. cbn [andb] in Hj. now rewrite Hj. }
        rewrite He. exact (IH _ _ _ _ _ _ H). }
    step.
    destruct (has_error data) as [[|]|]; try discriminate.
    destruct (extract_chunk u data) as [chunk|] eqn:Hx; try discriminate.
    rewrite (extract_chunk_text _ _ _ Hx).
    assert (Hgo : forall ft m frag,
               chunks m = chunks n ++ frag ->
               ft = full_text +++ concat_all frag ->
               consume u true rest ft (raw ++ [normal u line0]) m
                 = Ok (full_text', raw') n' ->
               chunks n' = chunks n ++ frag ++ spoken u rest
               /\ full_text' = full_text +++ concat_all (frag ++ spoken u rest)).
    { intros ft m frag Hc Hft Hrun.
      destruct (IH _ _ _ _ _ _ Hrun) as [-> ->].
      rewrite Hc, Hft, <- app_assoc, concat_all_app, append_assoc. split; reflexivity. }
    assert (Hstop : forall ft m frag,
               chunks m = chunks n ++ frag ->
               ft = full_text +++ concat_all frag ->
               Ok (ft, raw ++ [normal u line0]) m = Ok (full_text', raw') n' ->
               chunks n' = chunks n ++ frag
               /\ full_text' = full_text +++ concat_all frag).
    { intros ft m frag Hc Hft Hrun. inversion Hrun; subst.
      split; [assumption|reflexivity]. }
    assert (Hend : ends_stream u line0 =
                   if u then false
                   else match data with
                        | JObj d =>
                            match Json.get d "done" with
                            | Some flag => Json.truthy flag
                            | None => false
                            end
                        | _ => false
                        end).
    { destruct u; [now apply Hsent|].
      unfold ends_stream. unfold normal in Hj. cbn [andb] in Hj. now rewrite Hj. }
    rewrite Hend. clear Hend Hsent.
    destruct (Json.truthy chunk) eqn:Ht.
    + destruct chunk as [| | | |c| |]; try discriminate.
      simpl in Ht. rewrite Ht.
      destruct u; simpl in H.
      * apply (Hgo _ _ [c]) in H;
          [exact H|reflexivity|simpl; now rewrite append_empty].
      * destruct data as [| | | | | |d]; simpl in H; try discriminate.
        destruct (Json.get d "done") as [flag|]; simpl in H.
        -- destruct (Json.truthy flag).
           ++ apply (Hstop _ _ [c]) in H;
                [exact H|reflexivity|simpl; now rewrite append_empty].
           ++ apply (Hgo _ _ [c]) in H;
                [exact H|reflexivity|simpl; now rewrite append_empty].
        -- apply (Hgo _ _ [c]) in H;
             [exact H|reflexivity|simpl; now rewrite append_empty].
    + assert (Hnone : match chunk with
                      | JStr c => if Py.str_truthy c then [c] else []
                      | _ => []
                      end = []).
      { destruct chunk; try reflexivity. simpl in Ht. now rewrite Ht. }
      rewrite Hnone.
      destruct u; simpl in H.
      * apply (Hgo _ _ []) in H;
          [exact H|now rewrite app_nil_r|simpl; now rewrite append_empty].
      * destruct data as [| | | | | |d]; simpl in H; try discriminate.
        destruct (Json.get d "done") as [flag|]; simpl in H.
        -- destruct (Json.truthy flag).
           ++ apply (Hstop _ _ []) in H;
                [exact H|now rewrite app_nil_r|simpl; now rewrite append_empty].
           ++ apply (Hgo _ _ []) in H;
                [exact H|now rewrite app_nil_r|simpl; now rewrite append_empty].
        -- apply (Hgo _ _ []) in H;
             [exact H|now rewrite app_nil_r|simpl; now rewrite append_empty].
Qed.

(** C8. In a chat call that returns, the callback has been called exactly
    once for each non-empty text fragment of the lines that arrived on the
    response read (the fallback's after a 404, else the primary's), in the
    order of arrival, and these fragments put end to end are the text the
    call returns.  The fragments are those of the wire format, read off the
    response lines. *)
Theorem chat_callback_mirrors_text
    (self : OllamaClient) (messages : list Message) (options : option Json.dict)
    (n n' : Net) (full_text : string) (raw : list string) :
  chat self messages true options n = Ok (full_text, raw) n' ->
  exists response,
    streamed n = Some response
    /\ chunks n' = chunks n ++ spoken (answered_404 n) (lines response)
    /\ Forall (fun c => c <> "") (spoken (answered_404 n) (lines response))
    /\ concat_all (spoken (answered_404 n) (lines response)) = full_text.
Proof.
  intros H. unfold streamed, answered_404.
  unfold chat, bind, post in H.
  destruct (replies n) as [|[r1|] rest]; try discriminate.
  simpl in H. destruct (status_code r1 =? 404); simpl in H.
  - destruct rest as [|[r2|] rest']; try discriminate. simpl in H.
    unfold raise_for_status, ret, raise in H.
    destruct (is_error_status (status_code r2)); [discriminate|].
    apply consume_reads in H. destruct H as [Hc Ht]. simpl in Hc, Ht.
    exists r2. split; [reflexivity|]. split; [exact Hc|].
    split; [apply spoken_nonempty|now rewrite Ht].
  - unfold raise_for_status, ret, raise in H.
    destruct (is_error_status (status_code r1)); [discriminate|].
    apply consume_reads in H. destruct H as [Hc Ht]. simpl in Hc, Ht.
    exists r1. split; [reflexivity|]. split; [exact Hc|].
    split; [apply spoken_nonempty|now rewrite Ht].
Qed.

Lemma chat_callback_mirrors_text_witness :
  let self := init "http://h:1/" "m" 120 in
  let messages := [ {| role := "user"; content := "hi" |} ] in
  let stream := [Samples.q "{'message':{'content':'He'}}"; "";
                 "garbage";
                 Samples.q "{'message':{'content':''}}";
                 Samples.q "{'message':{'content':'llo'},'done':true}";
                 Samples.q "{'message':{'content':'never'}}"] in
  let n := {| replies := [Answer {| status_code := 200; lines := stream |}];
              sent := []; chunks := [] |} in
  chunks (final_state (chat self messages true None n)) = ["He"; "llo"]
  /\ result_of (chat self messages true None n)
     = Returns ("Hello", [Samples.q "{'message':{'content':'He'}}"; "garbage";
                          Samples.q "{'message':{'content':''}}";
                          Samples.q "{'message':{'content':'llo'},'done':true}"]).
Proof.
  cbv zeta.
  set (n := {| replies := _; sent := []; chunks := [] |}).
  set (self := init _ _ _).
  set (messages := [ _ ]).
  assert (Hrun : chat self messages true None n =
                 Ok ("Hello", [Samples.q "{'message':{'content':'He'}}"; "garbage";
                               Samples.q "{'message':{'content':''}}";
                               Samples.q "{'message':{'content':'llo'},'done':true}"])
                    (final_state (chat self messages true None n)))
    by (vm_compute; reflexivity).
  destruct (chat_callback_mirrors_text self messages None n _ _ _ Hrun)
    as [response [Hs [Hc _]]].
  split.
  - rewrite Hc. vm_compute in Hs. inversion Hs; subst response.
    vm_compute. reflexivity.
  - rewrite Hrun. reflexivity.
Defined.

End ClientFacts.

(** ** The agent turn *)
Module TurnFacts.
Import Eff Data Orchestrator Props.
Import Json.

Lemma get_set_same (d : Json.dict) (k : string) (v : Json.value) :
  Json.get (Json.set d k v) k = Some v.
Proof.
  induction d as [|[k0 v0] d IH]; simpl.
  - now rewrite String.eqb_refl.
  - destruct (String.eqb k0 k) eqn:E; simpl.
    + now rewrite String.eqb_refl.
    + now rewrite E.
Qed.

(** The validator either returns a record with an integer satisfaction in
    range and no error, or no record and a non-empty error text. *)
Lemma parse_output_cases (text : string) (pr : ParseResult) :
  _parse_output text = Returns pr ->
  (exists d n, pr = {| data := Some (Json.set d "satisfaction" (JInt n)); error := None |}
               /\ 0 <= n <= 100)
  \/ (data pr = None /\ opt_truthy (error pr) = true).
Proof.
  unfold _parse_output, fail.
  destruct (Json.loads text) as [[| | | | | |d]|];
    try (intros H; inversion H; subst; right; split; reflexivity).
  destruct (missing_key required d) as [key|].
  { intros H; inversion H; subst; right; split; reflexivity. }
  destruct (negb (is_str_at d "reply_zh_tw")).
  { intros H; inversion H; subst; right; split; reflexivity. }
  destruct (negb (is_str_at d "needs_from_other")).
  { intros H; inversion H; subst; right; split; reflexivity. }
  destruct (negb (is_str_list_at d "key_points")).
  { intros H; inversion H; subst; right; split; reflexivity. }
  destruct (Json.get d "satisfaction") as [v|]; [|discriminate].
  destruct (py_int v) as [n|[]]; try discriminate;
    try (intros H; inversion H; subst; right; split; reflexivity).
  destruct (n <? 0) eqn:Hlo; simpl.
  { intros H; inversion H; subst; right; split; reflexivity. }
  destruct (100 <? n) eqn:Hhi; simpl.
  { intros H; inversion H; subst; right; split; reflexivity. }
  intros H; inversion H; subst. left. exists d, n. split; [reflexivity|].
  apply Z.ltb_ge in Hlo. apply Z.ltb_ge in Hhi. lia.
Qed.

(** An entry built from a validator result is valid exactly when it carries
    a satisfaction, which then lies in 0..100. *)
Lemma make_entry_valid (turn : Z) (agent : Agents.AgentConfig) (attempt : Z)
    (out : string) (raw : list string) (pr : ParseResult) :
  _parse_output out = Returns pr ->
  let e := make_entry turn agent attempt out raw pr in
  (valid e = true -> exists n, satisfaction e = Some n /\ 0 <= n <= 100)
  /\ (valid e = false -> satisfaction e = None).
Proof.
  intros H. destruct (parse_output_cases _ _ H) as [[d [n [-> Hn]]]|[Hd He]];
    unfold valid; simpl.
  - split; [|discriminate]. intros _. exists n. split; [|exact Hn].
    unfold int_at. now rewrite get_set_same.
  - rewrite He, Hd. split; [discriminate|reflexivity].
Qed.

(** One attempt, case by case on the reply of the model server. *)
Lemma attempt_once_cases (cfg : Config) (turn : Z) (agent : Agents.AgentConfig)
    (attempt : Z) (st : State) :
  attempt_once cfg turn agent attempt st =
    match script st with
    | [] => Err TransportError (after_chat cfg agent attempt st)
    | Failed x :: _ => Err x (after_chat cfg agent attempt st)
    | Replied out raw :: _ =>
        match _parse_output out with
        | Raises x => Err x (after_chat cfg agent attempt st)
        | Returns pr =>
            let e := make_entry turn agent attempt out raw pr in
            Ok e {| transcript := transcript st ++ [e];
                    context := context st ++ (if goes_to_context e then [e] else []);
                    script := tl (script st);
                    prompts := prompts st ++ [envelope cfg agent attempt (context st)] |}
        end
    end.
Proof.
  unfold attempt_once, after_chat, envelope, bind, read, chat.
  destruct (_summarize_and_trim_context cfg (context st)) as [summary recent]. simpl.
  destruct (script st) as [|[out raw|x] rest]; simpl; try reflexivity.
  destruct (_parse_output out) as [pr|x]; simpl; [|reflexivity].
  unfold goes_to_context, valid. cbn [parse_error make_entry Data.attempt].
  unfold append_transcript, append_context, modify, ret.
  destruct (opt_truthy (error pr)); simpl.
  - destruct (attempt =? 2); simpl; [reflexivity|]. now rewrite app_nil_r.
  - reflexivity.
Qed.

(** What an attempt that returns has done. *)
Lemma attempt_once_ok (cfg : Config) (turn : Z) (agent : Agents.AgentConfig)
    (a : Z) (st s' : State) (e : Entry) :
  attempt_once cfg turn agent a st = Ok e s' ->
  transcript s' = transcript st ++ [e]
  /\ context s' = context st ++ (if goes_to_context e then [e] else [])
  /\ prompts s' = prompts st ++ [envelope cfg agent a (context st)]
  /\ script st = Replied (raw_output e) (raw_lines e) :: script s'
  /\ Data.attempt e = a /\ Data.agent e = Agents.name agent /\ Data.turn e = turn
  /\ (valid e = true -> exists n, satisfaction e = Some n /\ 0 <= n <= 100)
  /\ (valid e = false -> satisfaction e = None).
Proof.
  rewrite attempt_once_cases.
  destruct (script st) as [|[out raw|x] rest]; try discriminate.
  destruct (_parse_output out) as [pr|x] eqn:Hp; try discriminate.
  intros H. inversion H; subst; clear H. cbn [transcript context prompts script].
  repeat (split; [reflexivity|]).
  apply (make_entry_valid turn agent a out raw pr Hp).
Qed.

(** An attempt that raises has sent its prompt and recorded nothing. *)
Lemma attempt_once_err (cfg : Config) (turn : Z) (agent : Agents.AgentConfig)
    (a : Z) (st s' : State) (x : exn) :
  attempt_once cfg turn agent a st = Err x s' -> s' = after_chat cfg agent a st.
Proof.
  rewrite attempt_once_cases.
  destruct (script st) as [|[out raw|y] rest]; try (intros H; now inversion H).
  destruct (_parse_output out) as [pr|y]; intros H; now inversion H.
Qed.

(** Every turn goes one of the four ways. *)
Lemma run_agent_turn_shape (cfg : Config) (turn : Z) (agent : Agents.AgentConfig)
    (st : State) :
  exists new, turn_shape cfg turn agent st (_run_agent_turn cfg turn agent st) new.
Proof.
  unfold _run_agent_turn. cbn [attempts]. unfold bind.
  destruct (attempt_once cfg turn agent 1 st) as [e1 s1|x s1] eqn:H1.
  - destruct (opt_truthy (parse_error e1)) eqn:Hv.
    + destruct (attempt_once cfg turn agent 2 s1) as [e2 s2|x s2] eqn:H2.
      * exists [e1; e2].
        assert (Hv1 : valid e1 = false) by (unfold valid; now rewrite Hv).
        destruct (opt_truthy (parse_error e2)); unfold ret;
          exact (second_returned _ _ _ _ e1 s1 e2 s2 H1 Hv1 H2).
      * exists [e1]. pose proof (attempt_once_err _ _ _ _ _ _ _ H2) as ->.
        apply (second_raised _ _ _ _ e1 s1 x H1); [|exact H2].
        unfold valid. now rewrite Hv.
    + exists [e1]. apply (first_parsed _ _ _ _ e1 s1 H1). unfold valid. now rewrite Hv.
  - exists []. pose proof (attempt_once_err _ _ _ _ _ _ _ H1) as ->.
    now apply first_raised.
Qed.

Lemma Subseq_refl {A : Type} (l : list A) : Subseq l l.
Proof. induction l; [constructor|apply Subseq_keep; assumption]. Qed.

Lemma Subseq_filter {A : Type} (f : A -> bool) (l : list A) : Subseq (filter f l) l.
Proof.
  induction l as [|x l IH]; simpl; [constructor|].
  destruct (f x); [apply Subseq_keep|apply Subseq_skip]; exact IH.
Qed.

Lemma Subseq_app {A : Type} (l1 l2 m1 m2 : list A) :
  Subseq l1 l2 -> Subseq m1 m2 -> Subseq (l1 ++ m1) (l2 ++ m2).
Proof.
  intros H. induction H; intros Hm; simpl.
  - exact Hm.
  - apply Subseq_skip. auto.
  - apply Subseq_keep. auto.
Qed.

(** What the entries recorded by a turn look like, whichever way it went. *)
Lemma turn_shape_facts (cfg : Config) (turn : Z) (agent : Agents.AgentConfig)
    (st : State) (o : outcome State (option Entry)) (new : list Entry) :
  turn_shape cfg turn agent st o new ->
  transcript (final_state o) = transcript st ++ new
  /\ context (final_state o) = context st ++ filter goes_to_context new
  /\ map attempt new = firstn (List.length new) [1; 2]
  /\ Forall (fun e => Data.agent e = Agents.name agent /\ Data.turn e = turn) new
  /\ Forall (fun e => (valid e = true ->
                       exists n, satisfaction e = Some n /\ 0 <= n <= 100)
                      /\ (valid e = false -> satisfaction e = None)) new.
Proof.
  intros H. destruct H as [x H1|e1 s1 H1 Hv|e1 s1 x H1 Hv H2|e1 s1 e2 s2 H1 Hv H2];
    cbn [final_state].
  - simpl. rewrite !app_nil_r. repeat split; try constructor.
  - destruct (attempt_once_ok _ _ _ _ _ _ _ H1)
      as [Ht [Hc [_ [_ [Ha [Hg [Hu [Hs1 Hs2]]]]]]]].
    assert (Hg1 : goes_to_context e1 = true)
      by (unfold goes_to_context; now rewrite Hv).
    rewrite Hg1 in Hc. simpl. rewrite Hg1, Ha.
    split; [exact Ht|]. split; [exact Hc|]. split; [reflexivity|].
    split; repeat constructor; auto.
  - destruct (attempt_once_ok _ _ _ _ _ _ _ H1)
      as [Ht [Hc [_ [_ [Ha [Hg [Hu [Hs1 Hs2]]]]]]]].
    assert (Hg1 : goes_to_context e1 = false)
      by (unfold goes_to_context; now rewrite Hv, Ha).
    rewrite Hg1 in Hc. cbn [after_chat transcript context]. simpl.
    rewrite Hg1, Ha.
    split; [exact Ht|]. split; [exact Hc|]. split; [reflexivity|].
    split; repeat constructor; auto.
  - destruct (attempt_once_ok _ _ _ _ _ _ _ H1)
      as [Ht [Hc [_ [_ [Ha [Hg [Hu [Hs1 Hs2]]]]]]]].
    destruct (attempt_once_ok _ _ _ _ _ _ _ H2)
      as [Ht' [Hc' [_ [_ [Ha' [Hg' [Hu' [Hs1' Hs2']]]]]]]].
    assert (Hg1 : goes_to_context e1 = false)
      by (unfold goes_to_context; now rewrite Hv, Ha).
    assert (Hg2 : goes_to_context e2 = true)
      by (unfold goes_to_context; rewrite Ha'; apply orb_true_r).
    rewrite Hg1 in Hc. rewrite Hg2 in Hc'. simpl. rewrite Hg1, Hg2, Ha, Ha'.
    rewrite Ht', Ht, Hc', Hc, app_nil_r, <- app_assoc. simpl.
    split; [reflexivity|]. split; [reflexivity|]. split; [reflexivity|].
    split; repeat constructor; auto.
Qed.

(** C4. In every agent turn, whichever way it ends: each attempt that
    produced an entry has it appended to the Transcript, in attempt order; of
    these, exactly the entries that parsed or that are second attempts are
    appended to the Context; when the turn returns, there is one entry per
    prompt sent, the last one is the value returned, and a first attempt
    that parsed is the only attempt made.  Hence a Context that is a
    subsequence of the Transcript before the turn is one after it. *)
Theorem turn_appends_transcript_and_context
    (cfg : Config) (turn : Z) (agent : Agents.AgentConfig) (st : State) :
  let o := _run_agent_turn cfg turn agent st in
  let st' := final_state o in
  (exists new,
      transcript st' = transcript st ++ new
      /\ context st' = context st ++ filter goes_to_context new
      /\ map attempt new = firstn (List.length new) [1; 2]
      /\ (forall r s, o = Ok r s ->
            List.length (prompts st') = (List.length (prompts st) + List.length new)%nat
            /\ r = List.last (map Some new) None
            /\ new <> []
            /\ (forall e1, hd_error new = Some e1 -> valid e1 = true -> new = [e1])))
  /\ (Subseq (context st) (transcript st) -> Subseq (context st') (transcript st')).
Proof.
  intros o st'. subst st' o.
  destruct (run_agent_turn_shape cfg turn agent st) as [new Hshape].
  destruct (turn_shape_facts _ _ _ _ _ _ Hshape) as [Ht [Hc [Ha _]]].
  split.
  - exists new. repeat (split; [assumption|]).
    intros r s Ho. rewrite Ho in *. cbn [final_state] in *.
    inversion Hshape as [| e1 s1 H1 Hv | | e1 s1 e2 s2 H1 Hv H2]; subst.
    + destruct (attempt_once_ok _ _ _ _ _ _ _ H1) as [_ [_ [Hp _]]].
      rewrite Hp, length_app. simpl. repeat split; try reflexivity; try discriminate.
      intros e Hhd _. now inversion Hhd.
    + destruct (attempt_once_ok _ _ _ _ _ _ _ H1) as [_ [_ [Hp _]]].
      destruct (attempt_once_ok _ _ _ _ _ _ _ H2) as [_ [_ [Hp' _]]].
      rewrite Hp', Hp, !length_app. simpl.
      repeat split; try reflexivity; try discriminate; try lia.
      intros e Hhd Hve. inversion Hhd; subst. congruence.
  - intros Hsub. rewrite Ht, Hc.
    apply Subseq_app; [exact Hsub|apply Subseq_filter].
Qed.

Lemma turn_appends_transcript_and_context_witness :
  let cfg := Samples.config 5 90 2 6 12 in
  let st := initial [Samples.bad; Samples.ok "95"] in
  let st' := final_state (_run_agent_turn cfg 1 (agents cfg "Agent A") st) in
  Subseq (context st') (transcript st')
  /\ map attempt (transcript st') = [1; 2]
  /\ map attempt (context st') = [2].
Proof.
  cbv zeta. split; [|split; vm_compute; reflexivity].
  apply (proj2 (turn_appends_transcript_and_context
                  (Samples.config 5 90 2 6 12) 1
                  (agents (Samples.config 5 90 2 6 12) "Agent A")
                  (initial [Samples.bad; Samples.ok "95"]))).
  simpl. constructor.
Defined.

End TurnFacts.

(** ** Rounds and the termination test *)
Module RoundFacts.
Import Eff Data Orchestrator Props TurnFacts.
Import Json.

Lemma find_app {A : Type} (f : A -> bool) (l1 l2 : list A) :
  find f (l1 ++ l2) = match find f l1 with Some x => Some x | None => find f l2 end.
Proof.
  induction l1 as [|x l1 IH]; simpl; [reflexivity|].
  destruct (f x); [reflexivity|exact IH].
Qed.

(** The latest entry of an agent after more entries were appended. *)
Lemma latest_entry_app (tr new : list Entry) (agent_name : string) :
  _latest_entry (tr ++ new) agent_name =
    match _latest_entry new agent_name with
    | Some e => Some e
    | None => _latest_entry tr agent_name
    end.
Proof. unfold _latest_entry. rewrite rev_app_distr. apply find_app. Qed.

Lemma latest_entry_others (new : list Entry) (agent_name : string) :
  Forall (fun e => Data.agent e <> agent_name) new ->
  _latest_entry new agent_name = None.
Proof.
  unfold _latest_entry. intros H. apply Forall_rev in H.
  induction H as [|e l He _ IH]; simpl; [reflexivity|].
  apply String.eqb_neq in He. now rewrite He.
Qed.

(** A turn that returns: the value returned is the agent's latest entry in
    the Transcript, the other agent's latest entry is untouched, and the
    Context is not empty.  A returned entry that did not parse is a second
    attempt that follows a first attempt that did not parse either. *)
Lemma turn_returns (cfg : Config) (turn : Z) (agent : Agents.AgentConfig)
    (st st' : State) (r : option Entry) :
  _run_agent_turn cfg turn agent st = Ok r st' ->
  exists e,
    r = Some e
    /\ Data.agent e = Agents.name agent
    /\ _latest_entry (transcript st') (Agents.name agent) = Some e
    /\ (forall other, other <> Agents.name agent ->
          _latest_entry (transcript st') other = _latest_entry (transcript st) other)
    /\ (valid e = true -> exists n, satisfaction e = Some n /\ 0 <= n <= 100)
    /\ (valid e = false ->
          satisfaction e = None /\ attempt e = 2
          /\ exists e1, valid e1 = false /\ attempt e1 = 1
                        /\ transcript st' = transcript st ++ [e1; e])
    /\ context st' <> [].
Proof.
  intros Ho.
  destruct (run_agent_turn_shape cfg turn agent st) as [new Hshape].
  destruct (turn_shape_facts _ _ _ _ _ _ Hshape) as [Ht [Hc [Ha [Hg Hs]]]].
  rewrite Ho in *. cbn [final_state] in *.
  assert (Hothers : forall other, other <> Agents.name agent ->
            _latest_entry (transcript st') other = _latest_entry (transcript st) other).
  { intros other Hne. rewrite Ht, latest_entry_app, latest_entry_others; [reflexivity|].
    eapply Forall_impl; [|exact Hg]. simpl. intros e [-> _] Heq. now apply Hne. }
  inversion Hshape as [| e1 s1 H1 Hv | | e1 s1 e2 s2 H1 Hv H2]; subst.
  - exists e1. inversion Hg as [|? ? [Hg1 _] _]; subst.
    inversion Hs as [|? ? [Hs1 Hs2] _]; subst.
    split; [reflexivity|]. split; [exact Hg1|]. split.
    { rewrite Ht, latest_entry_app. unfold _latest_entry. simpl.
      rewrite Hg1, String.eqb_refl. reflexivity. }
    split; [exact Hothers|]. split; [exact Hs1|]. split; [congruence|].
    rewrite Hc. simpl. unfold goes_to_context. rewrite Hv. simpl.
    intros E. apply app_eq_nil in E. destruct E as [_ E]. discriminate.
  - exists e2. inversion Hg as [|? ? _ Hg']; subst.
    inversion Hg' as [|? ? [Hg2 _] _]; subst.
    inversion Hs as [|? ? _ Hs']; subst.
    inversion Hs' as [|? ? [Hs1 Hs2] _]; subst.
    simpl in Ha. injection Ha as Ha1 Ha2.
    split; [reflexivity|]. split; [exact Hg2|]. split.
    { rewrite Ht, latest_entry_app. unfold _latest_entry. simpl.
      rewrite Hg2, String.eqb_refl. reflexivity. }
    split; [exact Hothers|]. split; [exact Hs1|]. split.
    { intros Hv2. split; [exact (Hs2 Hv2)|]. split; [exact Ha2|].
      exists e1. repeat split; assumption. }
    assert (Hg2' : goes_to_context e2 = true)
      by (unfold goes_to_context; rewrite Ha2; apply orb_true_r).
    rewrite Hc. simpl. rewrite Hg2'. intros E.
    apply app_eq_nil in E. destruct E as [_ E].
    destruct (goes_to_context e1); discriminate.
Qed.

Lemma agent_a_is_not_b : "Agent A" <> "Agent B".
Proof. discriminate. Qed.

(** One pass of the inner loop and one pass of the loop of [run]. *)
Lemma agent_turns_unfold (cfg : Config) (turn : Z) (agent_name : string)
    (rest : list string) (lv : list (string * Entry)) (st : State) :
  agent_turns cfg turn (agent_name :: rest) lv st =
    match _run_agent_turn cfg turn (agents cfg agent_name) st with
    | Ok pe s1 =>
        agent_turns cfg turn rest
          match pe with
          | Some e =>
              if negb (opt_truthy (parse_error e)) then set_entry lv agent_name e else lv
          | None => lv
          end s1
    | Err x s1 => Err x s1
    end.
Proof. reflexivity. Qed.

Lemma rounds_unfold (cfg : Config) (turn : Z) (rest : list Z) (loc : Locals)
    (st : State) :
  rounds cfg (turn :: rest) loc st =
    match agent_turns cfg turn ["Agent A"; "Agent B"] (last_valid loc) st with
    | Ok lv s1 =>
        if stable_rounds cfg <=? next_stable_count cfg (transcript s1) (stable_count loc)
        then Ok {| stable_count :=
                     next_stable_count cfg (transcript s1) (stable_count loc);
                   stop_reason := Some (StabilityReached (stable_rounds cfg)
                                                         (min_satisfaction cfg));
                   last_valid := lv |} s1
        else rounds cfg rest
               {| stable_count :=
                    next_stable_count cfg (transcript s1) (stable_count loc);
                  stop_reason := stop_reason loc;
                  last_valid := lv |} s1
    | Err x s1 => Err x s1
    end.
Proof.
  cbn [rounds]. unfold bind, read.
  destruct (agent_turns cfg turn ["Agent A"; "Agent B"] (last_valid loc) st);
    [|reflexivity].
  destruct (stable_rounds cfg <=? _); reflexivity.
Qed.

(** The inner loop returns exactly when both turns return. *)
Lemma agent_turns_round (cfg : Config) (turn : Z) (st st' : State)
    (lv lv' : list (string * Entry)) :
  agent_turns cfg turn ["Agent A"; "Agent B"] lv st = Ok lv' st' <->
  exists ea eb,
    round_of cfg turn st ea eb st'
    /\ lv' = record_valid (record_valid lv "Agent A" ea) "Agent B" eb.
Proof.
  cbn [agent_turns]. unfold bind, ret, record_valid, valid. split.
  - destruct (_run_agent_turn cfg turn (agents cfg "Agent A") st) as [ra sa|x sa] eqn:HA;
      [|discriminate].
    destruct (turn_returns _ _ _ _ _ _ HA) as [ea [-> _]].
    destruct (_run_agent_turn cfg turn (agents cfg "Agent B") sa) as [rb sb|x sb] eqn:HB;
      [|discriminate].
    destruct (turn_returns _ _ _ _ _ _ HB) as [eb [-> _]].
    intros H. inversion H; subst. exists ea, eb. split; [|reflexivity].
    exists sa. split; assumption.
  - intros [ea [eb [[sa [HA HB]] ->]]]. rewrite HA, HB. reflexivity.
Qed.

(** After a round, the test of lines 60-71 reads the two entries the turns
    returned: the counter goes up when both are valid and meet the minimum,
    and is reset otherwise. *)
Lemma round_counter (cfg : Config) (turn : Z) (st st' : State) (ea eb : Entry) (c : Z) :
  round_of cfg turn st ea eb st' ->
  _latest_entry (transcript st') "Agent A" = Some ea
  /\ _latest_entry (transcript st') "Agent B" = Some eb
  /\ next_stable_count cfg (transcript st') c =
       if meets cfg ea && meets cfg eb then c + 1 else 0.
Proof.
  intros [sa [HA HB]].
  destruct (turn_returns _ _ _ _ _ _ HA) as [ea' [Ea [_ [La [_ [Va [Na _]]]]]]].
  destruct (turn_returns _ _ _ _ _ _ HB) as [eb' [Eb [_ [Lb [Ob [Vb [Nb _]]]]]]].
  inversion Ea; subst ea'. inversion Eb; subst eb'. cbn [agents Agents.name] in *.
  assert (LA : _latest_entry (transcript st') "Agent A" = Some ea)
    by (rewrite (Ob "Agent A" agent_a_is_not_b); exact La).
  split; [exact LA|]. split; [exact Lb|].
  unfold next_stable_count. rewrite LA, Lb. unfold _get_satisfaction, meets.
  unfold valid in *.
  destruct (opt_truthy (parse_error ea)); simpl.
  - reflexivity.
  - destruct (Va eq_refl) as [a [-> _]].
    destruct (opt_truthy (parse_error eb)); simpl.
    + now rewrite andb_false_r.
    + destruct (Vb eq_refl) as [b [-> _]]. reflexivity.
Qed.

(** One step of the loop of [run] over a round that runs to its end. *)
Lemma rounds_step (cfg : Config) (turn : Z) (rest : list Z) (loc : Locals)
    (st st' : State) (ea eb : Entry) :
  round_of cfg turn st ea eb st' ->
  rounds cfg (turn :: rest) loc st =
    let c := if meets cfg ea && meets cfg eb then stable_count loc + 1 else 0 in
    let lv := record_valid (record_valid (last_valid loc) "Agent A" ea) "Agent B" eb in
    if stable_rounds cfg <=? c then
      Ok {| stable_count := c;
            stop_reason := Some (StabilityReached (stable_rounds cfg)
                                                  (min_satisfaction cfg));
            last_valid := lv |} st'
    else rounds cfg rest {| stable_count := c; stop_reason := stop_reason loc;
                            last_valid := lv |} st'.
Proof.
  intros Hr. cbn [rounds]. unfold bind at 1.
  assert (Hat : agent_turns cfg turn ["Agent A"; "Agent B"] (last_valid loc) st =
                Ok (record_valid (record_valid (last_valid loc) "Agent A" ea)
                                 "Agent B" eb) st')
    by (apply agent_turns_round; exists ea, eb; split; [exact Hr|reflexivity]).
  rewrite Hat. unfold bind, read.
  destruct (round_counter cfg turn st st' ea eb (stable_count loc) Hr) as [_ [_ ->]].
  cbv zeta. destruct (stable_rounds cfg <=? _); reflexivity.
Qed.

(** C2. With two stable rounds required, let the loop reach a round with
    the counter at zero, and let that round and the next both end with each
    agent's latest entry valid and at or above the minimum.  Then the loop
    goes on after the first of the two rounds, with the counter at one, and
    stops right after the second with the stability reason, whatever rounds
    the budget still allows; a run whose first two rounds are such ends
    there. *)
Theorem stops_after_second_stable_round
    (cfg : Config) (t1 t2 : Z) (rest : list Z) (loc : Locals)
    (st st1 st2 : State) (ea1 eb1 ea2 eb2 : Entry) :
  stable_rounds cfg = 2 ->
  stable_count loc = 0 ->
  round_of cfg t1 st ea1 eb1 st1 ->
  meets cfg ea1 = true -> meets cfg eb1 = true ->
  round_of cfg t2 st1 ea2 eb2 st2 ->
  meets cfg ea2 = true -> meets cfg eb2 = true ->
  let lv1 := record_valid (record_valid (last_valid loc) "Agent A" ea1) "Agent B" eb1 in
  let lv2 := record_valid (record_valid lv1 "Agent A" ea2) "Agent B" eb2 in
  rounds cfg (t1 :: t2 :: rest) loc st =
    rounds cfg (t2 :: rest)
           {| stable_count := 1; stop_reason := stop_reason loc; last_valid := lv1 |} st1
  /\ rounds cfg (t1 :: t2 :: rest) loc st =
       Ok {| stable_count := 2;
             stop_reason := Some (StabilityReached 2 (min_satisfaction cfg));
             last_valid := lv2 |} st2
  /\ (loc = {| stable_count := 0; stop_reason := None; last_valid := [] |} ->
      range1 (max_turns cfg) = t1 :: t2 :: rest ->
      run cfg st =
        Ok {| final_stable_count := 2;
              final_stop_reason := StabilityReached 2 (min_satisfaction cfg);
              final_last_valid := lv2;
              reached_target := true |} st2).
Proof.
  intros Hsr Hc R1 Ma1 Mb1 R2 Ma2 Mb2 lv1 lv2.
  assert (S1 : rounds cfg (t1 :: t2 :: rest) loc st =
               rounds cfg (t2 :: rest)
                 {| stable_count := 1; stop_reason := stop_reason loc;
                    last_valid := lv1 |} st1).
  { rewrite (rounds_step cfg t1 (t2 :: rest) loc st st1 ea1 eb1 R1).
    rewrite Ma1, Mb1, Hc, Hsr. reflexivity. }
  assert (S2 : rounds cfg (t1 :: t2 :: rest) loc st =
               Ok {| stable_count := 2;
                     stop_reason := Some (StabilityReached 2 (min_satisfaction cfg));
                     last_valid := lv2 |} st2).
  { rewrite S1. rewrite (rounds_step cfg t2 rest _ st1 st2 ea2 eb2 R2).
    rewrite Ma2, Mb2, Hsr. reflexivity. }
  split; [exact S1|]. split; [exact S2|].
  intros Hloc Hrange. unfold run, bind. rewrite Hrange, <- Hloc, S2.
  cbn [stable_count stop_reason last_valid]. unfold ret. rewrite Hsr. reflexivity.
Qed.

Lemma stops_after_second_stable_round_witness :
  let cfg := Samples.config 5 90 2 6 12 in
  let st := initial [Samples.ok "95"; Samples.bad; Samples.ok "96";
                     Samples.ok "97"; Samples.ok "98"; Samples.ok "99"] in
  option_map final_stop_reason (report_of (run cfg st)) = Some (StabilityReached 2 90)
  /\ map digest (transcript (final_state (run cfg st))) =
       [(1, "Agent A", 1, true); (1, "Agent B", 1, false); (1, "Agent B", 2, true);
        (2, "Agent A", 1, true); (2, "Agent B", 1, true)].
Proof.
  cbv zeta.
  set (cfg := Samples.config 5 90 2 6 12).
  set (st := initial _).
  set (a1 := _run_agent_turn cfg 1 (agents cfg "Agent A") st).
  set (b1 := _run_agent_turn cfg 1 (agents cfg "Agent B") (final_state a1)).
  set (a2 := _run_agent_turn cfg 2 (agents cfg "Agent A") (final_state b1)).
  set (b2 := _run_agent_turn cfg 2 (agents cfg "Agent B") (final_state a2)).
  assert (R1 : round_of cfg 1 st (entry_of a1) (entry_of b1) (final_state b1))
    by (exists (final_state a1); split; vm_compute; reflexivity).
  assert (R2 : round_of cfg 2 (final_state b1) (entry_of a2) (entry_of b2)
                        (final_state b2))
    by (exists (final_state a2); split; vm_compute; reflexivity).
  destruct (stops_after_second_stable_round cfg 1 2 [3; 4; 5]
              {| stable_count := 0; stop_reason := None; last_valid := [] |}
              st (final_state b1) (final_state b2)
              (entry_of a1) (entry_of b1) (entry_of a2) (entry_of b2)
              eq_refl eq_refl R1
              ltac:(vm_compute; reflexivity) ltac:(vm_compute; reflexivity) R2
              ltac:(vm_compute; reflexivity) ltac:(vm_compute; reflexivity))
    as [_ [_ Hrun]].
  specialize (Hrun eq_refl eq_refl).
  split; [rewrite Hrun; reflexivity|vm_compute; reflexivity].
Defined.

(** C3 as amended. Take a round that runs to its end and in which an agent's
    turn returned an entry that did not parse, that is, both its attempts
    failed.  After it the counter is zero whatever the other agent answered,
    and, when at least one stable round is required, the loop goes on with
    the rounds that remain. *)
Theorem failed_round_resets_and_goes_on
    (cfg : Config) (turn : Z) (rest : list Z) (loc : Locals)
    (st st' : State) (ea eb : Entry) :
  round_of cfg turn st ea eb st' ->
  valid ea = false \/ valid eb = false ->
  (forall c, next_stable_count cfg (transcript st') c = 0)
  /\ (1 <= stable_rounds cfg ->
      rounds cfg (turn :: rest) loc st =
        rounds cfg rest
               {| stable_count := 0; stop_reason := stop_reason loc;
                  last_valid := record_valid (record_valid (last_valid loc) "Agent A" ea)
                                             "Agent B" eb |} st').
Proof.
  intros Hr Hv.
  assert (Hm : meets cfg ea && meets cfg eb = false).
  { unfold meets. destruct Hv as [-> | ->]; simpl; [reflexivity|].
    apply andb_false_r. }
  split.
  - intros c. destruct (round_counter cfg turn st st' ea eb c Hr) as [_ [_ ->]].
    now rewrite Hm.
  - intros Hs. rewrite (rounds_step cfg turn rest loc st st' ea eb Hr), Hm.
    cbv zeta. replace (stable_rounds cfg <=? 0) with false; [reflexivity|].
    symmetry. apply Z.leb_gt. lia.
Qed.

Lemma failed_round_resets_and_goes_on_witness :
  let cfg := Samples.config 2 90 1 6 12 in
  let st := initial [Samples.ok "95"; Samples.bad; Samples.bad;
                     Samples.ok "96"; Samples.ok "97"] in
  let a1 := _run_agent_turn cfg 1 (agents cfg "Agent A") st in
  let b1 := _run_agent_turn cfg 1 (agents cfg "Agent B") (final_state a1) in
  next_stable_count cfg (transcript (final_state b1)) 1 = 0
  /\ rounds cfg [1; 2] {| stable_count := 0; stop_reason := None; last_valid := [] |} st =
       rounds cfg [2]
              {| stable_count := 0; stop_reason := None;
                 last_valid := record_valid (record_valid [] "Agent A" (entry_of a1))
                                            "Agent B" (entry_of b1) |}
              (final_state b1).
Proof.
  cbv zeta.
  set (cfg := Samples.config 2 90 1 6 12).
  set (st := initial _).
  set (a1 := _run_agent_turn cfg 1 (agents cfg "Agent A") st).
  set (b1 := _run_agent_turn cfg 1 (agents cfg "Agent B") (final_state a1)).
  assert (R1 : round_of cfg 1 st (entry_of a1) (entry_of b1) (final_state b1))
    by (exists (final_state a1); split; vm_compute; reflexivity).
  assert (Vb : valid (entry_of b1) = false) by (vm_compute; reflexivity).
  destruct (failed_round_resets_and_goes_on cfg 1 [2]
              {| stable_count := 0; stop_reason := None; last_valid := [] |}
              st (final_state b1) (entry_of a1) (entry_of b1) R1
              (or_intror Vb)) as [Hzero Hgo].
  split; [apply Hzero|apply Hgo; simpl; lia].
Defined.

(** C3, as stated, fails when no stable round is required: the round in
    which agent B fails both attempts resets the counter to zero, zero
    already reaches the required number, and the run stops after round 1
    with the stability reason although the budget allows a second round and
    the servers had more to say. *)
Lemma failed_round_stops_run_when_none_required :
  let cfg := Samples.config 2 90 0 6 12 in
  let st := initial [Samples.ok "95"; Samples.bad; Samples.bad;
                     Samples.ok "96"; Samples.ok "97"] in
  max_turns cfg = 2
  /\ map digest (transcript (final_state (run cfg st))) =
       [(1, "Agent A", 1, true); (1, "Agent B", 1, false); (1, "Agent B", 2, false)]
  /\ script (final_state (run cfg st)) = [Samples.ok "96"; Samples.ok "97"]
  /\ option_map final_stable_count (report_of (run cfg st)) = Some 0
  /\ option_map final_stop_reason (report_of (run cfg st)) = Some (StabilityReached 0 90).
Proof. cbv zeta. repeat split; vm_compute; reflexivity. Qed.

(** C1 as amended. When an agent's turn fails both attempts, the entry that
    the termination test reads for that agent is its latest entry in the
    Transcript, the failed second attempt, and not an older valid entry,
    which stays in the Transcript unread.  That entry has no satisfaction,
    so after the round the counter is zero: stability does not accrue in
    such a round. *)
Theorem failed_turn_is_what_the_test_reads
    (cfg : Config) (turn : Z) (agent_name : string) (st st' : State) (e : Entry) :
  agent_name = "Agent A" \/ agent_name = "Agent B" ->
  _run_agent_turn cfg turn (agents cfg agent_name) st = Ok (Some e) st' ->
  valid e = false ->
  _latest_entry (transcript st') agent_name = Some e
  /\ attempt e = 2
  /\ _get_satisfaction (_latest_entry (transcript st') agent_name) = None
  /\ (forall old, In old (transcript st) -> In old (transcript st'))
  /\ (forall more c,
        Forall (fun x => Data.agent x <> agent_name) more ->
        next_stable_count cfg (transcript st' ++ more) c = 0).
Proof.
  intros Hname Ho Hv.
  destruct (turn_returns _ _ _ _ _ _ Ho) as [e' [Ee [_ [Le [_ [_ [Hbad _]]]]]]].
  inversion Ee; subst e'. cbn [agents Agents.name] in Le.
  destruct (Hbad Hv) as [Hsat [Hatt [e1 [_ [_ Htr]]]]].
  assert (Hget : _get_satisfaction (Some e) = None).
  { unfold _get_satisfaction. unfold valid in Hv.
    destruct (opt_truthy (parse_error e)); [reflexivity|discriminate]. }
  split; [exact Le|]. split; [exact Hatt|]. split; [now rewrite Le|].
  split.
  - intros old Hin. rewrite Htr. apply in_or_app. now left.
  - intros more c Hmore.
    assert (Hl : _latest_entry (transcript st' ++ more) agent_name = Some e)
      by (rewrite latest_entry_app, (latest_entry_others more _ Hmore); exact Le).
    unfold next_stable_count.
    destruct Hname as [-> | ->]; rewrite Hl, Hget.
    + reflexivity.
    + destruct (_get_satisfaction (_latest_entry (transcript st' ++ more) "Agent A"));
        reflexivity.
Qed.

Lemma failed_turn_is_what_the_test_reads_witness :
  let cfg := Samples.config 2 90 3 6 12 in
  let st := initial [Samples.ok "95"; Samples.ok "96";
                     Samples.ok "97"; Samples.bad; Samples.bad] in
  let s0 := final_state
              (_run_agent_turn cfg 2 (agents cfg "Agent A")
                 (final_state
                    (rounds cfg [1]
                       {| stable_count := 0; stop_reason := None; last_valid := [] |}
                       st))) in
  let b2 := _run_agent_turn cfg 2 (agents cfg "Agent B") s0 in
  _latest_entry (transcript (final_state b2)) "Agent B" = Some (entry_of b2)
  /\ digest (entry_of b2) = (2, "Agent B", 2, false)
  /\ next_stable_count cfg (transcript (final_state b2)) 1 = 0.
Proof.
  cbv zeta.
  set (cfg := Samples.config 2 90 3 6 12).
  set (st := initial _).
  set (s0 := final_state (_run_agent_turn cfg 2 (agents cfg "Agent A") _)).
  set (b2 := _run_agent_turn cfg 2 (agents cfg "Agent B") s0).
  destruct (failed_turn_is_what_the_test_reads cfg 2 "Agent B" s0 (final_state b2)
              (entry_of b2) (or_intror eq_refl)
              ltac:(vm_compute; reflexivity) ltac:(vm_compute; reflexivity))
    as [Hl [_ [_ [_ Hn]]]].
  split; [exact Hl|]. split; [vm_compute; reflexivity|].
  specialize (Hn [] 1 (Forall_nil _)). now rewrite app_nil_r in Hn.
Defined.

(** C1, as stated, fails.  With threshold 90, both agents answer validly in
    round 1 (95 and 96) and the counter becomes 1; in round 2 agent A answers
    97 and agent B fails both attempts.  Each agent's latest valid entry
    still meets the threshold, and agent B's round-1 entry is still in the
    Transcript, yet the counter after round 2 is 0, not 2. *)
Lemma stale_valid_entry_is_not_used :
  let script := [Samples.ok "95"; Samples.ok "96";
                 Samples.ok "97"; Samples.bad; Samples.bad] in
  let one := run (Samples.config 1 90 3 6 12) (initial script) in
  let two := run (Samples.config 2 90 3 6 12) (initial script) in
  option_map final_stable_count (report_of one) = Some 1
  /\ option_map final_stable_count (report_of two) = Some 0
  /\ option_map (fun r => map (fun kv => (fst kv, satisfaction (snd kv),
                                          meets (Samples.config 2 90 3 6 12) (snd kv)))
                              (final_last_valid r)) (report_of two)
     = Some [("Agent A", Some 97, true); ("Agent B", Some 96, true)]
  /\ map digest (transcript (final_state two)) =
       [(1, "Agent A", 1, true); (1, "Agent B", 1, true);
        (2, "Agent A", 1, true); (2, "Agent B", 1, false); (2, "Agent B", 2, false)].
Proof. cbv zeta. repeat split; vm_compute; reflexivity. Qed.

End RoundFacts.

(** ** Context compaction *)
Module SummaryFacts.
Import Eff Data Orchestrator Props TurnFacts RoundFacts.
Import Json.

Lemma entry_points_described (e : Entry) :
  built e -> entry_points e = described_points e.
Proof.
  unfold built, entry_points, described_points. intros Hb.
  destruct (opt_truthy (parse_error e)); [reflexivity|].
  rewrite Hb. destruct (parsed e) as [d|].
  - destruct (strs_at d "key_points") as [[|p l]|]; reflexivity.
  - reflexivity.
Qed.

Lemma fold_points (older : list Entry) (acc : list string) :
  Forall built older ->
  fold_left (fun points entry => points ++ entry_points entry) older acc =
    acc ++ collected older.
Proof.
  intros H. revert acc. induction H as [|e older He _ IH]; intros acc; simpl.
  - now rewrite app_nil_r.
  - rewrite IH, (entry_points_described e He), <- app_assoc. reflexivity.
Qed.

Lemma Forall_firstn {A : Type} (P : A -> Prop) (n : nat) (l : list A) :
  Forall P l -> Forall P (firstn n l).
Proof.
  intros H. revert n. induction H as [|x l Hx _ IH]; intros [|n]; simpl;
    constructor; auto.
Qed.

(** The code's summary and tail are the limited summary of the older part
    and the recent part. *)
Lemma summarize_by_parts (cfg : Config) (ctx : list Entry) :
  Forall built ctx ->
  _summarize_and_trim_context cfg ctx =
    (limited_summary (summary_max_points cfg) (older_part (summary_keep_last cfg) ctx),
     recent_part (summary_keep_last cfg) ctx).
Proof.
  intros Hb. unfold _summarize_and_trim_context, older_part, recent_part.
  destruct ctx as [|e0 ctx0] eqn:Ec; [reflexivity|]. rewrite <- Ec in *. clear Ec.
  assert (Hk : Z.to_nat (Z.max 0 (summary_keep_last cfg))
               = Z.to_nat (summary_keep_last cfg)) by lia.
  set (older := firstn (List.length ctx - Z.to_nat (summary_keep_last cfg)) ctx).
  set (recent := skipn (List.length ctx - Z.to_nat (summary_keep_last cfg)) ctx).
  assert (Hsplit :
            (if Z.max 0 (summary_keep_last cfg) =? 0 then []
             else Py.last_n (Z.max 0 (summary_keep_last cfg)) ctx) = recent
            /\ (if Z.max 0 (summary_keep_last cfg) =? 0 then ctx
                else Py.but_last_n (Z.max 0 (summary_keep_last cfg)) ctx) = older).
  { subst older recent. unfold Py.last_n, Py.but_last_n. rewrite Hk.
    destruct (Z.max 0 (summary_keep_last cfg) =? 0) eqn:E; [|split; reflexivity].
    apply Z.eqb_eq in E.
    replace (Z.to_nat (summary_keep_last cfg)) with 0%nat by lia.
    rewrite Nat.sub_0_r, firstn_all, skipn_all. split; reflexivity. }
  destruct Hsplit as [-> ->].
  assert (Hbo : Forall built older) by (apply Forall_firstn; exact Hb).
  unfold limited_summary.
  destruct older as [|o older'] eqn:Eo.
  - reflexivity.
  - rewrite <- Eo in *. rewrite (fold_points older [] Hbo). simpl.
    destruct (collected older); reflexivity.
Qed.

(** C6 as amended. The summary is built from the entries older than the
    recent tail, walked in order: parse-error entries are skipped, an entry
    gives its key points, or its reply text when it has no key points, and
    the points are rendered one per bulleted line.  When
    [summary_max_points] is positive only the last that many points are
    kept, in order; when it is zero or negative all of them are kept.  No
    older entry or no point gives no summary.  With 20 collected points and a
    limit of 12 the summary is the last 12 points. *)
Theorem summary_is_last_points_when_limit_positive (cfg : Config) (ctx : list Entry) :
  Forall built ctx ->
  let older := older_part (summary_keep_last cfg) ctx in
  let m := summary_max_points cfg in
  _summarize_and_trim_context cfg ctx =
    (limited_summary m older, recent_part (summary_keep_last cfg) ctx)
  /\ ctx = older ++ recent_part (summary_keep_last cfg) ctx
  /\ (0 < m -> limited_summary m older = described_summary m older)
  /\ (m <= 0 -> collected older <> [] ->
      limited_summary m older = Some (bulleted (collected older)))
  /\ (older = [] \/ collected older = [] -> limited_summary m older = None)
  /\ (m = 12 -> List.length (collected older) = 20%nat ->
      fst (_summarize_and_trim_context cfg ctx) =
        Some (bulleted (skipn 8 (collected older)))).
Proof.
  intros Hb older m.
  pose proof (summarize_by_parts cfg ctx Hb) as Hsum. fold older m in Hsum.
  split; [exact Hsum|]. split.
  { subst older. unfold older_part, recent_part. symmetry. apply firstn_skipn. }
  split; [|split; [|split]].
  - intros Hm. unfold limited_summary, described_summary.
    apply Z.ltb_lt in Hm. now rewrite Hm.
  - intros Hm Hne. unfold limited_summary.
    replace (0 <? m) with false by (symmetry; apply Z.ltb_ge; lia).
    destruct (collected older); [contradiction|reflexivity].
  - unfold limited_summary, collected. intros [-> | ->]; reflexivity.
  - intros Hm Hlen. rewrite Hsum. cbn [fst]. unfold limited_summary.
    rewrite Hm. simpl (0 <? 12). cbv iota.
    destruct (collected older) as [|p pts]; [discriminate|].
    unfold keep_last. rewrite Hlen. reflexivity.
Qed.

Lemma summary_is_last_points_when_limit_positive_witness :
  let cfg := Samples.config 1 90 2 1 12 in
  let ctx := context (final_state (run cfg (initial [Samples.twenty_points;
                                                     Samples.ok "96"]))) in
  fst (_summarize_and_trim_context cfg ctx) =
    Some (bulleted ["p9"; "p10"; "p11"; "p12"; "p13"; "p14"; "p15"; "p16";
                    "p17"; "p18"; "p19"; "p20"])
  /\ List.length (snd (_summarize_and_trim_context cfg ctx)) = 1%nat.
Proof.
  cbv zeta.
  set (cfg := Samples.config 1 90 2 1 12).
  set (ctx := context _).
  assert (Hb : Forall built ctx) by (vm_compute; repeat constructor).
  destruct (summary_is_last_points_when_limit_positive cfg ctx Hb)
    as [_ [_ [_ [_ [_ H20]]]]].
  split.
  - rewrite (H20 eq_refl ltac:(vm_compute; reflexivity)). vm_compute. reflexivity.
  - vm_compute. reflexivity.
Defined.

(** C6, as stated, fails for a limit that is not positive.  With
    [summary_max_points = 0] and one older entry whose key points are a and
    b, the summary lists both points, where "the last 0 points" would list
    none. *)
Lemma summary_keeps_all_points_when_limit_is_zero :
  let cfg := Samples.config 1 90 2 1 0 in
  let ctx := context (final_state (run cfg (initial [Samples.ok "95";
                                                     Samples.ok "96"]))) in
  summary_max_points cfg = 0
  /\ collected (older_part 1 ctx) = ["a"; "b"]
  /\ fst (_summarize_and_trim_context cfg ctx) = Some ("- a" +++ Py.nl +++ "- b")
  /\ described_summary 0 (older_part 1 ctx) = Some ""
  /\ fst (_summarize_and_trim_context cfg ctx) <> described_summary 0 (older_part 1 ctx).
Proof.
  cbv zeta. repeat split; try (vm_compute; reflexivity).
  vm_compute. discriminate.
Qed.

(** Every entry a turn puts into the Context is built as the summary
    expects, so the contexts of a run satisfy the premise above. *)
Lemma turn_keeps_built (cfg : Config) (turn : Z) (agent : Agents.AgentConfig)
    (st : State) :
  Forall built (context st) ->
  Forall built (context (final_state (_run_agent_turn cfg turn agent st))).
Proof.
  intros Hb.
  assert (Hone : forall a s e s', attempt_once cfg turn agent a s = Ok e s' -> built e).
  { intros a s e s'. rewrite attempt_once_cases.
    destruct (script s) as [|[out raw|x] rest]; try discriminate.
    destruct (_parse_output out); try discriminate.
    intros H. inversion H. reflexivity. }
  destruct (run_agent_turn_shape cfg turn agent st) as [new Hshape].
  destruct (turn_shape_facts _ _ _ _ _ _ Hshape) as [_ [Hc _]].
  rewrite Hc. apply Forall_app. split; [exact Hb|].
  assert (Hnew : Forall built new).
  { inversion Hshape as [|e1 s1 H1 _|e1 s1 x H1 _ _|e1 s1 e2 s2 H1 _ H2];
      repeat constructor; eauto. }
  clear - Hnew. induction Hnew as [|e l He _ IH]; simpl; [constructor|].
  destruct (goes_to_context e); [constructor; assumption|assumption].
Qed.

Lemma rounds_keep_built (cfg : Config) (turns : list Z) :
  forall loc st,
    Forall built (context st) ->
    Forall built (context (final_state (rounds cfg turns loc st))).
Proof.
  assert (Hnames : forall turn names lv st,
             Forall built (context st) ->
             Forall built (context (final_state (agent_turns cfg turn names lv st)))).
  { intros turn names. induction names as [|agent_name rest IH]; intros lv st Hb.
    - exact Hb.
    - rewrite agent_turns_unfold.
      pose proof (turn_keeps_built cfg turn (agents cfg agent_name) st Hb) as H1.
      destruct (_run_agent_turn cfg turn (agents cfg agent_name) st) as [r s1|x s1];
        cbn [final_state] in *; [now apply IH|exact H1]. }
  induction turns as [|turn rest IH]; intros loc st Hb; [exact Hb|].
  rewrite rounds_unfold.
  pose proof (Hnames turn ["Agent A"; "Agent B"] (last_valid loc) st Hb) as H1.
  destruct (agent_turns cfg turn ["Agent A"; "Agent B"] (last_valid loc) st)
    as [lv s1|x s1]; cbn [final_state] in *; [|exact H1].
  destruct (stable_rounds cfg <=? _); [exact H1|now apply IH].
Qed.

End SummaryFacts.

(** ** Prompt envelopes over a run *)
Module PromptFacts.
Import Eff Data Orchestrator Props TurnFacts RoundFacts.
Import Json.

Lemma build_messages_parts (agent : Agents.AgentConfig) (tr : list Entry)
    (init : string) (strict : bool) (summary topic : option string) :
  Agents.build_messages agent tr init strict summary topic =
    system_part agent strict summary topic
    ++ match tr with
       | [] => [ {| role := "user"; content := init |} ]
       | _ => map (Agents.render agent) tr
       end.
Proof.
  unfold Agents.build_messages, system_part, opt_truthy.
  destruct strict, topic as [t|], summary as [m|];
    try destruct (Py.str_truthy t); try destruct (Py.str_truthy m);
    simpl; destruct tr; reflexivity.
Qed.

(** The tail the code keeps is the recent part of the context. *)
Lemma summarize_recent (cfg : Config) (ctx : list Entry) :
  snd (_summarize_and_trim_context cfg ctx) = recent_part (summary_keep_last cfg) ctx.
Proof.
  unfold _summarize_and_trim_context, recent_part.
  destruct ctx as [|e0 ctx0] eqn:Ec; [reflexivity|]. rewrite <- Ec. clear Ec.
  assert (Hr : (if Z.max 0 (summary_keep_last cfg) =? 0 then []
                else Py.last_n (Z.max 0 (summary_keep_last cfg)) ctx)
               = skipn (List.length ctx - Z.to_nat (summary_keep_last cfg)) ctx).
  { unfold Py.last_n.
    replace (Z.to_nat (Z.max 0 (summary_keep_last cfg)))
      with (Z.to_nat (summary_keep_last cfg)) by lia.
    destruct (Z.max 0 (summary_keep_last cfg) =? 0) eqn:E; [|reflexivity].
    apply Z.eqb_eq in E.
    replace (Z.to_nat (summary_keep_last cfg)) with 0%nat by lia.
    now rewrite Nat.sub_0_r, skipn_all. }
  rewrite Hr.
  destruct (if Z.max 0 (summary_keep_last cfg) =? 0 then ctx else _); [reflexivity|].
  destruct (fold_left _ _ _); reflexivity.
Qed.



(** An attempt sends exactly one prompt, the envelope of the context it
    finds, and never empties the context. *)
Lemma attempt_once_prompt (cfg : Config) (turn : Z) (agent : Agents.AgentConfig)
    (a : Z) (st : State) :
  let st' := final_state (attempt_once cfg turn agent a st) in
  prompts st' = prompts st ++ [envelope cfg agent a (context st)]
  /\ (context st <> [] -> context st' <> []).
Proof.
  cbv zeta. destruct (attempt_once cfg turn agent a st) as [e s'|x s'] eqn:H.
  - destruct (attempt_once_ok _ _ _ _ _ _ _ H) as [_ [Hc [Hp _]]].
    cbn [final_state]. split; [exact Hp|]. rewrite Hc. intros Hne E.
    apply app_eq_nil in E. now destruct E.
  - rewrite (attempt_once_err _ _ _ _ _ _ _ H). cbn [final_state]. split; [reflexivity|].
    intros Hne. exact Hne.
Qed.

(** The prompts of a turn: all built from the empty context when the turn
    starts with one, all built from a non-empty context otherwise; a turn
    that returns leaves the context non-empty. *)
Lemma turn_prompts (cfg : Config) (turn : Z) (agent : Agents.AgentConfig) (st : State) :
  let o := _run_agent_turn cfg turn agent st in
  exists new,
    prompts (final_state o) = prompts st ++ new
    /\ (context st = [] -> Forall (from_empty cfg) new)
    /\ (context st <> [] -> Forall (from_context cfg) new /\ context (final_state o) <> [])
    /\ (forall r s, o = Ok r s -> context s <> []).
Proof.
  cbv zeta.
  assert (Hret : forall r s, _run_agent_turn cfg turn agent st = Ok r s -> context s <> []).
  { intros r s Ho. now destruct (turn_returns _ _ _ _ _ _ Ho)
      as [e [_ [_ [_ [_ [_ [_ Hc]]]]]]]. }
  destruct (run_agent_turn_shape cfg turn agent st) as [new Hshape].
  assert (E1 : forall ctx, context st = ctx ->
               (ctx = [] -> from_empty cfg (envelope cfg agent 1 (context st)))
               /\ (ctx <> [] -> from_context cfg (envelope cfg agent 1 (context st)))).
  { intros ctx <-. split.
    - intros ->. now exists agent, 1.
    - intros Hne. now exists agent, 1, (context st). }
  remember (_run_agent_turn cfg turn agent st) as o eqn:Ho.
  destruct Hshape as [x H1|e1 s1 H1 Hv|e1 s1 x H1 Hv H2|e1 s1 e2 s2 H1 Hv H2];
    cbn [final_state].
  - exists [envelope cfg agent 1 (context st)]. split; [reflexivity|].
    split; [|split].
    + intros Hc. constructor; [now apply (E1 _ eq_refl)|constructor].
    + intros Hc. split; [constructor; [now apply (E1 _ eq_refl)|constructor]|exact Hc].
    + intros r s Hrs. discriminate.
  - destruct (attempt_once_ok _ _ _ _ _ _ _ H1) as [_ [Hc [Hp _]]].
    exists [envelope cfg agent 1 (context st)]. split; [exact Hp|].
    split; [|split].
    + intros Hc0. constructor; [now apply (E1 _ eq_refl)|constructor].
    + intros Hc0. split; [constructor; [now apply (E1 _ eq_refl)|constructor]|].
      rewrite Hc. intros E. apply app_eq_nil in E. now destruct E.
    + exact Hret.
  - destruct (attempt_once_ok _ _ _ _ _ _ _ H1) as [_ [Hc [Hp [_ [Ha _]]]]].
    assert (Hg : goes_to_context e1 = false)
      by (unfold goes_to_context; now rewrite Hv, Ha).
    rewrite Hg, app_nil_r in Hc.
    exists [envelope cfg agent 1 (context st); envelope cfg agent 2 (context st)].
    cbn [after_chat prompts context]. rewrite Hp, Hc, <- app_assoc.
    split; [reflexivity|]. split; [|split].
    + intros Hc0. rewrite Hc0.
      constructor; [now exists agent, 1|constructor; [now exists agent, 2|constructor]].
    + intros Hc0. split; [|exact Hc0].
      constructor; [now exists agent, 1, (context st)|].
      constructor; [now exists agent, 2, (context st)|constructor].
    + intros r s Hrs. discriminate.
  - destruct (attempt_once_ok _ _ _ _ _ _ _ H1) as [_ [Hc [Hp [_ [Ha _]]]]].
    destruct (attempt_once_ok _ _ _ _ _ _ _ H2) as [_ [Hc' [Hp' _]]].
    assert (Hg : goes_to_context e1 = false)
      by (unfold goes_to_context; now rewrite Hv, Ha).
    rewrite Hg, app_nil_r in Hc.
    exists [envelope cfg agent 1 (context st); envelope cfg agent 2 (context st)].
    rewrite Hp', Hp, Hc, <- app_assoc.
    split; [reflexivity|]. split; [|split].
    + intros Hc0. rewrite Hc0.
      constructor; [now exists agent, 1|constructor; [now exists agent, 2|constructor]].
    + intros Hc0. split.
      { constructor; [now exists agent, 1, (context st)|].
        constructor; [now exists agent, 2, (context st)|constructor]. }
      rewrite Hc', Hc. intros E. apply app_eq_nil in E. now destruct E.
    + exact Hret.
Qed.

(** Once the context holds an entry, the rest of a round sends only
    envelopes built from a non-empty context. *)
Lemma agent_turns_prompts (cfg : Config) (turn : Z) (names : list string) :
  forall lv st,
    context st <> [] ->
    exists new,
      prompts (final_state (agent_turns cfg turn names lv st)) = prompts st ++ new
      /\ Forall (from_context cfg) new
      /\ context (final_state (agent_turns cfg turn names lv st)) <> [].
Proof.
  induction names as [|agent_name rest IH]; intros lv st Hc.
  - exists []. simpl. rewrite app_nil_r. repeat split; [constructor|exact Hc].
  - rewrite agent_turns_unfold.
    destruct (turn_prompts cfg turn (agents cfg agent_name) st)
      as [new1 [Hp1 [_ [Hne _]]]].
    destruct (Hne Hc) as [Hf1 Hc1].
    destruct (_run_agent_turn cfg turn (agents cfg agent_name) st) as [r s1|x s1];
      cbn [final_state] in *.
    + match goal with |- context [agent_turns cfg turn rest ?l s1] =>
        destruct (IH l s1 Hc1) as [new2 [Hp2 [Hf2 Hc2]]] end.
      exists (new1 ++ new2). rewrite Hp2, Hp1, <- app_assoc.
      repeat split; [apply Forall_app; split; assumption|exact Hc2].
    + exists new1. repeat split; assumption.
Qed.

Lemma rounds_prompts (cfg : Config) (turns : list Z) :
  forall loc st,
    context st <> [] ->
    exists new,
      prompts (final_state (rounds cfg turns loc st)) = prompts st ++ new
      /\ Forall (from_context cfg) new.
Proof.
  induction turns as [|turn rest IH]; intros loc st Hc.
  - exists []. simpl. rewrite app_nil_r. split; [reflexivity|constructor].
  - rewrite rounds_unfold.
    destruct (agent_turns_prompts cfg turn ["Agent A"; "Agent B"] (last_valid loc) st Hc)
      as [new1 [Hp1 [Hf1 Hc1]]].
    destruct (agent_turns cfg turn ["Agent A"; "Agent B"] (last_valid loc) st)
      as [lv s1|x s1]; cbn [final_state] in *.
    + destruct (stable_rounds cfg <=? _).
      * exists new1. split; assumption.
      * match goal with |- context [rounds cfg rest ?l s1] =>
          destruct (IH l s1 Hc1) as [new2 [Hp2 Hf2]] end.
        exists (new1 ++ new2). rewrite Hp2, Hp1, <- app_assoc.
        split; [reflexivity|apply Forall_app; split; assumption].
    + exists new1. split; assumption.
Qed.

(** From an empty context, the prompts of the loop are those of agent A's
    first turn, built from the empty context, followed by prompts built
    from a non-empty context. *)
Lemma rounds_prompts_from_start (cfg : Config) (t : Z) (rest : list Z)
    (loc : Locals) (st : State) :
  context st = [] ->
  exists first later,
    prompts (final_state (_run_agent_turn cfg t (agents cfg "Agent A") st))
      = prompts st ++ first
    /\ prompts (final_state (rounds cfg (t :: rest) loc st))
       = prompts st ++ first ++ later
    /\ Forall (from_empty cfg) first
    /\ Forall (from_context cfg) later.
Proof.
  intros Hc.
  destruct (turn_prompts cfg t (agents cfg "Agent A") st)
    as [first [Hp1 [He [_ Hret]]]].
  specialize (He Hc).
  rewrite rounds_unfold, agent_turns_unfold.
  destruct (_run_agent_turn cfg t (agents cfg "Agent A") st) as [r s1|x s1];
    cbn [final_state] in *.
  - pose proof (Hret r s1 eq_refl) as Hc1.
    match goal with |- context [agent_turns cfg t ["Agent B"] ?l s1] =>
      destruct (agent_turns_prompts cfg t ["Agent B"] l s1 Hc1)
        as [new2 [Hp2 [Hf2 Hc2]]];
      destruct (agent_turns cfg t ["Agent B"] l s1) as [lv s2|x s2]
    end; cbn [final_state] in *.
    + destruct (stable_rounds cfg <=? _); cbn [final_state].
      * exists first, new2. rewrite Hp2, Hp1, <- app_assoc. repeat split; assumption.
      * match goal with |- context [rounds cfg rest ?l s2] =>
          destruct (rounds_prompts cfg rest l s2 Hc2) as [new3 [Hp3 Hf3]] end.
        exists first, (new2 ++ new3). rewrite Hp3, Hp2, Hp1, <- !app_assoc.
        repeat split; [assumption|apply Forall_app; split; assumption].
    + exists first, new2. rewrite Hp2, Hp1, <- app_assoc. repeat split; assumption.
  - exists first, []. rewrite app_nil_r. repeat split; [assumption..|constructor].
Qed.




End PromptFacts.

(** ** More on the validator *)
Module ValidatorMore.
Import Eff Data Orchestrator Props ValidatorFacts.
Import Json.

Lemma missing_key_some (keys : list string) (d : Json.dict) (k : string) :
  missing_key keys d = Some k ->
  exists before after,
    keys = before ++ k :: after
    /\ Json.mem k d = false
    /\ Forall (fun k' => Json.mem k' d = true) before.
Proof.
  induction keys as [|key rest IH]; simpl; [discriminate|].
  destruct (Json.mem key d) eqn:E.
  - intros H. destruct (IH H) as [before [after [-> [Hk Hb]]]].
    exists (key :: before), after. repeat split; [assumption|]. now constructor.
  - intros H. inversion H; subst. exists [], rest. repeat split; [assumption|constructor].
Qed.

Lemma missing_key_none (keys : list string) (d : Json.dict) :
  missing_key keys d = None -> Forall (fun k => Json.mem k d = true) keys.
Proof.
  induction keys as [|key rest IH]; simpl; [constructor|].
  destruct (Json.mem key d) eqn:E; [|discriminate].
  intros H. constructor; auto.
Qed.

Lemma set_keeps_other (d : Json.dict) (k k' : string) (v : Json.value) :
  String.eqb k' k = false -> Json.get (Json.set d k' v) k = Json.get d k.
Proof.
  intros Hk. induction d as [|[k0 v0] d IH]; simpl.
  - now rewrite Hk.
  - destruct (String.eqb k0 k') eqn:E; simpl.
    + apply String.eqb_eq in E. subst k0. now rewrite Hk.
    + destruct (String.eqb k0 k); [reflexivity|exact IH].
Qed.

Lemma set_what_is_there (d : Json.dict) (k : string) (v : Json.value) :
  Json.get d k = Some v -> Json.set d k v = d.
Proof.
  induction d as [|[k0 v0] d IH]; simpl; [discriminate|].
  destruct (String.eqb k0 k) eqn:E.
  - intros H. inversion H; subst. apply String.eqb_eq in E. now subst.
  - intros H. now rewrite IH.
Qed.

Lemma parse_output_shape (text : string) (pr : ParseResult) :
  _parse_output text = Returns pr ->
  (exists d n,
      data pr = Some d /\ error pr = None /\ well_typed d
      /\ Json.get d "satisfaction" = Some (JInt n) /\ 0 <= n <= 100)
  \/ (data pr = None /\ exists msg, error pr = Some msg /\ msg <> "").
Proof.
  unfold _parse_output, fail.
  assert (Hfail : forall msg, msg <> "" ->
            Returns {| data := None; error := Some msg |} = Returns pr ->
            (exists d n,
                data pr = Some d /\ error pr = None /\ well_typed d
                /\ Json.get d "satisfaction" = Some (JInt n) /\ 0 <= n <= 100)
            \/ (data pr = None /\ exists m, error pr = Some m /\ m <> "")).
  { intros msg Hm H. inversion H; subst. right. split; [reflexivity|].
    exists msg. split; [reflexivity|exact Hm]. }
  destruct (Json.loads text) as [[| | | | | |d]|];
    try (apply Hfail; discriminate).
  destruct (missing_key required d) as [key|]; [apply Hfail; discriminate|].
  destruct (is_str_at d "reply_zh_tw") eqn:Hr; simpl; [|apply Hfail; discriminate].
  destruct (is_str_at d "needs_from_other") eqn:Hn; simpl; [|apply Hfail; discriminate].
  destruct (is_str_list_at d "key_points") eqn:Hp; simpl; [|apply Hfail; discriminate].
  destruct (Json.get d "satisfaction") as [v|]; [|discriminate].
  destruct (py_int v) as [n|[]]; try discriminate; try (apply Hfail; discriminate).
  destruct (n <? 0) eqn:Hlo; simpl; [apply Hfail; discriminate|].
  destruct (100 <? n) eqn:Hhi; simpl; [apply Hfail; discriminate|].
  intros H. inversion H; subst; clear H. left.
  exists (Json.set d "satisfaction" (JInt n)), n. cbn [data error].
  split; [reflexivity|]. split; [reflexivity|]. split.
  - unfold is_str_at, is_str_list_at in *. constructor.
    + rewrite set_keeps_other by reflexivity.
      destruct (Json.get d "reply_zh_tw") as [[| | | |r| |]|]; try discriminate. now exists r.
    + rewrite set_keeps_other by reflexivity.
      destruct (Json.get d "key_points") as [[| | | | |l|]|]; try discriminate. now exists l.
    + rewrite set_keeps_other by reflexivity.
      destruct (Json.get d "needs_from_other") as [[| | | |r| |]|]; try discriminate.
      now exists r.
  - split; [apply TurnFacts.get_set_same|].
    apply Z.ltb_ge in Hlo. apply Z.ltb_ge in Hhi. lia.
Qed.

(** Every result of the validator is of one of two kinds: a record
    with its four fields well typed and an integer satisfaction in 0..100,
    and no error; or no record and a non-empty error text. *)
Theorem parse_result_is_record_or_error (text : string) (pr : ParseResult) :
  _parse_output text = Returns pr ->
  (exists d n,
      data pr = Some d /\ error pr = None /\ well_typed d
      /\ Json.get d "satisfaction" = Some (JInt n) /\ 0 <= n <= 100)
  \/ (data pr = None /\ exists msg, error pr = Some msg /\ msg <> "").
Proof. exact (parse_output_shape text pr). Qed.

Lemma parse_result_is_record_or_error_witness :
  exists d n,
    data {| data := Some [("reply_zh_tw", JStr "r"); ("satisfaction", JInt 95);
                          ("key_points", JArr [JStr "a"; JStr "b"]);
                          ("needs_from_other", JStr "n")];
            error := None |} = Some d
    /\ Json.get d "satisfaction" = Some (JInt n) /\ 0 <= n <= 100.
Proof.
  destruct (parse_result_is_record_or_error Samples.spec_text _
              ltac:(vm_compute; reflexivity))
    as [[d [n [Hd [_ [_ [Hs Hn]]]]]]|[Hd _]]; [|discriminate].
  exists d, n. repeat split; assumption || apply Hn.
Defined.

(** A decoded object that lacks a required key is rejected with a message
    that names a required key it lacks: the first one in the order reply,
    satisfaction, key points, needs-from-other. *)
Theorem missing_key_is_named (text : string) (d : Json.dict) (key : string) :
  Json.loads text = Some (JObj d) ->
  In key required ->
  Json.mem key d = false ->
  exists k before after,
    _parse_output text = Returns {| data := None; error := Some ("Missing key: " +++ k) |}
    /\ required = before ++ k :: after
    /\ Json.mem k d = false
    /\ Forall (fun k' => Json.mem k' d = true) before.
Proof.
  intros Hl Hin Hmem. unfold _parse_output. rewrite Hl.
  destruct (missing_key required d) as [k|] eqn:Hk.
  - destruct (missing_key_some _ _ _ Hk) as [before [after [Hreq [Hm Hb]]]].
    exists k, before, after. repeat split; assumption.
  - exfalso. pose proof (missing_key_none _ _ Hk) as Hall.
    rewrite Forall_forall in Hall. specialize (Hall key Hin). congruence.
Qed.

Lemma missing_key_is_named_witness :
  exists k,
    _parse_output (Samples.q "{'reply_zh_tw':'r','key_points':[]}") =
      Returns {| data := None; error := Some ("Missing key: " +++ k) |}
    /\ k = "satisfaction".
Proof.
  destruct (missing_key_is_named
              (Samples.q "{'reply_zh_tw':'r','key_points':[]}")
              [("reply_zh_tw", JStr "r"); ("key_points", JArr [])]
              "needs_from_other" eq_refl
              ltac:(simpl; tauto) eq_refl)
    as [k [before [after [Hp [Hreq [Hm Hb]]]]]].
  exists k. split; [exact Hp|].
  clear - Hp. vm_compute in Hp. inversion Hp. reflexivity.
Defined.

(** Validating again what the validator returned changes nothing: a text
    that decodes to an accepted record is accepted with that same record. *)
Theorem validator_is_idempotent_on_its_output
    (text text' : string) (d' : Json.dict) :
  _parse_output text = Returns {| data := Some d'; error := None |} ->
  Json.loads text' = Some (JObj d') ->
  _parse_output text' = Returns {| data := Some d'; error := None |}.
Proof.
  intros H Hl.
  destruct (parse_output_shape _ _ H)
    as [[d [n [Hd [_ [Hw [Hs Hn]]]]]]|[Hd _]]; [|discriminate].
  cbn [data] in Hd. inversion Hd; subst d.
  rewrite (parse_output_in_range text' d' (JInt n) n Hl Hw Hs eq_refl Hn).
  unfold accepted. now rewrite (set_what_is_there _ _ _ Hs).
Qed.

Lemma validator_is_idempotent_on_its_output_witness :
  _parse_output
    (Samples.q "{'reply_zh_tw':'r','satisfaction':95,'key_points':['a','b'],'needs_from_other':'n'}")
  = _parse_output Samples.spec_text.
Proof.
  etransitivity.
  - apply (validator_is_idempotent_on_its_output Samples.spec_text _
             [("reply_zh_tw", JStr "r"); ("satisfaction", JInt 95);
              ("key_points", JArr [JStr "a"; JStr "b"]); ("needs_from_other", JStr "n")]);
      vm_compute; reflexivity.
  - vm_compute. reflexivity.
Defined.

End ValidatorMore.

(** ** More on the streaming client *)
Module ClientMore.
Import Eff Data Client Props MoreProps ClientFacts.
Import Json.

(** Unfolds the monadic steps of the stream loop. *)
Ltac unfold_steps :=
  unfold bind, lift, ret, raise, on_chunk_call, modify in *; simpl in *.

(** Under the fallback dialect nothing after the [data: [DONE]] line is
    read: the lines that follow it change neither the result nor the state. *)
Theorem nothing_is_read_after_done_sentinel
    (on_chunk : bool) (before : list string) (line : string) (after : list string) :
  Py.startswith line "data:" = true ->
  Py.strip (Py.drop 5 line) = "[DONE]" ->
  forall full_text raw n,
    consume true on_chunk (before ++ line :: after) full_text raw n
    = consume true on_chunk before full_text raw n.
Proof.
  intros Hp Hs.
  assert (Hne : Py.str_truthy line = true).
  { destruct line; [discriminate|reflexivity]. }
  induction before as [|line0 rest IH]; intros full_text raw n.
  - simpl app. cbn [consume]. rewrite Hne, Hp, Hs. reflexivity.
  - simpl app. cbn [consume].
    destruct (negb (Py.str_truthy line0)); [apply IH|].
    destruct (_ && String.eqb _ "[DONE]"); [reflexivity|].
    destruct (Json.loads _) as [data|]; [|apply IH].
    unfold bind, lift, ret, raise, on_chunk_call, modify.
    change (negb true) with false. cbv iota.
    destruct (has_error data) as [[|]|]; try reflexivity.
    destruct (extract_chunk true data) as [chunk|]; try reflexivity.
    destruct (Json.truthy chunk).
    + destruct chunk; try reflexivity.
      destruct on_chunk; cbv beta iota; apply IH.
    + apply IH.
Qed.

Lemma nothing_is_read_after_done_sentinel_witness :
  consume true true
    [Samples.q "data: {'choices':[{'delta':{'content':'He'}}]}"; "data: [DONE]";
     Samples.q "data: {'error':'late'}"] "" []
    {| replies := []; sent := []; chunks := [] |}
  = Ok ("He", [Samples.q "{'choices':[{'delta':{'content':'He'}}]}"])
       {| replies := []; sent := []; chunks := ["He"] |}.
Proof.
  rewrite (nothing_is_read_after_done_sentinel true
             [Samples.q "data: {'choices':[{'delta':{'content':'He'}}]}"]
             "data: [DONE]" [Samples.q "data: {'error':'late'}"]
             eq_refl eq_refl).
  vm_compute. reflexivity.
Defined.

Lemma py_get_raises (x : Json.value) (k : string) (default : Json.value) (e : exn) :
  py_get x k default = Raises e -> e = AttributeError.
Proof. destruct x; simpl; intros H; inversion H; reflexivity. Qed.

Lemma py_first_raises (x : Json.value) (e : exn) :
  py_first x = Raises e -> e = TypeError \/ e = IndexError \/ e = KeyError.
Proof.
  destruct x as [| | | |[|c s]|[|y l]|o]; simpl; intros H; inversion H; tauto.
Qed.

Lemma extract_chunk_never_runtime (u : bool) (data v : Json.value) :
  extract_chunk u data <> Raises (RuntimeError v).
Proof.
  unfold extract_chunk. intros H. destruct u.
  - destruct (py_get data "choices" (JArr [JObj []])) as [choices|e] eqn:E1.
    + destruct (py_first choices) as [choice|e] eqn:E2.
      * destruct (py_get choice "delta" (JObj [])) as [delta|e] eqn:E3.
        -- apply py_get_raises in H. discriminate.
        -- apply py_get_raises in E3. inversion H. congruence.
      * apply py_first_raises in E2. inversion H.
        destruct E2 as [-> | [-> | ->]]; discriminate.
    + apply py_get_raises in E1. inversion H. congruence.
  - destruct (py_get data "message" (JObj [])) as [message|e] eqn:E1.
    + apply py_get_raises in H. discriminate.
    + apply py_get_raises in E1. inversion H. congruence.
Qed.

(** The end of one pass of the loop: the [done] test, then the next line. *)
Ltac after_chunk H Hrest :=
  destruct (negb _) in H;
  [ let Hd := fresh "Hd" in
    destruct (py_get _ "done" JNull) as [?done|?e] eqn:Hd in H; simpl in H;
    [ destruct (Json.truthy _) in H; [discriminate|now apply Hrest in H]
    | apply py_get_raises in Hd; inversion H; congruence ]
  | now apply Hrest in H ].

Lemma consume_runtime_error (u oc : bool) (ls : list string) (v : Json.value) :
  forall full_text raw n n',
    consume u oc ls full_text raw n = Err (RuntimeError v) n' ->
    exists line d,
      In line ls /\ Json.loads (normal u line) = Some (JObj d)
      /\ Json.get d "error" = Some v.
Proof.
  induction ls as [|line0 rest IH]; intros full_text raw n n' H; [discriminate|].
  assert (Hrest : forall ft r m,
             consume u oc rest ft r m = Err (RuntimeError v) n' ->
             exists line d,
               In line (line0 :: rest) /\ Json.loads (normal u line) = Some (JObj d)
               /\ Json.get d "error" = Some v).
  { intros ft r m Hc. destruct (IH _ _ _ _ Hc) as [line [d [Hin Hd]]].
    exists line, d. split; [now right|exact Hd]. }
  cbn [consume] in H.
  destruct (negb (Py.str_truthy line0)); [now apply Hrest in H|].
  fold (normal u line0) in H.
  destruct (_ && String.eqb _ "[DONE]"); [discriminate|].
  destruct (Json.loads (normal u line0)) as [data|] eqn:Hl; [|now apply Hrest in H].
  unfold_steps.
  destruct (has_error data) as [[|]|] eqn:He; try discriminate.
  - destruct data as [| | | | | |d]; try discriminate. simpl in H.
    destruct (Json.get d "error") as [v'|] eqn:Hg; [|discriminate].
    inversion H; subst. exists line0, d. repeat split; [now left|assumption..].
  - destruct (extract_chunk u data) as [chunk|e] eqn:Hx.
    + destruct (Json.truthy chunk).
      * destruct chunk; try discriminate.
        destruct oc; simpl in H; after_chunk H Hrest.
      * after_chunk H Hrest.
    + inversion H; subst. exfalso. now apply (extract_chunk_never_runtime u data v).
  - destruct data; simpl in He; inversion He; subst; discriminate.
Qed.

(** An error record in the stream is a hard failure: a line that decodes to
    an object with an [error] field makes the loop raise [RuntimeError] with
    that field's value at once, before any later line is read; and a
    [RuntimeError] of the loop always carries the [error] field of a
    received line. *)
Theorem error_record_raises_its_value (using_openai on_chunk : bool) :
  (forall line rest d v full_text raw n,
      Json.loads (normal using_openai line) = Some (JObj d) ->
      Json.get d "error" = Some v ->
      consume using_openai on_chunk (line :: rest) full_text raw n
      = Err (RuntimeError v) n)
  /\ (forall ls v full_text raw n n',
        consume using_openai on_chunk ls full_text raw n = Err (RuntimeError v) n' ->
        exists line d,
          In line ls /\ Json.loads (normal using_openai line) = Some (JObj d)
          /\ Json.get d "error" = Some v).
Proof.
  split.
  - intros line rest d v full_text raw n Hl Hg.
    cbn [consume]. fold (normal using_openai line).
    assert (Hne : Py.str_truthy line = true).
    { destruct line; [|reflexivity]. unfold normal in Hl.
      rewrite andb_false_r in Hl. discriminate. }
    rewrite Hne. simpl negb. cbv iota.
    assert (Hnd : String.eqb (normal using_openai line) "[DONE]" = false).
    { destruct (String.eqb _ _) eqn:E; [|reflexivity].
      apply String.eqb_eq in E. rewrite E in Hl. discriminate. }
    rewrite Hnd, andb_false_r, Hl. unfold_steps.
    unfold Json.mem. rewrite Hg. reflexivity.
  - intros ls v full_text raw n n'. apply consume_runtime_error.
Qed.

Lemma error_record_raises_its_value_witness :
  consume false true [Samples.q "{'error':'boom'}"; Samples.q "{'message':{'content':'x'}}"]
          "" [] {| replies := []; sent := []; chunks := [] |}
  = Err (RuntimeError (JStr "boom")) {| replies := []; sent := []; chunks := [] |}.
Proof.
  apply (proj1 (error_record_raises_its_value false true) _ _
               [("error", JStr "boom")]); reflexivity.
Defined.

Lemma rev_string_acc (s acc : string) :
  Py.rev_string s acc = Py.rev_string s EmptyString +++ acc.
Proof.
  revert acc. induction s as [|c s IH]; intros acc; simpl; [reflexivity|].
  rewrite IH, (IH (String c EmptyString)), append_assoc. reflexivity.
Qed.

Lemma rev_string_append (a b : string) :
  Py.rev_string (a +++ b) EmptyString
  = Py.rev_string b EmptyString +++ Py.rev_string a EmptyString.
Proof.
  induction a as [|c a IH]; simpl.
  - now rewrite append_empty.
  - rewrite (rev_string_acc (a +++ b) (String c EmptyString)), IH,
            (rev_string_acc a (String c EmptyString)), append_assoc.
    reflexivity.
Qed.

Lemma rev_string_involutive (s : string) :
  Py.rev_string (Py.rev_string s EmptyString) EmptyString = s.
Proof.
  induction s as [|c s IH]; simpl; [reflexivity|].
  rewrite (rev_string_acc s (String c EmptyString)), rev_string_append, IH.
  reflexivity.
Qed.

Lemma rev_slashes (k : nat) : Py.rev_string (slashes k) EmptyString = slashes k.
Proof.
  induction k as [|k IH]; simpl; [reflexivity|].
  rewrite (rev_string_acc (slashes k) (String "/" EmptyString)), IH. clear IH.
  induction k as [|k IH]; simpl; [reflexivity|]. now rewrite IH.
Qed.

Lemma lstrip_slash_split (t : string) :
  exists k, t = slashes k +++ lstrip_slash t.
Proof.
  induction t as [|c t [k IH]]; simpl.
  - now exists 0%nat.
  - destruct (Ascii.eqb c "/") eqn:E.
    + apply Ascii.eqb_eq in E. subst c. exists (S k). simpl. now rewrite <- IH.
    + now exists 0%nat.
Qed.

Lemma lstrip_slash_head (t r : string) : lstrip_slash t <> String "/" r.
Proof.
  induction t as [|c t IH]; simpl; [discriminate|].
  destruct (Ascii.eqb c "/") eqn:E; [exact IH|].
  intros H. inversion H; subst. now rewrite Ascii.eqb_refl in E.
Qed.

(** The client is built on the base address with every trailing slash cut
    off and nothing else changed, so the two endpoint paths are appended
    after exactly one slash; building from an address already cut changes
    nothing. *)
Theorem init_cuts_trailing_slashes (base model : string) (timeout_s : Z) :
  (exists k, base = base_url (init base model timeout_s) +++ slashes k)
  /\ (forall s, base_url (init base model timeout_s) <> s +++ "/")
  /\ base_url (init (base_url (init base model timeout_s)) model timeout_s)
     = base_url (init base model timeout_s).
Proof.
  cbn [init base_url].
  set (u := lstrip_slash (Py.rev_string base EmptyString)).
  assert (Hno : forall s, Py.rev_string u EmptyString <> s +++ "/").
  { intros s H. apply (f_equal (fun x => Py.rev_string x EmptyString)) in H.
    rewrite rev_string_involutive, rev_string_append in H. simpl in H.
    now apply (lstrip_slash_head _ _ H). }
  split; [|split; [exact Hno|]].
  - destruct (lstrip_slash_split (Py.rev_string base EmptyString)) as [k Hk].
    fold u in Hk. exists k.
    rewrite <- (rev_string_involutive base), Hk, rev_string_append, rev_slashes.
    reflexivity.
  - rewrite rev_string_involutive.
    replace (lstrip_slash u) with u; [reflexivity|].
    subst u. generalize (lstrip_slash_head (Py.rev_string base EmptyString)).
    destruct (lstrip_slash (Py.rev_string base EmptyString)) as [|c r]; [reflexivity|].
    intros H. simpl. destruct (Ascii.eqb c "/") eqn:E; [|reflexivity].
    apply Ascii.eqb_eq in E. subst c. now destruct (H r).
Qed.

End ClientMore.

(** ** More on the run *)
Module RunMore.
Import Eff Data Orchestrator Props MoreProps TurnFacts RoundFacts.
Import Json.

(** What a turn adds, whichever way it ends: entries, prompts, and the
    replies it took from the servers. *)
Lemma turn_growth (cfg : Config) (turn : Z) (agent : Agents.AgentConfig) (st : State) :
  let o := _run_agent_turn cfg turn agent st in
  exists t p,
    transcript (final_state o) = transcript st ++ t
    /\ context (final_state o) = context st ++ filter goes_to_context t
    /\ prompts (final_state o) = prompts st ++ p
    /\ script (final_state o) = skipn (List.length p) (script st)
    /\ (List.length t <= List.length p)%nat
    /\ (List.length p <= 2)%nat
    /\ Forall (fun e => Data.agent e = Agents.name agent /\ Data.turn e = turn
                        /\ carries_record e) t
    /\ (forall r s, o = Ok r s ->
          exists e, r = Some e /\ filter goes_to_context t = [e]
                    /\ List.last t e = e
                    /\ Forall (fun x => valid x = false) (removelast t)).
Proof.
  cbv zeta.
  assert (Hone : forall a s e s', attempt_once cfg turn agent a s = Ok e s' ->
            script s' = skipn 1 (script s) /\ carries_record e).
  { intros a s e s'. rewrite attempt_once_cases.
    destruct (script s) as [|[out raw|x] rest]; try discriminate.
    destruct (_parse_output out) as [pr|] eqn:Hp; try discriminate.
    intros H. inversion H; subst. split; [reflexivity|].
    unfold carries_record, valid. cbn [parse_error parsed make_entry].
    destruct (parse_output_cases _ _ Hp) as [[d [n [-> _]]]|[_ He]].
    - intros _. now eexists.
    - now rewrite He. }
  destruct (run_agent_turn_shape cfg turn agent st) as [new Hshape].
  destruct (turn_shape_facts _ _ _ _ _ _ Hshape) as [Ht [Hc [Ha [Hg _]]]].
  remember (_run_agent_turn cfg turn agent st) as o eqn:Ho.
  destruct Hshape as [x H1|e1 s1 H1 Hv|e1 s1 x H1 Hv H2|e1 s1 e2 s2 H1 Hv H2];
    cbn [final_state] in *.
  - exists [], [envelope cfg agent 1 (context st)].
    repeat split; try assumption; try reflexivity; simpl; try lia; try constructor.
    intros r s Hrs. discriminate.
  - destruct (attempt_once_ok _ _ _ _ _ _ _ H1) as [_ [_ [Hp [_ [A1 [G1 [T1 _]]]]]]].
    destruct (Hone _ _ _ _ H1) as [Hs1 Hr1].
    exists [e1], [envelope cfg agent 1 (context st)].
    repeat split; try assumption; simpl; try lia; try (repeat constructor; assumption).
    intros r s Hrs. inversion Hrs; subst. exists e1.
    unfold goes_to_context. rewrite Hv. simpl. repeat split; constructor.
  - destruct (attempt_once_ok _ _ _ _ _ _ _ H1) as [_ [_ [Hp [_ [A1 [G1 [T1 _]]]]]]].
    destruct (Hone _ _ _ _ H1) as [Hs1 Hr1].
    exists [e1], [envelope cfg agent 1 (context st); envelope cfg agent 2 (context s1)].
    cbn [after_chat transcript context prompts script] in *.
    rewrite Hp, <- app_assoc.
    repeat split; try assumption; simpl; try lia; try (repeat constructor; assumption).
    + rewrite Hs1. now destruct (script st) as [|? [|? ?]].
    + intros r s Hrs. discriminate.
  - destruct (attempt_once_ok _ _ _ _ _ _ _ H1) as [_ [_ [Hp [_ [A1 [G1 [T1 _]]]]]]].
    destruct (attempt_once_ok _ _ _ _ _ _ _ H2) as [_ [_ [Hp' [_ [A2 [G2 [T2 _]]]]]]].
    destruct (Hone _ _ _ _ H1) as [Hs1 Hr1].
    destruct (Hone _ _ _ _ H2) as [Hs2 Hr2].
    exists [e1; e2], [envelope cfg agent 1 (context st); envelope cfg agent 2 (context s1)].
    rewrite Hp', Hp, <- app_assoc.
    repeat split; try assumption; simpl; try lia; try (repeat constructor; assumption).
    + rewrite Hs2, Hs1. now destruct (script st) as [|? [|? ?]].
    + intros r s Hrs. inversion Hrs; subst. exists e2.
      unfold goes_to_context. rewrite Hv, A1, A2. simpl. rewrite orb_true_r.
      repeat split. constructor; [assumption|constructor].
Qed.

Lemma grows_refl (st : State) : grows 0 st st.
Proof.
  exists [], [], []. rewrite !app_nil_r. simpl.
  repeat split; try constructor.
Qed.

Lemma grows_trans (a b : nat) (s1 s2 s3 : State) :
  grows a s1 s2 -> grows b s2 s3 -> grows (a + b) s1 s3.
Proof.
  intros [t1 [c1 [p1 [Ht1 [Hc1 [Hp1 [Hs1 [Hsub1 [Hl1 [Hb1 Hr1]]]]]]]]]]
         [t2 [c2 [p2 [Ht2 [Hc2 [Hp2 [Hs2 [Hsub2 [Hl2 [Hb2 Hr2]]]]]]]]]].
  exists (t1 ++ t2), (c1 ++ c2), (p1 ++ p2).
  rewrite Ht2, Ht1, Hc2, Hc1, Hp2, Hp1, Hs2, Hs1, !app_assoc, !length_app, skipn_skipn.
  repeat split; try reflexivity; try lia.
  - f_equal. lia.
  - now apply Subseq_app.
  - now apply Forall_app.
Qed.

Lemma grows_weaken (a b : nat) (s1 s2 : State) :
  (a <= b)%nat -> grows a s1 s2 -> grows b s1 s2.
Proof.
  intros Hab [t [c [p [Ht [Hc [Hp [Hs [Hsub [Hl [Hb Hr]]]]]]]]]].
  exists t, c, p. repeat split; try assumption. lia.
Qed.

Lemma turn_grows (cfg : Config) (turn : Z) (agent : Agents.AgentConfig) (st : State) :
  grows 2 st (final_state (_run_agent_turn cfg turn agent st)).
Proof.
  destruct (turn_growth cfg turn agent st)
    as [t [p [Ht [Hc [Hp [Hs [Hl [Hb [Hf _]]]]]]]]].
  exists t, (filter goes_to_context t), p.
  repeat split; try assumption; [apply Subseq_filter|].
  eapply Forall_impl; [|exact Hf]. simpl. tauto.
Qed.

Lemma agent_turns_grow (cfg : Config) (turn : Z) (names : list string) :
  forall lv st,
    grows (2 * List.length names) st (final_state (agent_turns cfg turn names lv st)).
Proof.
  induction names as [|agent_name rest IH]; intros lv st; [apply grows_refl|].
  rewrite agent_turns_unfold.
  pose proof (turn_grows cfg turn (agents cfg agent_name) st) as H1.
  destruct (_run_agent_turn cfg turn (agents cfg agent_name) st) as [r s1|x s1];
    cbn [final_state] in *.
  - eapply grows_weaken; [|eapply grows_trans; [exact H1|apply IH]]. simpl. lia.
  - eapply grows_weaken; [|exact H1]. simpl. lia.
Qed.

Lemma rounds_grow (cfg : Config) (turns : list Z) :
  forall loc st,
    grows (4 * List.length turns) st (final_state (rounds cfg turns loc st)).
Proof.
  induction turns as [|turn rest IH]; intros loc st; [apply grows_refl|].
  rewrite rounds_unfold.
  pose proof (agent_turns_grow cfg turn ["Agent A"; "Agent B"] (last_valid loc) st) as H1.
  destruct (agent_turns cfg turn ["Agent A"; "Agent B"] (last_valid loc) st)
    as [lv s1|x s1]; cbn [final_state] in *.
  - destruct (stable_rounds cfg <=? _); cbn [final_state].
    + eapply grows_weaken; [|exact H1]. simpl. lia.
    + eapply grows_weaken; [|eapply grows_trans; [exact H1|apply IH]]. simpl. lia.
  - eapply grows_weaken; [|exact H1]. simpl. lia.
Qed.

Lemma run_final_state (cfg : Config) (st : State) :
  final_state (run cfg st) =
    final_state (rounds cfg (range1 (max_turns cfg))
                   {| stable_count := 0; stop_reason := None; last_valid := [] |} st).
Proof.
  unfold run, bind. now destruct (rounds cfg _ _ st).
Qed.

Lemma range1_length (n : Z) : List.length (range1 n) = Z.to_nat n.
Proof. unfold range1. now rewrite length_map, length_seq. Qed.

(** Whatever happens in a run, returning or raising, the Transcript and the
    Context are only ever appended to, and the Context stays an ordered
    subsequence of the Transcript. *)
Theorem run_only_appends (cfg : Config) (st : State) :
  exists t c,
    transcript (final_state (run cfg st)) = transcript st ++ t
    /\ context (final_state (run cfg st)) = context st ++ c
    /\ Subseq c t
    /\ (Subseq (context st) (transcript st) ->
        Subseq (context (final_state (run cfg st)))
               (transcript (final_state (run cfg st)))).
Proof.
  rewrite run_final_state.
  destruct (rounds_grow cfg (range1 (max_turns cfg))
              {| stable_count := 0; stop_reason := None; last_valid := [] |} st)
    as [t [c [p [Ht [Hc [_ [_ [Hsub _]]]]]]]].
  exists t, c. repeat split; try assumption.
  intros H. rewrite Ht, Hc. now apply Subseq_app.
Qed.

Lemma run_only_appends_witness :
  let st := final_state (run (Samples.config 3 90 2 6 12)
                             (initial [Samples.bad; Samples.bad; Samples.ok "91";
                                       Samples.ok "92"; Samples.bad])) in
  Subseq (context st) (transcript st)
  /\ map digest (context st) =
       [(1, "Agent A", 2, false); (1, "Agent B", 1, true); (2, "Agent A", 1, true)]
  /\ List.length (transcript st) = 5%nat.
Proof.
  cbv zeta. split; [|split; vm_compute; reflexivity].
  destruct (run_only_appends (Samples.config 3 90 2 6 12)
              (initial [Samples.bad; Samples.bad; Samples.ok "91";
                        Samples.ok "92"; Samples.bad])) as [t [c [_ [_ [_ H]]]]].
  apply H. constructor.
Defined.

(** The cost of a run is bounded by its round budget: it makes at most four
    chat calls per round of the budget, takes exactly one reply for each
    call it makes, and records at most one Transcript entry per call. *)
Theorem run_makes_at_most_four_calls_per_round (cfg : Config) (script : list ChatReply) :
  let st' := final_state (run cfg (initial script)) in
  (List.length (prompts st') <= 4 * Z.to_nat (max_turns cfg))%nat
  /\ Orchestrator.script st' = skipn (List.length (prompts st')) script
  /\ (List.length (transcript st') <= List.length (prompts st'))%nat.
Proof.
  cbv zeta. rewrite run_final_state.
  destruct (rounds_grow cfg (range1 (max_turns cfg))
              {| stable_count := 0; stop_reason := None; last_valid := [] |}
              (initial script))
    as [t [c [p [Ht [_ [Hp [Hs [_ [Hl [Hb _]]]]]]]]]].
  rewrite range1_length in Hb. cbn [initial transcript prompts Orchestrator.script] in *.
  rewrite Ht, Hp, Hs. simpl. repeat split; assumption.
Qed.

(** A turn that returns puts exactly one entry into the context: the one
    it returns. *)
Lemma turn_context (cfg : Config) (turn : Z) (agent : Agents.AgentConfig)
    (st st' : State) (r : option Entry) :
  _run_agent_turn cfg turn agent st = Ok r st' ->
  exists e, r = Some e /\ context st' = context st ++ [e]
            /\ Data.turn e = turn /\ Data.agent e = Agents.name agent.
Proof.
  intros Ho.
  destruct (turn_growth cfg turn agent st)
    as [t [p [_ [Hc [_ [_ [_ [_ [Hf Hok]]]]]]]]].
  rewrite Ho in *. cbn [final_state] in *.
  destruct (Hok r st' eq_refl) as [e [-> [Hfil _]]].
  exists e. rewrite Hc, Hfil. split; [reflexivity|]. split; [reflexivity|].
  assert (Hin : In e t).
  { assert (H : In e (filter goes_to_context t)) by (rewrite Hfil; now left).
    now apply filter_In in H. }
  rewrite Forall_forall in Hf. destruct (Hf e Hin) as [Ha [Ht _]]. now split.
Qed.

Lemma round_context (cfg : Config) (turn : Z) (st st' : State)
    (lv lv' : list (string * Entry)) :
  agent_turns cfg turn ["Agent A"; "Agent B"] lv st = Ok lv' st' ->
  map (fun e => (Data.turn e, Data.agent e)) (context st')
  = map (fun e => (Data.turn e, Data.agent e)) (context st)
    ++ [(turn, "Agent A"); (turn, "Agent B")].
Proof.
  intros H. apply agent_turns_round in H.
  destruct H as [ea [eb [[sa [HA HB]] _]]].
  destruct (turn_context _ _ _ _ _ _ HA) as [ea' [Ea [Ca [Ta Na]]]].
  destruct (turn_context _ _ _ _ _ _ HB) as [eb' [Eb [Cb [Tb Nb]]]].
  inversion Ea; inversion Eb; subst ea' eb'.
  rewrite Cb, Ca, <- app_assoc, map_app. simpl.
  rewrite Ta, Tb, Na, Nb. reflexivity.
Qed.

Lemma rounds_context (cfg : Config) (turns : list Z) :
  forall loc st loc' st',
    rounds cfg turns loc st = Ok loc' st' ->
    exists k,
      (k <= List.length turns)%nat
      /\ map (fun e => (Data.turn e, Data.agent e)) (context st')
         = map (fun e => (Data.turn e, Data.agent e)) (context st)
           ++ one_per_turn (firstn k turns)
      /\ (stop_reason loc' = None -> k = List.length turns).
Proof.
  induction turns as [|turn rest IH]; intros loc st loc' st' H.
  - inversion H; subst. exists 0%nat. simpl. rewrite app_nil_r. auto.
  - rewrite rounds_unfold in H.
    destruct (agent_turns cfg turn ["Agent A"; "Agent B"] (last_valid loc) st)
      as [lv s1|x s1] eqn:Hat; [|discriminate].
    pose proof (round_context _ _ _ _ _ _ Hat) as Hc1.
    destruct (stable_rounds cfg <=? _).
    + inversion H; subst. exists 1%nat. simpl. rewrite Hc1.
      repeat split; [lia|discriminate].
    + destruct (IH _ _ _ _ H) as [k [Hk [Hc Hn]]].
      exists (S k). simpl. rewrite Hc, Hc1, <- app_assoc.
      repeat split; [lia|]. intros Hs. now rewrite (Hn Hs).
Qed.

(** In a run that returns, the Context holds exactly one entry for each
    turn of each round that was played, agent A's before agent B's, round
    after round; when the run ends on its budget, that is every round of
    the budget. *)
Theorem context_has_one_entry_per_turn
    (cfg : Config) (script : list ChatReply) (r : Report) (s : State) :
  run cfg (initial script) = Ok r s ->
  exists k,
    (k <= Z.to_nat (max_turns cfg))%nat
    /\ map (fun e => (Data.turn e, Data.agent e)) (context s)
       = one_per_turn (firstn k (range1 (max_turns cfg)))
    /\ (final_stop_reason r = BudgetExhausted (max_turns cfg) ->
        k = Z.to_nat (max_turns cfg)).
Proof.
  unfold run, bind.
  destruct (rounds cfg (range1 (max_turns cfg)) _ (initial script))
    as [loc' s'|x s'] eqn:Hr; [|discriminate].
  intros H. inversion H; subst; clear H.
  destruct (rounds_context _ _ _ _ _ _ Hr) as [k [Hk [Hc Hn]]].
  rewrite range1_length in *. exists k. split; [exact Hk|]. split; [exact Hc|].
  cbn [final_stop_reason]. destruct (stop_reason loc') as [reason|] eqn:Hs; [|auto].
  intros ->. exfalso. clear - Hr Hs.
  assert (Hgen : forall turns loc st loc' st',
             rounds cfg turns loc st = Ok loc' st' ->
             stop_reason loc = None ->
             forall m, stop_reason loc' <> Some (BudgetExhausted m)).
  { induction turns as [|turn rest IH]; intros loc st loc1 st1 H Hnone m.
    - inversion H; subst. now rewrite Hnone.
    - rewrite rounds_unfold in H.
      destruct (agent_turns cfg turn ["Agent A"; "Agent B"] (last_valid loc) st)
        as [lv s1|x s1]; [|discriminate].
      destruct (stable_rounds cfg <=? _).
      + inversion H; subst. discriminate.
      + apply (IH _ _ _ _ H). exact Hnone. }
  exact (Hgen _ _ _ _ _ Hr eq_refl _ Hs).
Qed.

Lemma context_has_one_entry_per_turn_witness :
  exists k,
    map (fun e => (Data.turn e, Data.agent e))
        (context (final_state (run (Samples.config 2 90 5 6 12)
                                   (initial [Samples.ok "95"; Samples.bad; Samples.bad;
                                             Samples.bad; Samples.ok "96";
                                             Samples.ok "97"]))))
    = one_per_turn (firstn k (range1 2))
    /\ k = 2%nat.
Proof.
  destruct (context_has_one_entry_per_turn (Samples.config 2 90 5 6 12)
              (initial [Samples.ok "95"; Samples.bad; Samples.bad;
                        Samples.bad; Samples.ok "96"; Samples.ok "97"]).(script)
              _ _ ltac:(vm_compute; reflexivity)) as [k [Hk [Hc Hb]]].
  exists k. split.
  - etransitivity; [|exact Hc]. vm_compute. reflexivity.
  - apply Hb. vm_compute. reflexivity.
Defined.

(** How the loop of [run] ends when it returns: stopped on stability with
    the counter at the required number or above, or run through all its
    rounds with the last counter below it. *)
Lemma rounds_end (cfg : Config) (turns : list Z) :
  forall loc st loc' st',
    rounds cfg turns loc st = Ok loc' st' ->
    stop_reason loc = None ->
    turns <> [] ->
    (stop_reason loc' = Some (StabilityReached (stable_rounds cfg) (min_satisfaction cfg))
     /\ stable_rounds cfg <= stable_count loc')
    \/ (stop_reason loc' = None /\ stable_count loc' < stable_rounds cfg).
Proof.
  induction turns as [|turn rest IH]; intros loc st loc' st' H Hnone Hne;
    [contradiction|].
  rewrite rounds_unfold in H.
  destruct (agent_turns cfg turn ["Agent A"; "Agent B"] (last_valid loc) st)
    as [lv s1|x s1]; [|discriminate].
  destruct (stable_rounds cfg <=? _) eqn:E.
  - inversion H; subst. left. split; [reflexivity|]. cbn [stable_count].
    now apply Z.leb_le in E.
  - destruct rest as [|turn' rest'].
    + inversion H; subst. right. cbn [stop_reason stable_count].
      split; [exact Hnone|]. now apply Z.leb_gt in E.
    + apply (IH _ _ _ _ H); [exact Hnone|discriminate].
Qed.

(** With a budget of at least one round, a run that returns reports the
    target as reached exactly when it stopped on stability: either target
    reached with the stability reason, or target missed with the
    budget-exhausted reason and a final counter below the required number.
    With a budget of zero or less no chat call is made and the reason is
    budget exhausted, yet the target is flagged reached when the required
    number is itself zero or less. *)
Theorem reached_target_matches_stop_reason (cfg : Config) (st : State) :
  (1 <= max_turns cfg ->
   forall r s, run cfg st = Ok r s ->
     (reached_target r = true
      /\ final_stop_reason r = StabilityReached (stable_rounds cfg) (min_satisfaction cfg))
     \/ (reached_target r = false
         /\ final_stop_reason r = BudgetExhausted (max_turns cfg)
         /\ final_stable_count r < stable_rounds cfg))
  /\ (max_turns cfg <= 0 ->
      run cfg st = Ok {| final_stable_count := 0;
                         final_stop_reason := BudgetExhausted (max_turns cfg);
                         final_last_valid := [];
                         reached_target := stable_rounds cfg <=? 0 |} st).
Proof.
  split.
  - intros Hm r s. unfold run, bind.
    destruct (rounds cfg (range1 (max_turns cfg)) _ st) as [loc' s'|x s'] eqn:Hr;
      [|discriminate].
    intros H. inversion H; subst; clear H. cbn [reached_target final_stop_reason
                                                final_stable_count].
    destruct (rounds_end _ _ _ _ _ _ Hr eq_refl) as [[Hs Hc]|[Hs Hc]].
    + intros E. apply (f_equal (@List.length Z)) in E.
      rewrite range1_length in E. simpl in E. lia.
    + left. rewrite Hs. split; [now apply Z.leb_le|reflexivity].
    + right. rewrite Hs. repeat split; [now apply Z.leb_gt|exact Hc].
  - intros Hm. unfold run, bind, range1.
    replace (Z.to_nat (max_turns cfg)) with 0%nat by lia. reflexivity.
Qed.

Lemma reached_target_matches_stop_reason_witness :
  let budget := run (Samples.config 1 90 2 6 12)
                    (initial [Samples.ok "95"; Samples.ok "96"]) in
  let none := run (Samples.config 0 90 0 6 12) (initial [Samples.ok "95"]) in
  option_map reached_target (report_of budget) = Some false
  /\ option_map final_stop_reason (report_of budget) = Some (BudgetExhausted 1)
  /\ option_map reached_target (report_of none) = Some true
  /\ option_map final_stop_reason (report_of none) = Some (BudgetExhausted 0).
Proof.
  cbv zeta.
  destruct (reached_target_matches_stop_reason (Samples.config 1 90 2 6 12)
              (initial [Samples.ok "95"; Samples.ok "96"])) as [H1 _].
  destruct (reached_target_matches_stop_reason (Samples.config 0 90 0 6 12)
              (initial [Samples.ok "95"])) as [_ H0].
  specialize (H0 ltac:(simpl; lia)).
  destruct (run (Samples.config 1 90 2 6 12) (initial [Samples.ok "95"; Samples.ok "96"]))
    as [r s|x s] eqn:Hr; [|vm_compute in Hr; discriminate].
  destruct (H1 ltac:(simpl; lia) r s eq_refl) as [[Ht Hs]|[Ht [Hs _]]].
  - exfalso. vm_compute in Hr. inversion Hr; subst. discriminate.
  - rewrite H0. cbn [report_of option_map reached_target final_stop_reason].
    rewrite Ht, Hs. repeat split.
Defined.

Lemma latest_valid_app (tr new : list Entry) (agent_name : string) :
  latest_valid (tr ++ new) agent_name =
    match latest_valid new agent_name with
    | Some e => Some e
    | None => latest_valid tr agent_name
    end.
Proof. unfold latest_valid. rewrite rev_app_distr. apply find_app. Qed.

Lemma latest_valid_none (new : list Entry) (agent_name : string) :
  Forall (fun e => Data.agent e <> agent_name \/ valid e = false) new ->
  latest_valid new agent_name = None.
Proof.
  unfold latest_valid. intros H. apply Forall_rev in H.
  induction H as [|e l He _ IH]; simpl; [reflexivity|].
  destruct He as [He | He].
  - apply String.eqb_neq in He. now rewrite He.
  - now rewrite He, andb_false_r.
Qed.

Lemma get_set_entry (lv : list (string * Entry)) (k : string) (e : Entry)
    (agent_name : string) :
  get_entry (set_entry lv k e) agent_name =
    if String.eqb k agent_name then Some e else get_entry lv agent_name.
Proof.
  induction lv as [|[k' e'] lv IH]; simpl; [reflexivity|].
  destruct (String.eqb k' k) eqn:E; simpl.
  - apply String.eqb_eq in E. subst k'.
    destruct (String.eqb k agent_name); reflexivity.
  - destruct (String.eqb k' agent_name) eqn:E'.
    + apply String.eqb_eq in E'. subst k'.
      rewrite String.eqb_sym in E. now rewrite E.
    + exact IH.
Qed.

(** A turn that returns keeps [last_valid] in step with the transcript. *)
Lemma turn_keeps_agreement (cfg : Config) (turn : Z) (agent_name : string)
    (st st' : State) (e : Entry) (lv : list (string * Entry)) :
  _run_agent_turn cfg turn (agents cfg agent_name) st = Ok (Some e) st' ->
  agrees lv (transcript st) ->
  agrees (record_valid lv agent_name e) (transcript st').
Proof.
  intros Ho Hag name.
  destruct (turn_growth cfg turn (agents cfg agent_name) st)
    as [t [p [Ht [_ [_ [_ [_ [_ [Hf Hok]]]]]]]]].
  rewrite Ho in *. cbn [final_state agents Agents.name] in *.
  destruct (Hok _ _ eq_refl) as [e' [Ee [Hfil [Hlast Hinit]]]].
  inversion Ee; subst e'; clear Ee.
  assert (Hne : t <> []) by (intros ->; discriminate).
  pose proof (app_removelast_last e Hne) as Hsplit. rewrite Hlast in Hsplit.
  assert (Hagent : Data.agent e = agent_name).
  { rewrite Forall_forall in Hf. apply (Hf e). rewrite Hsplit.
    apply in_or_app. right. now left. }
  rewrite Ht, latest_valid_app. unfold record_valid.
  destruct (String.eqb agent_name name) eqn:En.
  - apply String.eqb_eq in En. subst name.
    destruct (valid e) eqn:Hv.
    + rewrite get_set_entry, String.eqb_refl, Hsplit.
      unfold latest_valid. rewrite rev_app_distr. simpl.
      now rewrite Hagent, String.eqb_refl, Hv.
    + rewrite latest_valid_none; [apply Hag|].
      rewrite Hsplit. apply Forall_app. split.
      * eapply Forall_impl; [|exact Hinit]. simpl. tauto.
      * constructor; [now right|constructor].
  - rewrite latest_valid_none.
    + destruct (valid e); [|apply Hag]. rewrite get_set_entry, En. apply Hag.
    + eapply Forall_impl; [|exact Hf]. simpl. intros x [Hx _]. left.
      rewrite Hx. now apply String.eqb_neq.
Qed.

Lemma rounds_keep_agreement (cfg : Config) (turns : list Z) :
  forall loc st loc' st',
    rounds cfg turns loc st = Ok loc' st' ->
    agrees (last_valid loc) (transcript st) ->
    agrees (last_valid loc') (transcript st').
Proof.
  induction turns as [|turn rest IH]; intros loc st loc' st' H Hag.
  - inversion H; subst. exact Hag.
  - rewrite rounds_unfold in H.
    destruct (agent_turns cfg turn ["Agent A"; "Agent B"] (last_valid loc) st)
      as [lv s1|x s1] eqn:Hat; [|discriminate].
    apply agent_turns_round in Hat.
    destruct Hat as [ea [eb [[sa [HA HB]] ->]]].
    pose proof (turn_keeps_agreement _ _ _ _ _ _ _ HA Hag) as H1.
    pose proof (turn_keeps_agreement _ _ _ _ _ _ _ HB H1) as H2.
    destruct (stable_rounds cfg <=? _).
    + inversion H; subst. exact H2.
    + apply (IH _ _ _ _ H). exact H2.
Qed.

Lemma run_agreement (cfg : Config) (script : list ChatReply) (r : Report) (s : State) :
  run cfg (initial script) = Ok r s ->
  agrees (final_last_valid r) (transcript s).
Proof.
  unfold run, bind.
  destruct (rounds cfg (range1 (max_turns cfg)) _ (initial script))
    as [loc' s'|x s'] eqn:Hr; [|discriminate].
  intros H. inversion H; subst. cbn [final_last_valid].
  apply (rounds_keep_agreement _ _ _ _ _ _ Hr). intros name. reflexivity.
Qed.

(** What the final report is given as each agent's last valid entry is that
    agent's latest Transcript entry that parsed, if it has one; an agent
    that never answered validly has none. *)
Theorem last_valid_is_latest_valid_entry
    (cfg : Config) (script : list ChatReply) (r : Report) (s : State) :
  run cfg (initial script) = Ok r s ->
  forall agent_name,
    get_entry (final_last_valid r) agent_name = latest_valid (transcript s) agent_name.
Proof. intros H. exact (run_agreement cfg script r s H). Qed.

Lemma last_valid_is_latest_valid_entry_witness :
  let o := run (Samples.config 2 90 5 6 12)
               (initial [Samples.ok "95"; Samples.bad; Samples.bad;
                         Samples.ok "96"; Samples.bad; Samples.bad]) in
  option_map (fun r => option_map digest (get_entry (final_last_valid r) "Agent A"))
             (report_of o) = Some (Some (2, "Agent A", 1, true))
  /\ option_map (fun r => get_entry (final_last_valid r) "Agent B") (report_of o)
     = Some None.
Proof.
  cbv zeta.
  destruct (run (Samples.config 2 90 5 6 12)
                (initial [Samples.ok "95"; Samples.bad; Samples.bad;
                          Samples.ok "96"; Samples.bad; Samples.bad]))
    as [r s|x s] eqn:Hr; [|vm_compute in Hr; discriminate].
  cbn [report_of option_map].
  rewrite !(last_valid_is_latest_valid_entry _ _ _ _ Hr).
  vm_compute in Hr. inversion Hr; subst. split; vm_compute; reflexivity.
Defined.

End RunMore.

(** ** The final report *)
Module ReportMore.
Import Eff Data Orchestrator Props MoreProps Report RoundFacts RunMore.

Lemma print_all_ok (texts out : list string) :
  print_all texts out = Ok tt (out ++ texts).
Proof.
  revert out. induction texts as [|t r IH]; intros out; simpl.
  - now rewrite app_nil_r.
  - unfold bind, print, modify. rewrite IH, <- app_assoc. reflexivity.
Qed.


Lemma seen_has_In (seen : list string) (item : string) :
  seen_has seen item = true <-> In item seen.
Proof.
  unfold seen_has. rewrite existsb_exists. split.
  - intros [x [Hx E]]. apply String.eqb_eq in E. now subst.
  - intros H. exists item. split; [exact H|apply String.eqb_refl].
Qed.

Lemma first_seen_spec (items : list string) :
  forall seen,
    NoDup (first_seen items seen)
    /\ (forall x, In x (first_seen items seen) <-> In x items /\ ~ In x seen)
    /\ Subseq (first_seen items seen) items.
Proof.
  induction items as [|item rest IH]; intros seen; simpl.
  - split; [constructor|]. split; [tauto|constructor].
  - destruct (seen_has seen item) eqn:Hs.
    + apply seen_has_In in Hs.
      destruct (IH seen) as [Hn [Hi Hsub]].
      split; [exact Hn|]. split; [|now apply Subseq_skip].
      intros x. rewrite Hi. split; [tauto|].
      intros [[-> | Hx] Hnot]; [contradiction|tauto].
    + assert (Hnot : ~ In item seen).
      { intros Hin. apply seen_has_In in Hin. congruence. }
      destruct (IH (item :: seen)) as [Hn [Hi Hsub]].
      split; [|split; [|now apply Subseq_keep]].
      * constructor; [|exact Hn]. rewrite Hi. simpl. tauto.
      * intros x. simpl. rewrite Hi. simpl.
        destruct (string_dec item x) as [-> | Hne]; tauto.
Qed.

Lemma nodup_snoc (l : list string) (x : string) :
  nodup string_dec (l ++ [x]) =
    nodup string_dec (filter (fun y => negb (String.eqb y x)) l) ++ [x].
Proof.
  induction l as [|y l IH]; [reflexivity|].
  cbn [app nodup filter].
  destruct (String.eqb y x) eqn:E; cbn [negb].
  - apply String.eqb_eq in E. subst y.
    destruct (in_dec string_dec x (l ++ [x])) as [_|Hn]; [exact IH|].
    exfalso. apply Hn. apply in_or_app. right. now left.
  - apply String.eqb_neq in E. cbn [nodup].
    destruct (in_dec string_dec y (l ++ [x])) as [Hi|Hn];
      destruct (in_dec string_dec y (filter (fun y0 => negb (String.eqb y0 x)) l))
        as [Hi'|Hn'].
    + exact IH.
    + exfalso. apply Hn'. apply filter_In. split.
      * apply in_app_or in Hi. destruct Hi as [Hi|[Hi|[]]]; [exact Hi|congruence].
      * apply negb_true_iff. now apply String.eqb_neq.
    + exfalso. apply Hn. apply in_or_app. left.
      apply filter_In in Hi'. now destruct Hi'.
    + cbn [app]. now rewrite IH.
Qed.

Lemma filter_rev {A : Type} (f : A -> bool) (l : list A) :
  filter f (rev l) = rev (filter f l).
Proof.
  induction l as [|x l IH]; [reflexivity|].
  simpl. rewrite filter_app, IH. simpl.
  destruct (f x); simpl; [reflexivity|now rewrite app_nil_r].
Qed.

Lemma filter_filter {A : Type} (f g : A -> bool) (l : list A) :
  filter f (filter g l) = filter (fun x => g x && f x) l.
Proof.
  induction l as [|x l IH]; [reflexivity|].
  simpl. destruct (g x); simpl; [destruct (f x)|]; now rewrite ?IH.
Qed.

(** The loop keeps the first occurrence of each item not seen before, which
    is what dropping all but the last occurrence does on the reversed list. *)
Lemma first_seen_is_first_occurrences (items : list string) :
  forall seen,
    first_seen items seen =
      rev (nodup string_dec (rev (filter (fun x => negb (seen_has seen x)) items))).
Proof.
  induction items as [|item rest IH]; intros seen; [reflexivity|].
  cbn [first_seen filter].
  destruct (seen_has seen item) eqn:Hs; cbn [negb]; [apply IH|].
  cbn [rev]. rewrite nodup_snoc, rev_app_distr. cbn [rev app].
  f_equal. rewrite IH, filter_rev, filter_filter.
  do 3 f_equal. apply filter_ext. intros x.
  unfold seen_has. cbn [existsb].
  rewrite negb_orb. apply andb_comm.
Qed.

Lemma filter_nothing_seen (l : list string) :
  filter (fun x => negb (seen_has [] x)) l = l.
Proof.
  induction l as [|x l IH]; [reflexivity|].
  cbn [filter]. change (negb (seen_has [] x)) with true. cbn iota.
  f_equal. exact IH.
Qed.

Lemma consensus_ok (last_valid : list (string * Entry)) (out : list string) :
  _print_consensus_summary last_valid out =
    Ok tt (out ++ (Py.nl +++ "系統整合共識摘要：")
               :: match first_seen (consensus_points ["Agent A"; "Agent B"] last_valid) [] with
                  | [] => [no_consensus]
                  | _ :: _ =>
                      map (fun item => "- " +++ item)
                          (first_seen (consensus_points ["Agent A"; "Agent B"] last_valid) [])
                  end).
Proof.
  unfold _print_consensus_summary, bind, print, modify.
  destruct (consensus_points ["Agent A"; "Agent B"] last_valid) as [|item rest].
  - simpl. rewrite <- app_assoc. reflexivity.
  - rewrite print_all_ok, <- app_assoc. simpl. reflexivity.
Qed.

Lemma last_n_app {A : Type} (k : Z) (a b : list A) :
  (Z.to_nat k <= List.length b)%nat -> Py.last_n k (a ++ b) = Py.last_n k b.
Proof.
  intros H. unfold Py.last_n. rewrite length_app, skipn_app.
  rewrite skipn_all2 by lia. simpl. f_equal. lia.
Qed.

Lemma filter_twice {A : Type} (f : A -> bool) (l : list A) :
  filter f (filter f l) = filter f l.
Proof.
  induction l as [|x l IH]; simpl; [reflexivity|].
  destruct (f x) eqn:E; simpl; [rewrite E, IH|]; auto.
Qed.

Lemma recent_valid_tail (old new : list Entry) :
  (10 <= List.length (filter valid new))%nat ->
  recent_valid (old ++ new) = recent_valid (filter valid new).
Proof.
  intros H. unfold recent_valid.
  change (fun e => negb (opt_truthy (parse_error e))) with valid.
  rewrite filter_app, filter_twice. apply last_n_app. simpl. exact H.
Qed.





(** The consensus summary prints the key points of the two last valid
    entries, Agent A's first, each once and in the order of first
    appearance: the list with every later repetition left out.  With no key
    point at all it prints the one line that says so. *)
Theorem consensus_prints_each_point_once
    (last_valid : list (string * Entry)) (out : list string) :
  let points := consensus_points ["Agent A"; "Agent B"] last_valid in
  let firsts := rev (nodup string_dec (rev points)) in
  _print_consensus_summary last_valid out =
    Ok tt (out ++ (Py.nl +++ "系統整合共識摘要：")
               :: match points with
                  | [] => [no_consensus]
                  | _ => map (fun item => "- " +++ item) firsts
                  end)
  /\ NoDup firsts
  /\ (forall x, In x firsts <-> In x points)
  /\ Subseq firsts points.
Proof.
  intros points firsts.
  assert (Hf : first_seen points [] = firsts).
  { rewrite first_seen_is_first_occurrences, filter_nothing_seen. reflexivity. }
  destruct (first_seen_spec points []) as [Hn [Hi Hs]]. rewrite Hf in Hn, Hi, Hs.
  split.
  - rewrite consensus_ok. fold points. rewrite Hf.
    destruct points as [|p ps] eqn:Ep; [reflexivity|].
    destruct firsts as [|f fs] eqn:Ef; [|reflexivity].
    exfalso. destruct (Hi p) as [_ Hin]. apply Hin. split; [now left|intros []].
  - split; [exact Hn|]. split; [|exact Hs].
    intros x. rewrite Hi. simpl. tauto.
Qed.

(** The inferred reasons are never empty and never more than two. *)
Theorem unmet_reasons_are_one_or_two (transcript : list Entry) :
  (1 <= List.length (_infer_unmet_reasons transcript) <= 2)%nat.
Proof.
  unfold _infer_unmet_reasons.
  destruct (recent_needs (recent_valid transcript));
    destruct (recent_points (recent_valid transcript)); simpl; lia.
Qed.

(** The inferred reasons read only the last ten entries that parsed: once a
    stretch of the transcript holds ten valid entries, whatever came before
    it, and every entry with a parse error, makes no difference. *)
Theorem unmet_reasons_read_last_ten_valid_entries (old new : list Entry) :
  (10 <= List.length (filter valid new))%nat ->
  _infer_unmet_reasons (old ++ new) = _infer_unmet_reasons (filter valid new).
Proof.
  intros H. unfold _infer_unmet_reasons. now rewrite (recent_valid_tail old new H).
Qed.

Lemma unmet_reasons_read_last_ten_valid_entries_witness :
  let old := transcript (final_state (run (Samples.config 1 90 2 6 12)
                 (initial [Samples.bad; Samples.bad; Samples.ok "10"]))) in
  let new := transcript (final_state (run (Samples.config 5 101 2 6 12)
                 (initial (repeat (Samples.ok "95") 10)))) in
  _infer_unmet_reasons (old ++ new) = _infer_unmet_reasons (filter valid new).
Proof.
  cbv zeta. apply unmet_reasons_read_last_ten_valid_entries.
  vm_compute. repeat constructor.
Defined.

End ReportMore.

(** ** Making an entry writable *)
Module PersistMore.
Import Persist MoreProps.

Lemma pyval_induction (P : pyval -> Prop) :
  P VNone -> (forall b, P (VBool b)) -> (forall n, P (VInt n)) ->
  (forall f, P (VFloat f)) -> (forall s, P (VStr s)) -> (forall b, P (VBytes b)) ->
  (forall items, Forall P items -> P (VList items)) ->
  (forall items, Forall P items -> P (VTuple items)) ->
  (forall fields, Forall (fun kv => P (snd kv)) fields -> P (VDict fields)) ->
  forall v, P v.
Proof.
  intros HN HB HI HF HS HY HL HT HD. fix IH 1.
  intros [ | b | n | f | s | b | items | items | fields];
    [apply HN | apply HB | apply HI | apply HF | apply HS | apply HY | | | ].
  - apply HL. induction items as [|x r IHr]; constructor; [apply IH|exact IHr].
  - apply HT. induction items as [|x r IHr]; constructor; [apply IH|exact IHr].
  - apply HD. induction fields as [|[k x] r IHr]; constructor; [apply IH|exact IHr].
Qed.

Lemma json_induction (P : Json.value -> Prop) :
  P Json.JNull -> (forall b, P (Json.JBool b)) -> (forall n, P (Json.JInt n)) ->
  (forall f, P (Json.JFloat f)) -> (forall s, P (Json.JStr s)) ->
  (forall items, Forall P items -> P (Json.JArr items)) ->
  (forall fields, Forall (fun kv => P (snd kv)) fields -> P (Json.JObj fields)) ->
  forall v, P v.
Proof.
  intros HN HB HI HF HS HL HD. fix IH 1.
  intros [ | b | n | f | s | items | fields];
    [apply HN | apply HB | apply HI | apply HF | apply HS | | ].
  - apply HL. induction items as [|x r IHr]; constructor; [apply IH|exact IHr].
  - apply HD. induction fields as [|[k x] r IHr]; constructor; [apply IH|exact IHr].
Qed.

Section Safe.

Variable decode : string -> string.

Lemma over_enumerate_spec (f : pyval -> string -> pyval * list string)
    (path : string) (items : list pyval) :
  Forall (safe_at f) items ->
  forall i,
    forallb writable (fst (over_enumerate f path items i)) = true
    /\ List.length (snd (over_enumerate f path items i)) = list_sum (map bytes_count items)
    /\ (forallb writable items = true -> over_enumerate f path items i = (items, [])).
Proof.
  induction 1 as [|x r Hx _ IH]; intros i; simpl; [auto|].
  destruct (Hx (path +++ "[" +++ str_of_index i +++ "]")) as [H1 [H2 H3]].
  destruct (f x _) as [v' w].
  destruct (IH (S i)) as [H4 [H5 H6]].
  destruct (over_enumerate f path r (S i)) as [r' w']. simpl in *.
  split; [now rewrite H1, H4|]. split; [rewrite length_app; lia|].
  intros Hw. apply andb_true_iff in Hw. destruct Hw as [Hw1 Hw2].
  specialize (H3 Hw1). specialize (H6 Hw2). now inversion H3; inversion H6; subst.
Qed.

Lemma over_items_spec (f : pyval -> string -> pyval * list string)
    (path : string) (fields : list (string * pyval)) :
  Forall (fun kv => safe_at f (snd kv)) fields ->
  forallb (fun kv => writable (snd kv)) (fst (over_items f path fields)) = true
  /\ List.length (snd (over_items f path fields))
     = list_sum (map (fun kv => bytes_count (snd kv)) fields)
  /\ (forallb (fun kv => writable (snd kv)) fields = true ->
      over_items f path fields = (fields, [])).
Proof.
  induction 1 as [|[k x] r Hx _ IH]; [simpl; auto|].
  cbn [over_items snd map list_sum forallb] in *.
  destruct (Hx (path +++ "." +++ k)) as [H1 [H2 H3]].
  destruct (f x (path +++ "." +++ k)) as [v' w].
  destruct IH as [H4 [H5 H6]].
  destruct (over_items f path r) as [r' w']. simpl in *.
  split; [now rewrite H1, H4|]. split; [rewrite length_app; lia|].
  intros Hw. apply andb_true_iff in Hw. destruct Hw as [Hw1 Hw2].
  specialize (H3 Hw1). specialize (H6 Hw2). now inversion H3; inversion H6; subst.
Qed.

Lemma json_safe_spec (v : pyval) : safe_at (_json_safe decode) v.
Proof.
  induction v as [ | b | n | f | s | b | items IH | items IH | fields IH]
    using pyval_induction; intros p; cbn [_json_safe]; try (simpl; now auto).
  - destruct (over_enumerate_spec (_json_safe decode) p items IH 0%nat) as [H1 [H2 H3]].
    destruct (over_enumerate (_json_safe decode) p items 0%nat) as [items' w].
    simpl in *. split; [exact H1|]. split; [exact H2|].
    intros Hw. specialize (H3 Hw). now inversion H3.
  - destruct (over_enumerate_spec (_json_safe decode) p items IH 0%nat) as [H1 [H2 H3]].
    destruct (over_enumerate (_json_safe decode) p items 0%nat) as [items' w].
    simpl in *. split; [exact H1|]. split; [exact H2|discriminate].
  - destruct (over_items_spec (_json_safe decode) p fields IH) as [H1 [H2 H3]].
    destruct (over_items (_json_safe decode) p fields) as [fields' w].
    simpl in *. split; [exact H1|]. split; [exact H2|].
    intros Hw. specialize (H3 Hw). now inversion H3.
Qed.

Lemma json_safe_fixed (v : pyval) (p : string) :
  writable v = true -> _json_safe decode v p = (v, []).
Proof. intros H. now apply (json_safe_spec v p). Qed.

Lemma over_items_fixed (path : string) (fields : list (string * pyval)) :
  forallb (fun kv => writable (snd kv)) fields = true ->
  over_items (_json_safe decode) path fields = (fields, []).
Proof.
  apply over_items_spec. apply Forall_forall. intros kv _. apply json_safe_spec.
Qed.

Lemma over_enumerate_fixed (path : string) (items : list pyval) (i : nat) :
  forallb writable items = true ->
  over_enumerate (_json_safe decode) path items i = (items, []).
Proof.
  apply over_enumerate_spec. apply Forall_forall. intros kv _. apply json_safe_spec.
Qed.

Lemma over_enumerate_app (f : pyval -> string -> pyval * list string)
    (path : string) (a b : list pyval) :
  forall i,
    over_enumerate f path (a ++ b) i =
      (fst (over_enumerate f path a i)
         ++ fst (over_enumerate f path b (i + List.length a)),
       snd (over_enumerate f path a i)
         ++ snd (over_enumerate f path b (i + List.length a))).
Proof.
  induction a as [|x a IH]; intros i; simpl.
  - rewrite Nat.add_0_r. now destruct (over_enumerate f path b i).
  - rewrite IH. destruct (f x _) as [v' w].
    replace (i + S (List.length a))%nat with (S i + List.length a)%nat by lia.
    destruct (over_enumerate f path a (S i)) as [a' wa].
    simpl. now rewrite app_assoc.
Qed.

Lemma over_items_cons (f : pyval -> string -> pyval * list string)
    (path k : string) (v : pyval) (r : list (string * pyval)) :
  over_items f path ((k, v) :: r) =
    ((k, fst (f v (path +++ "." +++ k))) :: fst (over_items f path r),
     snd (f v (path +++ "." +++ k)) ++ snd (over_items f path r)).
Proof.
  cbn [over_items]. destruct (f v _) as [v' w].
  now destruct (over_items f path r).
Qed.

Lemma over_items_app (f : pyval -> string -> pyval * list string)
    (path : string) (a b : list (string * pyval)) :
  over_items f path (a ++ b) =
    (fst (over_items f path a) ++ fst (over_items f path b),
     snd (over_items f path a) ++ snd (over_items f path b)).
Proof.
  induction a as [|[k x] a IH].
  - simpl. now destruct (over_items f path b).
  - rewrite <- app_comm_cons, !over_items_cons, IH. cbn [fst snd].
    now rewrite app_assoc.
Qed.

Lemma strs_writable (l : list string) : forallb writable (map VStr l) = true.
Proof. induction l; simpl; auto. Qed.

Lemma of_json_writable (v : Json.value) : writable (of_json v) = true.
Proof.
  induction v as [ | b | n | f | s | items IH | fields IH] using json_induction;
    simpl; try reflexivity.
  - induction IH as [|x r Hx _ IHr]; simpl; [reflexivity|now rewrite Hx].
  - induction IH as [|[k x] r Hx _ IHr]; simpl in *; [reflexivity|now rewrite Hx].
Qed.

Lemma of_option_writable {A : Type} (f : A -> pyval) (o : option A) :
  (forall a, writable (f a) = true) -> writable (of_option f o) = true.
Proof. intros H. destruct o; simpl; auto. Qed.

Lemma entry_fields_writable (e : Data.Entry) :
  forallb (fun kv => writable (snd kv))
    [("parse_error", of_option VStr (Data.parse_error e));
     ("parsed", of_option (fun d => of_json (Json.JObj d)) (Data.parsed e));
     ("satisfaction", of_option VInt (Data.satisfaction e));
     ("key_points", of_option (fun l => VList (map VStr l)) (Data.key_points e));
     ("needs_from_other", of_option VStr (Data.needs_from_other e))] = true.
Proof.
  cbn [forallb snd].
  rewrite !of_option_writable; try reflexivity.
  - intros l. apply strs_writable.
  - intros d. apply of_json_writable.
Qed.

Lemma entry_value_split (timestamp : string) (e : Data.Entry) (lines : list pyval) :
  entry_value timestamp e lines =
    VDict ([("timestamp", VStr timestamp);
            ("turn", VInt (Data.turn e));
            ("agent", VStr (Data.agent e));
            ("attempt", VInt (Data.attempt e));
            ("raw_output", VStr (Data.raw_output e))]
           ++ ("raw_lines", VList lines)
           :: [("parse_error", of_option VStr (Data.parse_error e));
               ("parsed", of_option (fun d => of_json (Json.JObj d)) (Data.parsed e));
               ("satisfaction", of_option VInt (Data.satisfaction e));
               ("key_points", of_option (fun l => VList (map VStr l)) (Data.key_points e));
               ("needs_from_other", of_option VStr (Data.needs_from_other e))]).
Proof. reflexivity. Qed.

Lemma entry_value_writable (timestamp : string) (e : Data.Entry) (lines : list pyval) :
  forallb writable lines = true -> writable (entry_value timestamp e lines) = true.
Proof.
  intros H. rewrite entry_value_split. cbn [writable].
  rewrite forallb_app. apply andb_true_intro. split; [reflexivity|].
  apply forallb_forall. intros kv [<- | Hin]; [exact H|].
  pose proof (entry_fields_writable e) as Hf.
  rewrite forallb_forall in Hf. now apply Hf.
Qed.

Lemma entry_value_safe (timestamp : string) (e : Data.Entry) (lines : list pyval) :
  _json_safe decode (entry_value timestamp e lines) "entry" =
    (entry_value timestamp e
       (fst (over_enumerate (_json_safe decode) "entry.raw_lines" lines 0%nat)),
     snd (over_enumerate (_json_safe decode) "entry.raw_lines" lines 0%nat)).
Proof.
  rewrite !entry_value_split. cbn [_json_safe].
  rewrite over_items_app.
  rewrite over_items_fixed by reflexivity.
  rewrite over_items_cons.
  rewrite (over_items_fixed "entry" _ (entry_fields_writable e)).
  cbn [_json_safe].
  change ("entry" +++ "." +++ "raw_lines") with "entry.raw_lines".
  destruct (over_enumerate (_json_safe decode) "entry.raw_lines" lines 0%nat)
    as [lines' w].
  cbn [fst snd app]. now rewrite app_nil_r.
Qed.

End Safe.


(** An entry whose received lines are all text is written as it is, and no
    warning is printed for it. *)
Theorem entry_with_text_lines_is_written_unchanged
    (decode : string -> string) (timestamp : string) (e : Data.Entry) :
  _json_safe decode (of_entry timestamp e) "entry" = (of_entry timestamp e, []).
Proof.
  apply json_safe_fixed. apply entry_value_writable. apply strs_writable.
Qed.

(** A received line that is bytes is decoded in place, and the one warning
    printed names its position among the entry's lines. *)
Theorem bytes_line_is_decoded_and_reported
    (decode : string -> string) (timestamp : string) (e : Data.Entry)
    (before : list string) (b : string) (after : list string) :
  _json_safe decode
    (entry_value timestamp e (map VStr before ++ VBytes b :: map VStr after)) "entry"
  = (entry_value timestamp e (map VStr before ++ VStr (decode b) :: map VStr after),
     [warning ("entry.raw_lines[" +++ str_of_index (List.length before) +++ "]")]).
Proof.
  rewrite entry_value_safe, over_enumerate_app.
  rewrite (over_enumerate_fixed decode _ _ _ (strs_writable before)).
  cbn [over_enumerate _json_safe fst snd app].
  rewrite (over_enumerate_fixed decode _ _ _ (strs_writable after)).
  rewrite length_map. reflexivity.
Qed.

End PersistMore.

(** ** The entry point *)
Module MainMore.
Import Data Main MoreProps.

Lemma read_topic_rest (args : Args) (stdin : list string) :
  snd (read_topic args stdin) =
    skipn (if opt_truthy (topic args) then 0 else 1) stdin.
Proof.
  unfold read_topic. destruct (opt_truthy (topic args)); [reflexivity|].
  now destruct stdin.
Qed.


Lemma role_of_rest (given : option string) (stdin : list string) :
  snd (role_of given stdin) = skipn (if opt_truthy given then 0 else 1) stdin.
Proof.
  unfold role_of, read_role. destruct (opt_truthy given); [reflexivity|].
  now destruct stdin.
Qed.

Lemma role_of_given (role : string) (stdin : list string) :
  Py.str_truthy role = true -> role_of (Some role) stdin = (role, stdin).
Proof.
  intros H. unfold role_of, opt_truthy, or_else. now rewrite H.
Qed.

Lemma main_parts (args : Args) (stdin : list string) :
  let t := read_topic args stdin in
  let a := role_of (agent_a_role args) (snd t) in
  let b := role_of (agent_b_role args) (snd a) in
  snd (main args stdin) = snd b
  /\ Orchestrator.topic (config (fst (main args stdin))) = fst t
  /\ agents (fst (main args stdin))
     = Personas.build_agent_configs (or_none (fst a)) (or_none (fst b)).
Proof.
  cbv zeta. unfold main.
  destruct (read_topic args stdin) as [t s1].
  cbn [fst snd]. destruct (role_of (agent_a_role args) s1) as [a s2].
  cbn [fst snd]. destruct (role_of (agent_b_role args) s2) as [b s3].
  repeat split.
Qed.

Lemma main_prompts (args : Args) (stdin : list string) (agent_name : string) :
  Orchestrator.system_prompts (config (fst (main args stdin))) agent_name =
    match Personas.lookup (agents (fst (main args stdin))) agent_name with
    | Some a => Agents.system_prompt a
    | None => EmptyString
    end.
Proof.
  unfold main.
  destruct (read_topic args stdin) as [t s1].
  destruct (role_of (agent_a_role args) s1) as [a s2].
  destruct (role_of (agent_b_role args) s2) as [b s3].
  reflexivity.
Qed.


(** [main] reads one line of standard input for each of the three options
    (topic, the two roles) that the command line left out, and no more. *)
Theorem main_reads_one_line_per_missing_option (args : Args) (stdin : list string) :
  snd (main args stdin) = skipn (asked args) stdin.
Proof.
  destruct (main_parts args stdin) as [Hs _]. rewrite Hs.
  rewrite !role_of_rest, read_topic_rest, !skipn_skipn.
  unfold asked. f_equal. lia.
Qed.

(** Roles given on the command line end up at the end of the two agents'
    system prompts, after the persona text. *)
Theorem main_appends_given_roles
    (args : Args) (stdin : list string) (role_a role_b : string) :
  agent_a_role args = Some role_a -> Py.str_truthy role_a = true ->
  agent_b_role args = Some role_b -> Py.str_truthy role_b = true ->
  let cfg := config (fst (main args stdin)) in
  Orchestrator.system_prompts cfg "Agent A"
    = Personas.agent_a_prompt +++ Personas.role_prefix +++ role_a
  /\ Orchestrator.system_prompts cfg "Agent B"
     = Personas.agent_b_prompt +++ Personas.role_prefix +++ role_b.
Proof.
  intros Ha Hta Hb Htb. cbv zeta.
  destruct (main_parts args stdin) as [_ [_ Hag]].
  rewrite !main_prompts, Hag, Ha, Hb, !role_of_given by assumption.
  cbn [fst snd]. unfold or_none. rewrite Hta, Htb.
  unfold Personas.build_agent_configs, Personas.with_role.
  rewrite Hta, Htb. split; reflexivity.
Qed.

Lemma main_appends_given_roles_witness :
  let cfg := config (fst (main (with_roles "critic" "coach") ["a topic"])) in
  Orchestrator.system_prompts cfg "Agent A"
    = Personas.agent_a_prompt +++ Personas.role_prefix +++ "critic"
  /\ Orchestrator.system_prompts cfg "Agent B"
     = Personas.agent_b_prompt +++ Personas.role_prefix +++ "coach".
Proof.
  exact (main_appends_given_roles (with_roles "critic" "coach") ["a topic"]
           "critic" "coach" eq_refl eq_refl eq_refl eq_refl).
Defined.

End MainMore.

(** ** The size of the prompts *)
Module PromptMore.
Import Eff Data Orchestrator Props MoreProps PromptFacts RunMore.

Lemma system_part_length (agent : Agents.AgentConfig) (strict : bool)
    (summary topic : option string) :
  (List.length (system_part agent strict summary topic) <= 4)%nat.
Proof.
  unfold system_part.
  destruct strict, (opt_truthy topic), (opt_truthy summary); simpl; lia.
Qed.

Lemma envelope_length (cfg : Config) (agent : Agents.AgentConfig) (attempt : Z)
    (ctx : list Entry) :
  (List.length (envelope cfg agent attempt ctx)
   <= 4 + Nat.max 1 (Z.to_nat (summary_keep_last cfg)))%nat.
Proof.
  unfold envelope. rewrite build_messages_parts, length_app, summarize_recent.
  pose proof (system_part_length agent (attempt =? 2)
                (fst (_summarize_and_trim_context cfg ctx)) (Some (topic cfg))) as Hs.
  assert (Hr : (List.length (recent_part (summary_keep_last cfg) ctx)
                <= Z.to_nat (summary_keep_last cfg))%nat).
  { unfold recent_part. rewrite length_skipn. lia. }
  destruct (recent_part (summary_keep_last cfg) ctx) as [|e r] eqn:E.
  - cbn [List.length]. lia.
  - rewrite length_map. lia.
Qed.

Lemma run_prompts_are_envelopes (cfg : Config) (script : list ChatReply) :
  Forall (fun msgs => exists agent attempt ctx, msgs = envelope cfg agent attempt ctx)
         (prompts (final_state (run cfg (initial script)))).
Proof.
  rewrite run_final_state.
  destruct (range1 (max_turns cfg)) as [|t rest]; [constructor|].
  destruct (rounds_prompts_from_start cfg t rest
              {| stable_count := 0; stop_reason := None; last_valid := [] |}
              (initial script) eq_refl) as [first [later [_ [Hp [Hf Hl]]]]].
  rewrite Hp. simpl. apply Forall_app. split.
  - eapply Forall_impl; [|exact Hf]. intros msgs [agent [attempt ->]].
    now exists agent, attempt, [].
  - eapply Forall_impl; [|exact Hl]. intros msgs [agent [attempt [ctx [_ ->]]]].
    now exists agent, attempt, ctx.
Qed.

(** However long the dialogue gets, no prompt of a run holds more than four
    system messages and [max(1, summary_keep_last)] conversation messages. *)
Theorem run_prompts_stay_bounded (cfg : Config) (script : list ChatReply) :
  Forall (fun msgs =>
            (List.length msgs <= 4 + Nat.max 1 (Z.to_nat (summary_keep_last cfg)))%nat)
         (prompts (final_state (run cfg (initial script)))).
Proof.
  eapply Forall_impl; [|apply run_prompts_are_envelopes].
  intros msgs [agent [attempt [ctx ->]]]. apply envelope_length.
Qed.

End PromptMore.
